(** * Callbot: the Twilio media stream / AmiVoice bridge

    A shallow embedding of [amivoice.js] (class [AmiVoice]) and of
    [server.js] (class [VoiceStream]), and the properties of the two
    classes proved over it.

    - JavaScript values are the inductive [Value]; property access on
      [null] and [undefined] throws, as it does in JavaScript.
    - A method of [AmiVoice] is a function from the object's fields to
      an outcome, the new fields and the list of actions it performed
      (frames sent, console lines, events emitted, connects issued).
    - The objects live in a heap; [VoiceStream] holds a reference.
    - The event loop is the function [step]: one callback per event.
    - What Node and the npm packages provide ([JSON.parse],
      [Buffer.from], the digits of a number, TwiML rendering) is a
      parameter of the model; reference implementations are given to run
      it on concrete frames. *)

From Stdlib Require Import Ascii.
From Stdlib.Strings Require Import Byte.
From stdpp Require Import base list strings pretty.

Set Default Proof Using "Type".

(** ** JavaScript values and errors *)

#[warnings="-register-all"]
Inductive Value : Type :=
  | VUndefined
  | VNull
  | VBool (b : bool)
  | VNum (lexeme : string)   (* a number, kept as written: the program computes with none *)
  | VStr (s : string)
  | VArr (items : list Value)
  | VObj (fields : list (string * Value)).

Inductive Error : Type :=
  | TypeError
  | SyntaxError
  | RequestFailed.   (* the rejection of a promise of an external interface *)

Inductive Res (A : Type) : Type :=
  | Ret (a : A)
  | Throw (e : Error).
Arguments Ret {A} a.
Arguments Throw {A} e.

Fixpoint assoc (k : string) (fields : list (string * Value)) : option Value :=
  match fields with
  | [] => None
  | (k', v) :: rest => if String.eqb k k' then Some v else assoc k rest
  end.

(** [v.k]: a TypeError on [null] and [undefined], [undefined] for a
    property that is absent.  (No name read by the program is a
    built-in property of a string, an array or a number.) *)
Definition get (k : string) (v : Value) : Res Value :=
  match v with
  | VUndefined | VNull => Throw TypeError
  | VObj fields => Ret (default VUndefined (assoc k fields))
  | _ => Ret VUndefined
  end.

Definition res_bind {A B} (r : Res A) (f : A -> Res B) : Res B :=
  match r with
  | Ret a => f a
  | Throw e => Throw e
  end.

(** ** Strings

    A JavaScript string is a sequence of UTF-16 code units.  The model
    keeps a string as its bytes in UTF-8, and a lone surrogate as the
    three bytes of its generalized UTF-8 form.  A character of one, two
    or three bytes is one code unit; a character of four bytes is a
    surrogate pair. *)

(** The three bytes of a surrogate [u], from D800 to DFFF. *)
Definition surrogate (u : N) : string :=
  String (ascii_of_N 237)
    (String (ascii_of_N (128 + N.land (N.shiftr u 6) 63))
       (String (ascii_of_N (128 + N.land u 63)) EmptyString)).

(** The first code unit of a string, and what follows it. *)
Definition code_unit (s : string) : string * string :=
  match s with
  | EmptyString => (EmptyString, EmptyString)
  | String c0 rest =>
      let b0 := N_of_ascii c0 in
      if (b0 <? 192)%N then (String c0 EmptyString, rest)
      else if (b0 <? 224)%N then
        match rest with
        | String c1 rest => (String c0 (String c1 EmptyString), rest)
        | _ => (s, EmptyString)
        end
      else if (b0 <? 240)%N then
        match rest with
        | String c1 (String c2 rest) =>
            (String c0 (String c1 (String c2 EmptyString)), rest)
        | _ => (s, EmptyString)
        end
      else
        match rest with
        | String c1 (String c2 (String c3 rest)) =>
            let cp := (N.shiftl (N.land b0 7) 18
                       + N.shiftl (N.land (N_of_ascii c1) 63) 12
                       + N.shiftl (N.land (N_of_ascii c2) 63) 6
                       + N.land (N_of_ascii c3) 63)%N in
            let v := (cp - 65536)%N in
            (surrogate (55296 + N.shiftr v 10),
             surrogate (56320 + N.land v 1023) +:+ rest)
        | _ => (s, EmptyString)
        end
  end.

(** [String.prototype.charAt(0)] and [substring(2)]. *)
Definition charAt0 (s : string) : string := fst (code_unit s).

Definition substring2 (s : string) : string := snd (code_unit (snd (code_unit s))).

(** [v[0]], as in [choices[0]]. *)
Definition get0 (v : Value) : Res Value :=
  match v with
  | VUndefined | VNull => Throw TypeError
  | VArr items => Ret (default VUndefined (items !! 0))
  | VObj fields => Ret (default VUndefined (assoc "0" fields))
  | VStr EmptyString => Ret VUndefined
  | VStr s => Ret (VStr (charAt0 s))
  | _ => Ret VUndefined
  end.

(** ** Conversion to a string *)

Section Conversions.

(** [String(n)] of a number, from the number as it is written. *)
Variable Number_toString : string -> string.

(** [String(v)], the conversion a template literal applies: the
    elements of an array joined by commas, [null] and [undefined] among
    them as the empty string; [[object Object]] for an object, and a
    TypeError for an object with a property [toString] of its own (the
    values here are data: no property is a function, and with
    [toString] shadowed the inherited [valueOf] returns the object).
    The elements of an array are converted in order. *)
Fixpoint ToString (v : Value) : Res string :=
  match v with
  | VUndefined => Ret "undefined"
  | VNull => Ret "null"
  | VBool b => Ret (if b then "true" else "false")
  | VNum lexeme => Ret (Number_toString lexeme)
  | VStr s => Ret s
  | VArr items =>
      (fix join (items : list Value) : Res string :=
         match items with
         | [] => Ret EmptyString
         | item :: rest =>
             res_bind
               match item with
               | VUndefined | VNull => Ret EmptyString
               | _ => ToString item
               end
               (fun s =>
                  match rest with
                  | [] => Ret s
                  | _ => res_bind (join rest) (fun t => Ret (s +:+ "," +:+ t))
                  end)
         end) items
  | VObj fields =>
      match assoc "toString" fields with
      | Some _ => Throw TypeError
      | None => Ret "[object Object]"
      end
  end.

End Conversions.

(** ** Reference implementations of the platform functions

    These run the model on concrete frames.  The theorems below hold for
    every [JSON.parse] and every base64 decoder; no theorem depends on the
    details of the ones given here. *)

Module Reference.

Definition dquote : ascii := "034"%char.
Definition backslash : ascii := "092"%char.

Definition is_ws (c : ascii) : bool :=
  let n := nat_of_ascii c in
  Nat.eqb n 32 || Nat.eqb n 9 || Nat.eqb n 10 || Nat.eqb n 13.

Fixpoint skip_ws (s : string) : string :=
  match s with
  | String c rest => if is_ws c then skip_ws rest else s
  | EmptyString => s
  end.

(** The characters of a string literal after its opening quote. *)
Fixpoint string_body (s : string) : option (string * string) :=
  match s with
  | EmptyString => None
  | String c rest =>
      if Ascii.eqb c dquote then Some (EmptyString, rest)
      else if Ascii.eqb c backslash then
        match rest with
        | String e rest' =>
            let esc (x : ascii) :=
              match string_body rest' with
              | Some (body, tl) => Some (String x body, tl)
              | None => None
              end in
            if Ascii.eqb e dquote then esc dquote
            else if Ascii.eqb e backslash then esc backslash
            else if Ascii.eqb e "/" then esc "/"%char
            else if Ascii.eqb e "n" then esc "010"%char
            else if Ascii.eqb e "t" then esc "009"%char
            else if Ascii.eqb e "r" then esc "013"%char
            else None
        | EmptyString => None
        end
      else
        match string_body rest with
        | Some (body, tl) => Some (String c body, tl)
        | None => None
        end
  end.

Definition is_num_char (c : ascii) : bool :=
  let n := nat_of_ascii c in
  (Nat.leb 48 n && Nat.leb n 57)
  || Nat.eqb n 45 || Nat.eqb n 43 || Nat.eqb n 46 || Nat.eqb n 101 || Nat.eqb n 69.

Fixpoint number_lexeme (s : string) : string * string :=
  match s with
  | String c rest =>
      if is_num_char c
      then let '(lx, tl) := number_lexeme rest in (String c lx, tl)
      else (EmptyString, s)
  | EmptyString => (EmptyString, s)
  end.

Definition expect (word : string) (v : Value) (s : string) : option (Value * string) :=
  if String.prefix word s
  then Some (v, String.substring (String.length word) (String.length s - String.length word) s)
  else None.

(** A later member with the same key replaces the earlier one. *)
Fixpoint put (k : string) (v : Value) (fields : list (string * Value)) :=
  match fields with
  | [] => [(k, v)]
  | (k', v') :: rest =>
      if String.eqb k k' then (k, v) :: rest else (k', v') :: put k v rest
  end.

Fixpoint value (fuel : nat) (s : string) : option (Value * string) :=
  match fuel with
  | O => None
  | S fuel =>
      match skip_ws s with
      | EmptyString => None
      | String c rest as s' =>
          if Ascii.eqb c dquote then
            match string_body rest with
            | Some (body, tl) => Some (VStr body, tl)
            | None => None
            end
          else if Ascii.eqb c "[" then
            match skip_ws rest with
            | String c' rest' =>
                if Ascii.eqb c' "]" then Some (VArr [], rest')
                else
                  match elements fuel rest with
                  | Some (items, tl) => Some (VArr items, tl)
                  | None => None
                  end
            | EmptyString => None
            end
          else if Ascii.eqb c "{" then
            match skip_ws rest with
            | String c' rest' =>
                if Ascii.eqb c' "}" then Some (VObj [], rest')
                else
                  match members fuel rest [] with
                  | Some (fields, tl) => Some (VObj fields, tl)
                  | None => None
                  end
            | EmptyString => None
            end
          else if Ascii.eqb c "n" then expect "null" VNull s'
          else if Ascii.eqb c "t" then expect "true" (VBool true) s'
          else if Ascii.eqb c "f" then expect "false" (VBool false) s'
          else if is_num_char c then
            let '(lx, tl) := number_lexeme s' in Some (VNum lx, tl)
          else None
      end
  end
with elements (fuel : nat) (s : string) : option (list Value * string) :=
  match fuel with
  | O => None
  | S fuel =>
      match value fuel s with
      | Some (v, tl) =>
          match skip_ws tl with
          | String c rest =>
              if Ascii.eqb c "]" then Some ([v], rest)
              else if Ascii.eqb c "," then
                match elements fuel rest with
                | Some (vs, tl') => Some (v :: vs, tl')
                | None => None
                end
              else None
          | EmptyString => None
          end
      | None => None
      end
  end
with members (fuel : nat) (s : string) (acc : list (string * Value))
  : option (list (string * Value) * string) :=
  match fuel with
  | O => None
  | S fuel =>
      match skip_ws s with
      | String q rest =>
          if Ascii.eqb q dquote then
            match string_body rest with
            | Some (k, tl) =>
                match skip_ws tl with
                | String colon tl' =>
                    if Ascii.eqb colon ":" then
                      match value fuel tl' with
                      | Some (v, tl'') =>
                          match skip_ws tl'' with
                          | String c rest' =>
                              if Ascii.eqb c "}" then Some (put k v acc, rest')
                              else if Ascii.eqb c "," then members fuel rest' (put k v acc)
                              else None
                          | EmptyString => None
                          end
                      | None => None
                      end
                    else None
                | EmptyString => None
                end
            | None => None
            end
          else None
      | EmptyString => None
      end
  end.

(** [JSON.parse]: [None] stands for the SyntaxError. *)
Definition JSON_parse (s : string) : option Value :=
  match value (2 * String.length s + 2) s with
  | Some (v, tl) =>
      match skip_ws tl with
      | EmptyString => Some v
      | _ => None
      end
  | None => None
  end.

(** JSON text of a value, to write the frames of the examples. *)
Fixpoint quote_body (s : string) : string :=
  match s with
  | EmptyString => String dquote EmptyString
  | String c rest =>
      if Ascii.eqb c dquote || Ascii.eqb c backslash
      then String backslash (String c (quote_body rest))
      else String c (quote_body rest)
  end.

Definition quote (s : string) : string := String dquote (quote_body s).

Fixpoint json (v : Value) : string :=
  match v with
  | VUndefined | VNull => "null"
  | VBool true => "true"
  | VBool false => "false"
  | VNum lx => lx
  | VStr s => quote s
  | VArr items =>
      let fix go (l : list Value) : string :=
        match l with
        | [] => "]"
        | [x] => json x +:+ "]"
        | x :: rest => json x +:+ "," +:+ go rest
        end in
      "[" +:+ go items
  | VObj fields =>
      let fix go (l : list (string * Value)) : string :=
        match l with
        | [] => "}"
        | [(k, x)] => quote k +:+ ":" +:+ json x +:+ "}"
        | (k, x) :: rest => quote k +:+ ":" +:+ json x +:+ "," +:+ go rest
        end in
      "{" +:+ go fields
  end.

(** [Buffer.from(s, "base64")] on a string: both alphabets, stops at the
    first padding character, skips any other character. *)
Definition b64_digit (c : ascii) : option N :=
  let n := N_of_ascii c in
  if (65 <=? n)%N && (n <=? 90)%N then Some (n - 65)%N
  else if (97 <=? n)%N && (n <=? 122)%N then Some (n - 71)%N
  else if (48 <=? n)%N && (n <=? 57)%N then Some (n + 4)%N
  else if (n =? 43)%N || (n =? 45)%N then Some 62%N
  else if (n =? 47)%N || (n =? 95)%N then Some 63%N
  else None.

Fixpoint b64_digits (s : string) : list N :=
  match s with
  | EmptyString => []
  | String c rest =>
      if Ascii.eqb c "=" then []
      else match b64_digit c with
           | Some d => d :: b64_digits rest
           | None => b64_digits rest
           end
  end.

Definition byte_of (n : N) : byte := default x00 (Byte.of_N (n mod 256)%N).

Fixpoint b64_bytes (ds : list N) : list byte :=
  match ds with
  | a :: b :: c :: d :: rest =>
      byte_of (a * 4 + b / 16) :: byte_of (b * 16 + c / 4) :: byte_of (c * 64 + d)
        :: b64_bytes rest
  | [a; b; c] => [byte_of (a * 4 + b / 16); byte_of (b * 16 + c / 4)]
  | [a; b] => [byte_of (a * 4 + b / 16)]
  | _ => []
  end.

Definition base64_decode (s : string) : list byte := b64_bytes (b64_digits s).

(** [String(n)], for a number that is written the way JavaScript shows
    it, as [JSON.stringify] writes it: the number as it is written. *)
Definition Number_toString (lexeme : string) : string := lexeme.

End Reference.

(** ** A state and exception monad

    [M S X] is a computation over a state [S] that returns an [X] or
    throws.  What was done before a throw stays done. *)

Definition M (S X : Type) : Type := S -> Res X * S.

#[global] Instance M_ret {S} : MRet (M S) := fun X (x : X) s => (Ret x, s).

#[global] Instance M_bind {S} : MBind (M S) := fun X Y (f : X -> M S Y) (m : M S X) s =>
  match m s with
  | (Ret x, s') => f x s'
  | (Throw e, s') => (Throw e, s')
  end.

Definition throw {S X} (e : Error) : M S X := fun s => (Throw e, s).

Definition lift {S X} (r : Res X) : M S X := fun s => (r, s).

Definition reads {S X} (f : S -> X) : M S X := fun s => (Ret (f s), s).

Definition modify {S} (f : S -> S) : M S unit := fun s => (Ret tt, f s).

(** ** The wire *)

Abbreviation ConnId := nat (only parsing).

(** A message of the [websocket] package: [{type: "utf8", utf8Data}] or
    [{type: "binary", binaryData}]. *)
Inductive Message : Type :=
  | Utf8 (utf8Data : string)
  | BinaryMessage (binaryData : list byte).

(** What [connection.send] transmits: a string goes out as a text frame,
    a Buffer as a binary frame. *)
Inductive Frame : Type :=
  | TextFrame (data : string)
  | BinaryFrame (data : list byte).

(** ** amivoice.js *)

Definition AMIVOICE_WEBSOCKET_URL : string := "wss://acp-api.amivoice.com/v1/".

(** The one listener the program registers (server.js, the arrow function
    passed to [on("transcription", ...)]). *)
Inductive Listener : Type := OnTranscription.

Record AmiVoice : Type := mkAmiVoice {
  apiKey : option string;        (* [undefined] when the variable is unset *)
  isReady : bool;
  isStarted : option bool;       (* the constructor leaves it [undefined] *)
  connection : option ConnId;    (* [undefined] until a connect succeeds *)
  listeners : list (string * Listener)
}.

(** What a method does to the world outside the object, in order.
    [log(message, ...args)] is [Log message args]; the timestamp is left
    out. *)
Inductive Action : Type :=
  | ClientConnect (url : string)   (* [new WebSocketClient()] and [client.connect(url)] *)
  | Send (c : ConnId) (f : Frame)
  | Log (message : string) (args : list Value)
  | Emit (event : string) (payload : Value).

Definition Method (X : Type) : Type := M (AmiVoice * list Action) X.

Definition this {X} (f : AmiVoice -> X) : Method X := reads (fun s => f (fst s)).

Definition act (x : Action) : Method unit := modify (fun s => (fst s, snd s ++ [x])).

Definition log (message : string) (args : list Value) : Method unit := act (Log message args).

Definition set_isReady (b : bool) : Method unit :=
  modify (fun s =>
    let a := fst s in
    (mkAmiVoice (apiKey a) b (isStarted a) (connection a) (listeners a), snd s)).

Definition set_isStarted (b : bool) : Method unit :=
  modify (fun s =>
    let a := fst s in
    (mkAmiVoice (apiKey a) (isReady a) (Some b) (connection a) (listeners a), snd s)).

Definition set_connection (c : ConnId) : Method unit :=
  modify (fun s =>
    let a := fst s in
    (mkAmiVoice (apiKey a) (isReady a) (isStarted a) (Some c) (listeners a), snd s)).

(** Truthiness of [this.isStarted]. *)
Definition truthy (v : option bool) : bool := default false v.

(** [this.connection.send(data)]; a TypeError while [this.connection] is
    [undefined]. *)
Definition connection_send (f : Frame) : Method unit :=
  c ← this connection;
  match c with
  | Some c => act (Send c f)
  | None => throw TypeError
  end.

(** A template literal renders [undefined] as the word. *)
Definition interpolate (v : option string) : string := default "undefined" v.

Definition start_command (key : option string) : string :=
  "s mulaw -a-general authorization=" +:+ interpolate key.

(** [new Uint8Array(n)] and the copy loop of [send]. *)
Definition Uint8Array (n : nat) : list byte := replicate n x00.

Fixpoint copy_loop (fuel i : nat) (buff outData : list byte) : list byte :=
  match fuel with
  | O => outData
  | S fuel =>
      if i <? length buff
      then copy_loop fuel (S i) buff (<[1 + i := default x00 (buff !! i)]> outData)
      else outData
  end.

Definition audio_frame (buff : list byte) : list byte :=
  let outData := Uint8Array (length buff + 1) in
  let outData := <[0 := x70]> outData in
  copy_loop (S (length buff)) 0 buff outData.
Arguments audio_frame : simpl never.

Section AmiVoice.

(** [JSON.parse]; [None] is the SyntaxError. *)
Variable JSON_parse : string -> option Value.
(** [Buffer.from(s, "base64")] on a string [s]: it never throws. *)
Variable base64_decode : string -> list byte.
(** [Buffer.from(v, "base64")] on any other value; [None] is the TypeError. *)
Variable Buffer_from_other : Value -> option (list byte).
(** [String(n)] of a number. *)
Variable Number_toString : string -> string.

Definition parse (s : string) : Res Value :=
  match JSON_parse s with
  | Some v => Ret v
  | None => Throw SyntaxError
  end.

Definition Buffer_from (payload : Value) : Res (list byte) :=
  match payload with
  | VStr s => Ret (base64_decode s)
  | v => match Buffer_from_other v with
         | Some b => Ret b
         | None => Throw TypeError
         end
  end.

Definition connect : Method unit :=
  ready ← this isReady;
  if negb ready then act (ClientConnect AMIVOICE_WEBSOCKET_URL) else mret tt.

Definition new_AmiVoice (key : option string) : Res unit * (AmiVoice * list Action) :=
  connect (mkAmiVoice key false None None [], []).

Definition start : Method unit :=
  ready ← this isReady;
  if negb ready then connect
  else
    started ← this isStarted;
    if ready && negb (truthy started) then
      key ← this apiKey;
      connection_send (TextFrame (start_command key))
    else mret tt.

Definition send (payload : Value) : Method unit :=
  started ← this isStarted;
  if truthy started then
    buff ← lift (Buffer_from payload);
    connection_send (BinaryFrame (audio_frame buff))
  else mret tt.

Definition close : Method unit :=
  started ← this isStarted;
  ready ← this isReady;
  if truthy started && ready then
    log "AmiVoice: send close command" [];;
    connection_send (TextFrame "e");;
    set_isStarted false
  else mret tt.

(** The callbacks registered in [connect]. *)

Definition on_connectFailed (error : string) : Method unit :=
  log ("AmiVoice: " +:+ error) [];;
  set_isReady false.

Definition on_message (message : Message) : Method unit :=
  match message with
  | Utf8 utf8Data =>
      let code := charAt0 utf8Data in
      if String.eqb code "s" then
        log "AmiVoice: [s] Connection established" [];;
        set_isStarted true
      else if String.eqb code "A" then
        data ← lift (parse (substring2 utf8Data));
        text ← lift (get "text" data);
        shown ← lift (ToString Number_toString text);
        log ("AmiVoice: [A] " +:+ shown) [];;
        act (Emit "transcription" (VObj [("body", data)]))
      else if String.eqb code "e" then
        log "AmiVoice: [e] Connection closed" [];;
        set_isStarted false;;
        set_isReady false
      else mret tt
  | BinaryMessage _ => mret tt
  end.

Definition on_error (error : string) : Method unit :=
  log ("Connection Error: " +:+ error) [].

Definition on_close : Method unit :=
  set_isStarted false;;
  log "AmiVoice: connection closed" [].

Definition on_connect (c : ConnId) : Method unit :=
  set_connection c;;
  log "AmiVoice: websocket client connected" [];;
  set_isReady true;;
  start.

(** A method called on an object, from a clean slate of actions. *)
Definition call {X} (m : Method X) (a : AmiVoice) : Res X * (AmiVoice * list Action) :=
  m (a, []).

End AmiVoice.

(** ** server.js *)

Definition TWILIO_VOICE : string := "Polly.Takumi-Neural".
Definition TWILIO_LANGUAGE : string := "ja-JP".

(** A [VoiceResponse] is the list of its verbs. *)
Inductive Verb : Type :=
  | Say (voice language : string) (message : Value)
  | Pause (length : nat).

(** The two external interfaces [receivedTranscription] calls:
    [openai.createChatCompletion(request)] and
    [twilioClient.calls(callSid).update({twiml})]. *)
Inductive ExternalCall : Type :=
  | CreateChatCompletion (request : Value)
  | CallsUpdate (callSid : Value) (twiml : string).

(** An asynchronous function up to its end: it logs, it issues an
    external request and goes on when the promise settles ([None] when
    it rejects), it returns or its own promise rejects.  [Request] is
    both the [await] of the completion and the [then] of the update:
    nothing observes the difference here. *)
Inductive Task : Type :=
  | Done
  | Rejected (e : Error)
  | TaskLog (message : string) (args : list Value) (k : Task)
  | Request (c : ExternalCall) (k : option Value -> Task).

Abbreviation Ref := nat (only parsing).

Record VoiceStream : Type := mkVoiceStream {
  messageCount : nat;
  amiVoiceConnection : option Ref;   (* [null] until a start event *)
  callSid : Value
}.

(** The program and what is around it: the [VoiceStream] of one inbound
    connection, the [AmiVoice] objects it has created, the connect
    attempts and the connections of their websocket clients (the owner
    of each and whether it is still pending, or open), every frame
    written to a provider connection, the console, the external requests
    issued, the continuations waiting for one to settle, and the
    rejections nobody handles. *)
Record World : Type := mkWorld {
  vs : VoiceStream;
  heap : list AmiVoice;
  clients : list (Ref * bool);
  sockets : list (Ref * bool);
  wire : list (ConnId * Frame);
  console : list (string * list Value);
  requests : list ExternalCall;
  suspended : list (option (option Value -> Task));
  unhandled : list Error
}.

Definition set_vs (f : VoiceStream -> VoiceStream) (w : World) : World :=
  mkWorld (f (vs w)) (heap w) (clients w) (sockets w) (wire w) (console w)
    (requests w) (suspended w) (unhandled w).
Definition set_heap (f : list AmiVoice -> list AmiVoice) (w : World) : World :=
  mkWorld (vs w) (f (heap w)) (clients w) (sockets w) (wire w) (console w)
    (requests w) (suspended w) (unhandled w).
Definition set_clients (f : list (Ref * bool) -> list (Ref * bool)) (w : World) : World :=
  mkWorld (vs w) (heap w) (f (clients w)) (sockets w) (wire w) (console w)
    (requests w) (suspended w) (unhandled w).
Definition set_sockets (f : list (Ref * bool) -> list (Ref * bool)) (w : World) : World :=
  mkWorld (vs w) (heap w) (clients w) (f (sockets w)) (wire w) (console w)
    (requests w) (suspended w) (unhandled w).
Definition add_wire (c : ConnId) (f : Frame) (w : World) : World :=
  mkWorld (vs w) (heap w) (clients w) (sockets w) (wire w ++ [(c, f)]) (console w)
    (requests w) (suspended w) (unhandled w).
Definition add_console (message : string) (args : list Value) (w : World) : World :=
  mkWorld (vs w) (heap w) (clients w) (sockets w) (wire w) (console w ++ [(message, args)])
    (requests w) (suspended w) (unhandled w).
Definition add_request (c : ExternalCall) (k : option Value -> Task) (w : World) : World :=
  mkWorld (vs w) (heap w) (clients w) (sockets w) (wire w) (console w)
    (requests w ++ [c]) (suspended w ++ [Some k]) (unhandled w).
Definition set_suspended
    (f : list (option (option Value -> Task)) -> list (option (option Value -> Task)))
    (w : World) : World :=
  mkWorld (vs w) (heap w) (clients w) (sockets w) (wire w) (console w)
    (requests w) (f (suspended w)) (unhandled w).
Definition add_unhandled (e : Error) (w : World) : World :=
  mkWorld (vs w) (heap w) (clients w) (sockets w) (wire w) (console w)
    (requests w) (suspended w) (unhandled w ++ [e]).

(** A task runs until it ends or waits for a request to settle. *)
Fixpoint run_task (t : Task) (w : World) : World :=
  match t with
  | Done => w
  | Rejected e => add_unhandled e w
  | TaskLog message args k => run_task k (add_console message args w)
  | Request c k => add_request c k w
  end.

(** What comes in from outside, one callback each. *)
Inductive Event : Type :=
  | TwilioMessage (message : Message)
  | TwilioClose
  | ConnectFailed (client : nat) (error : string)
  | Connect (client : nat)
  | ProviderMessage (c : ConnId) (message : Message)
  | ProviderError (c : ConnId) (error : string)
  | ProviderClose (c : ConnId)
  | Settled (request : nat) (outcome : option Value).

Section Server.

Variable JSON_parse : string -> option Value.
Variable base64_decode : string -> list byte.
Variable Buffer_from_other : Value -> option (list byte).
(** [twiml.toString()] of the [twilio] package. *)
Variable VoiceResponse_toString : list Verb -> string.
(** [env.AMIVOICE_API_KEY]. *)
Variable AMIVOICE_API_KEY : option string.
(** [String(n)] of a number. *)
Variable Number_toString : string -> string.

Definition completion_request (content : Value) : Value :=
  VObj [("model", VStr "gpt-3.5-turbo");
        ("messages", VArr [VObj [("role", VStr "user"); ("content", content)]])].

(** [completion.data.choices[0].message.content]. *)
Definition completion_content (completion : Value) : Res Value :=
  res_bind (get "data" completion) (fun d =>
  res_bind (get "choices" d) (fun cs =>
  res_bind (get0 cs) (fun c =>
  res_bind (get "message" c) (get "content")))).

Definition reply_twiml (chatGptMessage : Value) : list Verb :=
  [Say TWILIO_VOICE TWILIO_LANGUAGE chatGptMessage; Pause 40].

(** [data.body.text] is read and converted for the log line, and read
    again for the request; it is read once here.  A throw in the body of
    the function, or in the callback of [then], rejects a promise that
    nobody handles. *)
Definition receivedTranscription (data sid : Value) : Task :=
  match res_bind (get "body" data) (get "text") with
  | Throw e => Rejected e
  | Ret text =>
      match ToString Number_toString text with
      | Throw e => Rejected e
      | Ret shown =>
          TaskLog ("Twilio WS: Received message from AmiVoice: " +:+ shown) []
            (Request (CreateChatCompletion (completion_request text)) (fun settled =>
               match settled with
               | None => Rejected RequestFailed
               | Some completion =>
                   match completion_content completion with
                   | Throw e => Rejected e
                   | Ret chatGptMessage =>
                       Request
                         (CallsUpdate sid
                            (VoiceResponse_toString (reply_twiml chatGptMessage)))
                         (fun settled =>
                            match settled with
                            | None => Rejected RequestFailed
                            | Some _call =>
                                match ToString Number_toString chatGptMessage with
                                | Throw e => Rejected e
                                | Ret said =>
                                    TaskLog
                                      ("Twilio WS: ChatGPT response sent back with TwiML: "
                                       +:+ said) [] Done
                                end
                            end)
                   end
               end))
      end
  end.

(** A listener called by [emit]: the arrow function of the start case
    reads [this.callSid] when it is called. *)
Definition call_listener (l : Listener) (payload : Value) (w : World) : World :=
  match l with
  | OnTranscription => run_task (receivedTranscription payload (callSid (vs w))) w
  end.

(** One action of a method of the object at [owner], carried out. *)
Definition perform (owner : Ref) (w : World) (x : Action) : World :=
  match x with
  | ClientConnect _ => set_clients (fun l => l ++ [(owner, true)]) w
  | Send c f => add_wire c f w
  | Log message args => add_console message args w
  | Emit event payload =>
      match heap w !! owner with
      | Some a =>
          fold_left
            (fun w l => if String.eqb (fst l) event then call_listener (snd l) payload w else w)
            (listeners a) w
      | None => w
      end
  end.

(** [r.m(...)]: the method runs on the object behind the reference. *)
Definition invoke {X} (r : Ref) (m : Method X) : M World X := fun w =>
  match heap w !! r with
  | Some a =>
      let '(res, (a', acts)) := call m a in
      (res, fold_left (perform r) acts (set_heap (fun h => <[r := a']> h) w))
  | None => (Throw TypeError, w)
  end.

(** [new AmiVoice(key)]: the constructor runs, the object gets a
    fresh reference. *)
Definition new (key : option string) : M World Ref := fun w =>
  let r := length (heap w) in
  let '(res, (a, acts)) := new_AmiVoice key in
  match res with
  | Ret _ => (Ret r, fold_left (perform r) acts (set_heap (fun h => h ++ [a]) w))
  | Throw e => (Throw e, w)
  end.

(** [r.on(event, l)]. *)
Definition on (r : Ref) (event : string) (l : Listener) : M World unit :=
  modify (set_heap (fun h =>
    match h !! r with
    | Some a =>
        <[r := mkAmiVoice (apiKey a) (isReady a) (isStarted a) (connection a)
                 (listeners a ++ [(event, l)])]> h
    | None => h
    end)).

Definition server_log (message : string) (args : list Value) : M World unit :=
  modify (add_console message args).

Definition VoiceStream_close : M World unit :=
  n ← reads (fun w => messageCount (vs w));
  server_log ("Twilio WS: Closed. Received a total of [" +:+ pretty n +:+ "] messages") [];;
  conn ← reads (fun w => amiVoiceConnection (vs w));
  match conn with
  | Some r => invoke r close
  | None => throw TypeError
  end.

Definition processMessage (message : Message) : M World unit :=
  match message with
  | Utf8 utf8Data =>
      data ← lift (parse JSON_parse utf8Data);
      event ← lift (get "event" data);
      match event with
      | VStr ev =>
          if String.eqb ev "connected" then
            server_log "Twilio WS: Connected event received: " [data]
          else if String.eqb ev "start" then
            server_log "Twilio WS: Start event received: " [data];;
            st ← lift (get "start" data);
            sid ← lift (get "callSid" st);
            modify (set_vs (fun v => mkVoiceStream (messageCount v) (amiVoiceConnection v) sid));;
            r ← new AMIVOICE_API_KEY;
            modify (set_vs (fun v => mkVoiceStream (messageCount v) (Some r) (callSid v)));;
            on r "transcription" OnTranscription
          else if String.eqb ev "media" then
            conn ← reads (fun w => amiVoiceConnection (vs w));
            match conn with
            | Some r =>
                media ← lift (get "media" data);
                payload ← lift (get "payload" media);
                invoke r (send base64_decode Buffer_from_other payload)
            | None => throw TypeError
            end
          else if String.eqb ev "closed" then
            server_log "Twilio WS: Close event received: " [data];;
            VoiceStream_close
          else mret tt
      | _ => mret tt
      end;;
      modify (set_vs (fun v => mkVoiceStream (S (messageCount v)) (amiVoiceConnection v) (callSid v)))
  | BinaryMessage _ =>
      server_log "Twilio WS: binary message received (not supported)" []
  end.

(** [new VoiceStream(connection)]. *)
Definition init : World :=
  mkWorld (mkVoiceStream 0 None (VStr EmptyString)) [] [] [] [] [] [] [] [].

Definition mark {A} (i : nat) (l : list (A * bool)) : list (A * bool) :=
  match l !! i with
  | Some (x, _) => <[i := (x, false)]> l
  | None => l
  end.

(** One event: [None] when it cannot occur in this world.  What is
    taken from the [websocket] package and from promises: a connect
    attempt ends once, in a connection or in a failure; messages, errors
    and the close of a connection come while it is open, and it closes
    once; a request settles once.  The callbacks of a client and of its
    connection run on the object that created the client. *)
Definition step (e : Event) (w : World) : option (Res unit * World) :=
  match e with
  | TwilioMessage message => Some (processMessage message w)
  | TwilioClose =>
      Some ((server_log "Twilio WS: Connection closed by Twillio" [];; VoiceStream_close) w)
  | ConnectFailed i error =>
      match clients w !! i with
      | Some (r, true) => Some (invoke r (on_connectFailed error) (set_clients (mark i) w))
      | _ => None
      end
  | Connect i =>
      match clients w !! i with
      | Some (r, true) =>
          let c := length (sockets w) in
          Some (invoke r (on_connect c)
                  (set_sockets (fun l => l ++ [(r, true)]) (set_clients (mark i) w)))
      | _ => None
      end
  | ProviderMessage c message =>
      match sockets w !! c with
      | Some (r, true) => Some (invoke r (on_message JSON_parse Number_toString message) w)
      | _ => None
      end
  | ProviderError c error =>
      match sockets w !! c with
      | Some (r, true) => Some (invoke r (on_error error) w)
      | _ => None
      end
  | ProviderClose c =>
      match sockets w !! c with
      | Some (r, true) => Some (invoke r on_close (set_sockets (mark c) w))
      | _ => None
      end
  | Settled i outcome =>
      match suspended w !! i with
      | Some (Some k) =>
          Some (Ret tt, run_task (k outcome) (set_suspended (fun l => <[i := None]> l) w))
      | _ => None
      end
  end.

(** A run of events.  A callback that throws leaves the world as it was
    at the throw; the loop may end there (an uncaught exception ends the
    process unless its host catches it) or go on, so a run goes on: every
    world the program can be in is the world after some run. *)
Fixpoint run (events : list Event) (w : World) : option World :=
  match events with
  | [] => Some w
  | e :: rest =>
      match step e w with
      | Some (_, w') => run rest w'
      | None => None
      end
  end.

Definition reachable (w : World) : Prop := exists events, run events init = Some w.

(** The frames written to one connection, oldest first. *)
Fixpoint frames_on (c : ConnId) (l : list (ConnId * Frame)) : list Frame :=
  match l with
  | [] => []
  | (c', f) :: rest => if Nat.eqb c c' then f :: frames_on c rest else frames_on c rest
  end.

End Server.

(** ** The vocabulary of the properties *)

(** A session is started when [isStarted] is truthy. *)
Definition Started (a : AmiVoice) : Prop := truthy (isStarted a) = true.

(** The frames of a running session: an audio frame or the close
    command. *)
Definition session_frame (f : Frame) : Prop :=
  (exists b, f = BinaryFrame (x70 :: b)) \/ f = TextFrame "e".

Definition quiet_action (a : AmiVoice) (x : Action) : Prop :=
  match x with
  | ClientConnect _ => False
  | Send c f => connection a = Some c /\ session_frame f
  | Log _ _ | Emit _ _ => True
  end.

(** A call that issues no connect, writes only session frames, only to
    the object's connection, and keeps the key, the connection and the
    listeners. *)
Record quiet_call (a a' : AmiVoice) (acts : list Action) : Prop := {
  quiet_apiKey : apiKey a' = apiKey a;
  quiet_listeners : listeners a' = listeners a;
  quiet_connection : connection a' = connection a;
  quiet_actions : Forall (quiet_action a) acts
}.

(** The part of the world the invariant speaks of. *)
Definition core (w : World)
  : VoiceStream * list AmiVoice * list (Ref * bool) * list (Ref * bool) * list (ConnId * Frame) :=
  (vs w, heap w, clients w, sockets w, wire w).

Definition sends_of (acts : list Action) : list (ConnId * Frame) :=
  flat_map (fun x => match x with Send c f => [(c, f)] | _ => [] end) acts.

Definition connects_of (r : Ref) (acts : list Action) : list (Ref * bool) :=
  flat_map (fun x => match x with ClientConnect _ => [(r, true)] | _ => [] end) acts.

(** The connect attempts a call issues. *)
Definition connect_attempts {X} (outcome : Res X * (AmiVoice * list Action)) : nat :=
  length (connects_of 0 (snd (snd outcome))).

(** The discriminators the message handler has no case for. *)
Definition ignored_codes : list string := ["S"; "E"; "C"; "U"; "G"].

(** The external requests a task issues, in order, when the promises it
    waits for settle with the given outcomes. *)
Fixpoint requests_of (t : Task) (outcomes : list (option Value)) : list ExternalCall :=
  match t with
  | Done | Rejected _ => []
  | TaskLog _ _ k => requests_of k outcomes
  | Request c k =>
      c :: match outcomes with
           | [] => []
           | outcome :: rest => requests_of (k outcome) rest
           end
  end.

(** The line [close()] logs. *)
Definition closed_line (n : nat) : string :=
  "Twilio WS: Closed. Received a total of [" +:+ pretty n +:+ "] messages".

(** The invariant of the event loop, over the session key and the five
    parts of the world it speaks of. *)
Record Inv5 (KEY : option string) (v : VoiceStream) (h : list AmiVoice) (cl so : list (Ref * bool))
    (wi : list (ConnId * Frame)) : Prop := {
  (* the reference of the VoiceStream points into the heap *)
  inv_ref : forall r, amiVoiceConnection v = Some r -> r < length h;
  (* one connect attempt per object, the i-th for the i-th *)
  inv_clients_len : length cl = length h;
  inv_clients_owner : forall i r p, cl !! i = Some (r, p) -> r = i;
  (* while its connect is pending an object is as the constructor left it *)
  inv_pending : forall i a, cl !! i = Some (i, true) -> h !! i = Some a ->
    isStarted a = None /\ connection a = None /\ isReady a = false;
  inv_pending_socket : forall i c o, cl !! i = Some (i, true) -> so !! c <> Some (i, o);
  (* the owner of a connection knows a connection *)
  inv_sockets : forall c r o, so !! c = Some (r, o) ->
    exists a c', h !! r = Some a /\ connection a = Some c';
  inv_connection : forall r a c, h !! r = Some a -> connection a = Some c -> c < length so;
  inv_started : forall r a, h !! r = Some a -> Started a -> is_Some (connection a);
  inv_key : forall r a, h !! r = Some a -> apiKey a = KEY;
  inv_listeners : forall r a, h !! r = Some a ->
    listeners a = [("transcription", OnTranscription)];
  (* every connection carries the start command first, then session frames *)
  inv_wire : forall c, c < length so ->
    exists rest, frames_on c wi = TextFrame (start_command KEY) :: rest
                 /\ Forall session_frame rest;
  inv_wire_fresh : forall c, length so <= c -> frames_on c wi = []
}.

Definition Inv (key : option string) (w : World) : Prop :=
  Inv5 key (vs w) (heap w) (clients w) (sockets w) (wire w).

(** A computation that keeps the invariant, whether it returns or throws. *)
Definition preserves (key : option string) {X} (m : M World X) : Prop :=
  forall w res w', Inv key w -> m w = (res, w') -> Inv key w'.

(** ** A reference run-time, and the worlds of the examples *)

Definition xml_attribute (name value : string) : string :=
  " " +:+ name +:+ "=" +:+ Reference.quote value.

Definition xml_verb (verb : Verb) : string :=
  match verb with
  | Say voice language message =>
      "<Say" +:+ xml_attribute "language" language +:+ xml_attribute "voice" voice +:+ ">"
      +:+ match message with VStr s => s | _ => EmptyString end
      +:+ "</Say>"
  | Pause n => "<Pause" +:+ xml_attribute "length" (pretty n) +:+ "/>"
  end.

(** [twiml.toString()], without the escaping of markup characters. *)
Definition xml_response (doc : list Verb) : string :=
  "<Response>" +:+ fold_right (fun verb s => xml_verb verb +:+ s) "</Response>" doc.

Definition ref_key : option string := Some "API-KEY".

(** [Buffer.from] refuses [undefined], [null], a boolean and a number
    with the TypeError; the examples pass no other payload than these
    and strings. *)
Definition ref_Buffer_from_other (v : Value) : option (list byte) := None.

(** The model on the reference implementations. *)
Abbreviation ref_send := (send Reference.base64_decode ref_Buffer_from_other).
Abbreviation ref_on_message :=
  (on_message Reference.JSON_parse Reference.Number_toString).
Abbreviation ref_processMessage :=
  (processMessage Reference.JSON_parse Reference.base64_decode ref_Buffer_from_other
     xml_response ref_key Reference.Number_toString).
Abbreviation ref_step :=
  (step Reference.JSON_parse Reference.base64_decode ref_Buffer_from_other xml_response
     ref_key Reference.Number_toString).
Abbreviation ref_run :=
  (run Reference.JSON_parse Reference.base64_decode ref_Buffer_from_other xml_response
     ref_key Reference.Number_toString).
Abbreviation ref_reachable :=
  (reachable Reference.JSON_parse Reference.base64_decode ref_Buffer_from_other xml_response
     ref_key Reference.Number_toString).

Definition twilio (v : Value) : Event := TwilioMessage (Utf8 (Reference.json v)).

Definition connected_event : Value := VObj [("event", VStr "connected")].
Definition start_event (sid : string) : Value :=
  VObj [("event", VStr "start"); ("start", VObj [("callSid", VStr sid)])].
Definition media_event (payload : string) : Value :=
  VObj [("event", VStr "media"); ("media", VObj [("payload", VStr payload)])].
Definition closed_event : Value := VObj [("event", VStr "closed")].

(** A provider frame [A <document>]. *)
Definition result_frame (doc : Value) : string := "A " +:+ Reference.json doc.

Definition world_after (events : list Event) : World := default init (ref_run events init).

(** The call has started and the provider has accepted the session. *)
Definition started_world : World :=
  world_after [twilio (start_event "CA123"); Connect 0; ProviderMessage 0 (Utf8 "s")].

(** The call has started and the connect to the provider has failed. *)
Definition failed_world : World :=
  world_after [twilio (start_event "CA123"); ConnectFailed 0 "Error: connect ECONNREFUSED"].

(** The provider has ended the session and then says [s] once more. *)
Definition restarted_world : World :=
  world_after [twilio (start_event "CA123"); Connect 0; ProviderMessage 0 (Utf8 "s");
               ProviderMessage 0 (Utf8 "e"); ProviderMessage 0 (Utf8 "s")].

(** The whole call of the end-to-end scenario: connected, start, media
    and closed, with the provider connecting and accepting the session in
    between. *)
Definition closed_world : World :=
  world_after [twilio connected_event; twilio (start_event "CA123"); Connect 0;
               ProviderMessage 0 (Utf8 "s"); twilio (media_event "/w==");
               twilio closed_event].

(** The call has started and the connect is still pending. *)
Definition pending_world : World := world_after [twilio (start_event "CA123")].

(** The Speech Session of [failed_world]: its only connect has failed. *)
Definition failed_session : AmiVoice :=
  mkAmiVoice ref_key false None None [("transcription", OnTranscription)].

(** The Speech Session of [started_world]. *)
Definition started_session : AmiVoice :=
  mkAmiVoice ref_key true (Some true) (Some 0) [("transcription", OnTranscription)].

(** The Speech Session of [restarted_world]: started, not ready. *)
Definition restarted_session : AmiVoice :=
  mkAmiVoice ref_key false (Some true) (Some 0) [("transcription", OnTranscription)].

(** A recognition result whose text no template literal can convert:
    [{ text: { toString: null } }]. *)
Definition unconvertible_document : Value :=
  VObj [("text", VObj [("toString", VNull)])].

(** A session that is ready and no longer started: after [close()]. *)
Definition ended_session : AmiVoice :=
  mkAmiVoice ref_key true (Some false) (Some 0) [("transcription", OnTranscription)].


(** [started_world] after one media event. *)
Definition media_world : World :=
  world_after [twilio (start_event "CA123"); Connect 0; ProviderMessage 0 (Utf8 "s");
               twilio (media_event "/w==")].

(** [started_world] after the provider has ended the session. *)
Definition ended_world : World :=
  world_after [twilio (start_event "CA123"); Connect 0; ProviderMessage 0 (Utf8 "s");
               ProviderMessage 0 (Utf8 "e")].

(** [failed_world] after a media event and a closed event. *)
Definition failed_closed_world : World :=
  world_after [twilio (start_event "CA123"); ConnectFailed 0 "Error: connect ECONNREFUSED";
               twilio (media_event "/w=="); twilio closed_event].

(** Two media frames, each with its payload. *)
Definition two_frames : list (string * string) :=
  [(Reference.json (media_event "/w=="), "/w==");
   (Reference.json (media_event "AAA="), "AAA=")].

(** ** More vocabulary: the rest of the two classes *)

(** A computation that leaves an observation of the world as it was,
    whether it returns or throws. *)
Definition leaves {A X} (f : World -> A) (m : M World X) : Prop :=
  forall w res w', m w = (res, w') -> f w' = f w.

(** What [this.messageCount++] adds for an event: one for a text frame of
    the telephony connection whose processing returned. *)
Definition counted (e : Event) (res : Res unit) : nat :=
  match e, res with
  | TwilioMessage (Utf8 _), Ret _ => 1
  | _, _ => 0
  end.

(** The event names [processMessage] has a case for. *)
Definition handled_events : list string := ["connected"; "start"; "media"; "closed"].

Definition count_message (w : World) : World :=
  set_vs (fun v => mkVoiceStream (S (messageCount v)) (amiVoiceConnection v) (callSid v)) w.

(** A text frame that parses to a media event with a string payload. *)
Definition media_frame (JSON_parse : string -> option Value) (utf8Data payload : string)
  : Prop :=
  exists data media,
    JSON_parse utf8Data = Some data
    /\ get "event" data = Ret (VStr "media")
    /\ get "media" data = Ret media
    /\ get "payload" media = Ret (VStr payload).

(** The session after a call, and the frames the call sent. *)
Definition after {X} (outcome : Res X * (AmiVoice * list Action)) : AmiVoice :=
  fst (snd outcome).
Definition sent {X} (outcome : Res X * (AmiVoice * list Action)) : list (ConnId * Frame) :=
  sends_of (snd (snd outcome)).

(** The sessions, their connect attempts and connections, and the wire. *)
Definition net (w : World)
  : list AmiVoice * list (Ref * bool) * list (Ref * bool) * list (ConnId * Frame) :=
  (heap w, clients w, sockets w, wire w).

(** The same attempts (or connections), some of them no longer pending
    (or open). *)
Definition settled (l l' : list (Ref * bool)) : Prop :=
  length l' = length l
  /\ forall i x p, l' !! i = Some (x, p) ->
       exists p0, l !! i = Some (x, p0) /\ (p = true -> p0 = true).

(** What one event can do to the sessions and to the network: nothing
    but settle attempts and connections; a quiet call on one session; a
    connect that succeeds; a new session. *)
Inductive change (w w' : World) : Prop :=
  | change_none :
      heap w' = heap w ->
      settled (clients w) (clients w') ->
      settled (sockets w) (sockets w') ->
      wire w' = wire w ->
      change w w'
  | change_quiet (r : Ref) (a a' : AmiVoice) (acts : list Action) :
      heap w !! r = Some a ->
      quiet_call a a' acts ->
      (isStarted a' = isStarted a
       \/ (exists c o, sockets w !! c = Some (r, o))
       \/ Started a) ->
      heap w' = <[r := a']> (heap w) ->
      settled (clients w) (clients w') ->
      settled (sockets w) (sockets w') ->
      wire w' = wire w ++ sends_of acts ->
      change w w'
  | change_connect (i : nat) (a : AmiVoice) :
      clients w !! i = Some (i, true) ->
      heap w !! i = Some a ->
      heap w'
      = <[i := mkAmiVoice (apiKey a) true (isStarted a) (Some (length (sockets w)))
                 (listeners a)]> (heap w) ->
      clients w' = mark i (clients w) ->
      sockets w' = sockets w ++ [(i, true)] ->
      change w w'
  | change_new (a0 : AmiVoice) :
      isStarted a0 = None ->
      connection a0 = None ->
      heap w' = heap w ++ [a0] ->
      clients w' = clients w ++ [(length (heap w), true)] ->
      sockets w' = sockets w ->
      change w w'.

(** A computation whose effect on the sessions and the network is one
    change, from every world that satisfies the invariant. *)
Definition yields (key : option string) {X} (m : M World X) : Prop :=
  forall w res w', Inv key w -> m w = (res, w') -> change w w'.

(** Every connection is the connection of its owner, whose connect
    attempt is over. *)
Definition connections_owned (w : World) : Prop :=
  forall c r o, sockets w !! c = Some (r, o) ->
    clients w !! r = Some (r, false)
    /\ exists a, heap w !! r = Some a /\ connection a = Some c.

(** A session without a connection is as its constructor left it, but
    for the ready flag. *)
Definition unconnected_pristine (w : World) : Prop :=
  forall r a, heap w !! r = Some a ->
    (forall c o, sockets w !! c <> Some (r, o)) ->
    isStarted a = None /\ connection a = None.

(** The connect attempt of session [r] is over and has given no
    connection: it has failed. *)
Definition connect_failed (r : Ref) (w : World) : Prop :=
  clients w !! r = Some (r, false) /\ forall c o, sockets w !! c <> Some (r, o).

(** A computation that keeps a property of the world, whether it
    returns or throws. *)
Definition keeps (P : World -> Prop) {X} (m : M World X) : Prop :=
  forall w res w', P w -> m w = (res, w') -> P w'.

(** The session behind [r] is not started. *)
Definition stopped (r : Ref) (w : World) : Prop :=
  exists a, heap w !! r = Some a /\ ~ Started a.

(** A frame of the provider on connection [c] whose first character is
    [s]. *)
Definition start_frame (c : ConnId) (e : Event) : Prop :=
  exists utf8Data, e = ProviderMessage c (Utf8 utf8Data) /\ charAt0 utf8Data = "s".

(** The two events on which the Call Session calls [close()]: the close
    of the telephony connection and the closed event. *)
Definition closing (JSON_parse : string -> option Value) (e : Event) : Prop :=
  e = TwilioClose
  \/ exists utf8Data data,
       e = TwilioMessage (Utf8 utf8Data)
       /\ JSON_parse utf8Data = Some data
       /\ get "event" data = Ret (VStr "closed").

(** The call has started, the provider has accepted the session, and the
    telephony connection has closed; then a media event arrives. *)
Definition hung_up_world : World :=
  world_after [twilio (start_event "CA123"); Connect 0; ProviderMessage 0 (Utf8 "s");
               TwilioClose].

Definition hung_up_media_world : World :=
  world_after [twilio (start_event "CA123"); Connect 0; ProviderMessage 0 (Utf8 "s");
               TwilioClose; twilio (media_event "/w==")].

(** [ended_world] after a media event. *)
Definition ended_media_world : World :=
  world_after [twilio (start_event "CA123"); Connect 0; ProviderMessage 0 (Utf8 "s");
               ProviderMessage 0 (Utf8 "e"); twilio (media_event "/w==")].

(** The provider has closed the connection; then a media event and a
    closed event arrive from the telephony side. *)
Definition dropped_world : World :=
  world_after [twilio (start_event "CA123"); Connect 0; ProviderMessage 0 (Utf8 "s");
               ProviderClose 0].

Definition dropped_media_world : World :=
  world_after [twilio (start_event "CA123"); Connect 0; ProviderMessage 0 (Utf8 "s");
               ProviderClose 0; twilio (media_event "/w=="); twilio closed_event].

(** * Properties *)

(** ** The reference run-time at work *)

Example parse_frame :
  Reference.JSON_parse
    (Reference.json (VObj [("event", VStr "media"); ("media", VObj [("payload", VStr "AAAA")])]))
  = Some (VObj [("event", VStr "media"); ("media", VObj [("payload", VStr "AAAA")])]).
Proof. vm_compute. reflexivity. Qed.

Example decode_hello : Reference.base64_decode "aGVsbG8=" = [x68; x65; x6c; x6c; x6f].
Proof. vm_compute. reflexivity. Qed.

(** [substring(2)] drops two code units, not two bytes.  After [A] and a
    character of two bytes (one code unit) the document is left whole;
    after [A] and a character of four bytes (a surrogate pair) the low
    surrogate is left before it.  [charAt(0)] of a string that begins
    with a character of two bytes is that character. *)
Example substring2_code_units :
  substring2 (String "A" (String "195" (String "169" "{}"))) = "{}"
  /\ substring2 (String "A" (String "240" (String "159" (String "152" (String "128" "{}")))))
     = String "237" (String "184" (String "128" "{}"))
  /\ charAt0 (String "195" (String "169" "s")) = String "195" (String "169" EmptyString).
Proof. vm_compute. auto. Qed.

(** [String(v)] on an array, on an object, and on an array that holds an
    object with a [toString] of its own. *)
Example ToString_cases :
  ToString Reference.Number_toString
    (VArr [VNum "1"; VNull; VStr "a"; VArr [VBool true; VUndefined]])
  = Ret "1,,a,true,"
  /\ ToString Reference.Number_toString (VObj [("text", VStr "a")]) = Ret "[object Object]"
  /\ ToString Reference.Number_toString (VArr [VStr "a"; VObj [("toString", VNull)]])
     = Throw TypeError.
Proof. vm_compute. auto. Qed.

(** ** The audio frame *)

Lemma copy_loop_done (buff : list byte) : forall fuel i,
  i <= length buff ->
  length buff - i < fuel ->
  copy_loop fuel i buff (x70 :: take i buff ++ replicate (length buff - i) x00)
  = x70 :: buff.
Proof.
  induction fuel as [|fuel IH]; intros i Hi Hfuel; [lia|].
  cbn [copy_loop].
  destruct (Nat.ltb_spec i (length buff)) as [Hlt|Hge].
  - destruct (lookup_lt_is_Some_2 buff i Hlt) as [b Hb].
    rewrite Hb. cbn [default from_option id Nat.add].
    change (<[S i := b]> (x70 :: ?l)) with (x70 :: <[i := b]> l).
    rewrite insert_app_r_alt by (rewrite length_take; lia).
    rewrite length_take, Nat.min_l, Nat.sub_diag by lia.
    replace (length buff - i) with (S (length buff - S i)) by lia.
    cbn [replicate]. change (<[0 := b]> (?x :: ?l)) with (b :: l).
    replace (take i buff ++ b :: replicate (length buff - S i) x00)
      with (take (S i) buff ++ replicate (length buff - S i) x00).
    + apply IH; lia.
    + rewrite (take_S_r buff i b Hb), <- app_assoc. reflexivity.
  - replace i with (length buff) by lia.
    rewrite firstn_all, Nat.sub_diag, app_nil_r. reflexivity.
Qed.

(** The frame [send] builds is the marker byte followed by the decoded
    audio. *)
Lemma audio_frame_spec (buff : list byte) : audio_frame buff = x70 :: buff.
Proof.
  unfold audio_frame, Uint8Array.
  rewrite Nat.add_1_r. cbn [replicate].
  change (<[0 := x70]> (?x :: ?l)) with (x70 :: l).
  pose proof (copy_loop_done buff (S (length buff)) 0) as H.
  rewrite take_0, Nat.sub_0_r in H. apply H; lia.
Qed.

(** ** The methods of [AmiVoice], state by state *)

Ltac run_method :=
  unfold call, mbind, M_bind, mret, M_ret, this, log, act, reads, modify, throw, lift;
  cbn.

Section AmiVoiceFacts.

Variable JSON_parse : string -> option Value.
Variable base64_decode : string -> list byte.
Variable Buffer_from_other : Value -> option (list byte).
Variable Number_toString : string -> string.

Local Abbreviation send := (send base64_decode Buffer_from_other).
Local Abbreviation on_message := (on_message JSON_parse Number_toString).

Lemma send_started (a : AmiVoice) (c : ConnId) (payload : string) :
  Started a ->
  connection a = Some c ->
  call (send (VStr payload)) a
  = (Ret tt, (a, [Send c (BinaryFrame (x70 :: base64_decode payload))])).
Proof.
  unfold Started, send, connection_send. intros Hs Hc. run_method.
  rewrite Hs. cbn. rewrite Hc. cbn. rewrite audio_frame_spec. reflexivity.
Qed.

Lemma send_not_started (a : AmiVoice) (payload : Value) :
  ~ Started a ->
  call (send payload) a = (Ret tt, (a, [])).
Proof.
  unfold Started, send. intros Hs. run_method.
  destruct (truthy (isStarted a)); [contradiction|reflexivity].
Qed.

Lemma close_started_ready (a : AmiVoice) (c : ConnId) :
  Started a ->
  isReady a = true ->
  connection a = Some c ->
  call close a
  = (Ret tt,
     (mkAmiVoice (apiKey a) (isReady a) (Some false) (connection a) (listeners a),
      [Log "AmiVoice: send close command" []; Send c (TextFrame "e")])).
Proof.
  unfold Started, close, connection_send, set_isStarted. intros Hs Hr Hc. run_method.
  rewrite Hs, Hr. cbn. rewrite Hc. cbn. rewrite Hr, Hc. reflexivity.
Qed.

Lemma close_idle (a : AmiVoice) :
  truthy (isStarted a) && isReady a = false ->
  call close a = (Ret tt, (a, [])).
Proof.
  unfold close. intros H. run_method. rewrite H. reflexivity.
Qed.

Lemma on_message_other (a : AmiVoice) (utf8Data : string) :
  charAt0 utf8Data <> "s" ->
  charAt0 utf8Data <> "A" ->
  charAt0 utf8Data <> "e" ->
  call (on_message (Utf8 utf8Data)) a = (Ret tt, (a, [])).
Proof.
  intros Hs HA He. unfold on_message.
  destruct (String.eqb_spec (charAt0 utf8Data) "s"); [contradiction|].
  destruct (String.eqb_spec (charAt0 utf8Data) "A"); [contradiction|].
  destruct (String.eqb_spec (charAt0 utf8Data) "e"); [contradiction|].
  reflexivity.
Qed.

Lemma on_message_A (a : AmiVoice) (utf8Data : string) (data text : Value) (shown : string) :
  charAt0 utf8Data = "A" ->
  JSON_parse (substring2 utf8Data) = Some data ->
  get "text" data = Ret text ->
  ToString Number_toString text = Ret shown ->
  call (on_message (Utf8 utf8Data)) a
  = (Ret tt, (a, [Log ("AmiVoice: [A] " +:+ shown) [];
                  Emit "transcription" (VObj [("body", data)])])).
Proof.
  intros HA Hp Ht Hs. unfold on_message, parse. rewrite HA. cbn [String.eqb Ascii.eqb].
  run_method. rewrite Hp, Ht, Hs. destruct a; reflexivity.
Qed.

(** A text the template literal cannot convert: the handler throws
    before it logs or emits. *)
Lemma on_message_A_throws (a : AmiVoice) (utf8Data : string) (data text : Value) (e : Error) :
  charAt0 utf8Data = "A" ->
  JSON_parse (substring2 utf8Data) = Some data ->
  get "text" data = Ret text ->
  ToString Number_toString text = Throw e ->
  call (on_message (Utf8 utf8Data)) a = (Throw e, (a, [])).
Proof.
  intros HA Hp Ht Hs. unfold on_message, parse. rewrite HA. cbn [String.eqb Ascii.eqb].
  run_method. rewrite Hp, Ht, Hs. reflexivity.
Qed.

End AmiVoiceFacts.

(** ** What a callback leaves alone *)

Lemma quiet_call_refl (a : AmiVoice) : quiet_call a a [].
Proof. split; auto. Qed.

Ltac quiet_auto :=
  split; cbn;
  repeat first [ reflexivity | assumption | apply Forall_nil | apply Forall_cons; cbn
               | split | (left; eexists; reflexivity) | (right; reflexivity) | exact I ].

Section Quiet.

Variable JSON_parse : string -> option Value.
Variable base64_decode : string -> list byte.
Variable Buffer_from_other : Value -> option (list byte).
Variable Number_toString : string -> string.

Lemma send_quiet (a : AmiVoice) (payload : Value) :
  let '(_, (a', acts)) := call (send base64_decode Buffer_from_other payload) a in
  a' = a /\ quiet_call a a' acts.
Proof.
  unfold send, connection_send. run_method.
  destruct (truthy (isStarted a)); cbn; [|split; [reflexivity|apply quiet_call_refl]].
  destruct (Buffer_from base64_decode Buffer_from_other payload) as [buff|e]; cbn;
    [|split; [reflexivity|apply quiet_call_refl]].
  destruct (connection a) as [c|] eqn:Hc; cbn; (split; [reflexivity|]).
  - rewrite audio_frame_spec. quiet_auto.
  - apply quiet_call_refl.
Qed.

Lemma close_quiet (a : AmiVoice) :
  let '(_, (a', acts)) := call close a in
  quiet_call a a' acts /\ (Started a' -> Started a) /\ (isStarted a = None -> a' = a).
Proof.
  unfold close, connection_send, set_isStarted, Started. run_method.
  destruct a as [k r [[|]|] [c|] ls]; destruct r; cbn;
    (split; [quiet_auto|split; [auto|intros; first [discriminate|reflexivity]]]).
Qed.

Lemma on_connectFailed_quiet (a : AmiVoice) (error : string) :
  let '(_, (a', acts)) := call (on_connectFailed error) a in
  quiet_call a a' acts /\ isStarted a' = isStarted a.
Proof.
  unfold on_connectFailed, set_isReady. run_method. split; [quiet_auto|reflexivity].
Qed.

Lemma on_error_quiet (a : AmiVoice) (error : string) :
  let '(_, (a', acts)) := call (on_error error) a in
  a' = a /\ quiet_call a a' acts.
Proof.
  unfold on_error. run_method. destruct a; split; [reflexivity|quiet_auto].
Qed.

Lemma on_close_quiet (a : AmiVoice) :
  let '(_, (a', acts)) := call on_close a in
  quiet_call a a' acts /\ ~ Started a'.
Proof.
  unfold on_close, set_isStarted, Started. run_method. split; [quiet_auto|discriminate].
Qed.

Lemma on_message_quiet (a : AmiVoice) (message : Message) :
  let '(_, (a', acts)) := call (on_message JSON_parse Number_toString message) a in
  quiet_call a a' acts.
Proof.
  unfold on_message. destruct message as [utf8Data|b]; [|apply quiet_call_refl].
  destruct (String.eqb (charAt0 utf8Data) "s").
  { unfold set_isStarted. run_method. quiet_auto. }
  destruct (String.eqb (charAt0 utf8Data) "A").
  { run_method. destruct (parse JSON_parse (substring2 utf8Data)) as [data|e]; cbn;
      [|apply quiet_call_refl].
    destruct (get "text" data) as [text|e]; cbn; [|apply quiet_call_refl].
    destruct (ToString Number_toString text) as [shown|e]; cbn; [|apply quiet_call_refl].
    quiet_auto. }
  destruct (String.eqb (charAt0 utf8Data) "e").
  { unfold set_isStarted, set_isReady. run_method. quiet_auto. }
  apply quiet_call_refl.
Qed.

End Quiet.

(** ** The part of the world the invariant speaks of *)

Lemma run_task_core (t : Task) : forall w, core (run_task t w) = core w.
Proof.
  induction t as [| e | message args k IH | c k IH]; intros w; cbn; try reflexivity.
  rewrite IH. reflexivity.
Qed.

Lemma frames_on_app (c : ConnId) (l1 l2 : list (ConnId * Frame)) :
  frames_on c (l1 ++ l2) = frames_on c l1 ++ frames_on c l2.
Proof.
  induction l1 as [|[c' f] l1 IH]; cbn; [reflexivity|].
  destruct (Nat.eqb c c'); cbn; rewrite IH; reflexivity.
Qed.

Lemma quiet_no_connects (a : AmiVoice) (r : Ref) (acts : list Action) :
  Forall (quiet_action a) acts -> connects_of r acts = [].
Proof.
  induction 1 as [|x acts Hx _ IH]; cbn; [reflexivity|].
  destruct x; cbn in *; [contradiction|assumption..].
Qed.

Lemma quiet_frames (a : AmiVoice) (c : ConnId) (acts : list Action) :
  Forall (quiet_action a) acts ->
  Forall session_frame (frames_on c (sends_of acts))
  /\ (connection a <> Some c -> frames_on c (sends_of acts) = []).
Proof.
  induction 1 as [|x acts Hx _ [IH1 IH2]]; cbn; [split; [constructor|reflexivity]|].
  destruct x as [url|c' f|m args|ev p]; cbn in *; try (split; assumption).
  destruct Hx as [Hc Hf]. destruct (Nat.eqb_spec c c') as [->|Hne].
  - split; [constructor; assumption|congruence].
  - split; assumption.
Qed.

Lemma mark_length {A} (i : nat) (l : list (A * bool)) : length (mark i l) = length l.
Proof.
  unfold mark. destruct (l !! i) as [[x b]|]; [apply length_insert|reflexivity].
Qed.

Lemma mark_lookup {A} (i j : nat) (l : list (A * bool)) (x : A) (p : bool) :
  mark i l !! j = Some (x, p) ->
  exists p0, l !! j = Some (x, p0) /\ (p = true -> p0 = true /\ j <> i).
Proof.
  unfold mark. destruct (l !! i) as [[y b]|] eqn:Hi.
  - destruct (decide (i = j)) as [->|Hne].
    + rewrite list_lookup_insert_eq by (eapply lookup_lt_Some; eassumption).
      intros [= <- <-]. exists b. split; [assumption|discriminate].
    + rewrite list_lookup_insert_ne by assumption.
      intros H. exists p. split; [assumption|]. intros Hp. split; [exact Hp|congruence].
  - intros H. exists p. split; [assumption|].
    intros Hp. split; [exact Hp|]. intros ->. congruence.
Qed.

Lemma insert_snoc {A} (l : list A) (x y : A) : <[length l := y]> (l ++ [x]) = l ++ [y].
Proof.
  rewrite insert_app_r_alt by lia. rewrite Nat.sub_diag. reflexivity.
Qed.

Lemma lookup_snoc_Some {A} (l : list A) (x y : A) (i : nat) :
  (l ++ [x]) !! i = Some y -> l !! i = Some y \/ (i = length l /\ y = x).
Proof.
  intros H. apply lookup_app_Some in H as [H|[Hle H]]; [left; assumption|right].
  destruct (i - length l) as [|n] eqn:Hn; cbn in H; [|destruct n; discriminate].
  injection H as <-. split; [lia|reflexivity].
Qed.

Lemma lookup_insert_cases {A} (l : list A) (r r0 : nat) (x y : A) :
  <[r := x]> l !! r0 = Some y ->
  (r0 = r /\ y = x) \/ (r0 <> r /\ l !! r0 = Some y).
Proof.
  intros H. destruct (decide (r = r0)) as [->|Hne].
  - left. split; [reflexivity|].
    rewrite list_lookup_insert_eq in H; [congruence|].
    apply lookup_lt_Some in H. rewrite length_insert in H. exact H.
  - right. rewrite list_lookup_insert_ne in H by assumption. split; [congruence|assumption].
Qed.

(** ** The invariant of the event loop *)

Section Invariant.

Variable KEY : option string.

Lemma Inv5_init : Inv5 KEY (mkVoiceStream 0 None (VStr EmptyString)) [] [] [] [].
Proof.
  split; cbn; try (intros; discriminate); try reflexivity; intros; try lia.
Qed.

Lemma Inv5_vs v v' h cl so wi :
  amiVoiceConnection v' = amiVoiceConnection v ->
  Inv5 KEY v h cl so wi -> Inv5 KEY v' h cl so wi.
Proof.
  intros Hv []. split; try assumption. rewrite Hv. assumption.
Qed.

Lemma Inv5_mark_client v h cl so wi i :
  Inv5 KEY v h cl so wi -> Inv5 KEY v h (mark i cl) so wi.
Proof.
  intros []. split; try assumption.
  - rewrite mark_length. assumption.
  - intros j r p H. apply mark_lookup in H as (p0 & H & _). eauto.
  - intros j a H. apply mark_lookup in H as (p0 & H & Hp).
    destruct (Hp eq_refl) as [-> _]. eauto.
  - intros j c o H. apply mark_lookup in H as (p0 & H & Hp).
    destruct (Hp eq_refl) as [-> _]. eauto.
Qed.

Lemma Inv5_mark_socket v h cl so wi c :
  Inv5 KEY v h cl so wi -> Inv5 KEY v h cl (mark c so) wi.
Proof.
  intros []. split; try assumption; try (rewrite mark_length; assumption).
  - intros i c0 o Hi H. apply mark_lookup in H as (p0 & H & _).
    eapply inv_pending_socket0; eassumption.
  - intros c0 r o H. apply mark_lookup in H as (p0 & H & _). eauto.
Qed.

Lemma Inv5_quiet v h cl so wi r a a' acts :
  Inv5 KEY v h cl so wi ->
  h !! r = Some a ->
  quiet_call a a' acts ->
  (Started a' -> Started a \/ is_Some (connection a)) ->
  (cl !! r = Some (r, true) -> a' = a) ->
  Inv5 KEY v (<[r := a']> h) cl so (wi ++ sends_of acts).
Proof.
  intros [] Ha [Hk Hl Hc Hacts] Hstarted Hpending. split; try assumption.
  - rewrite length_insert. assumption.
  - rewrite length_insert. assumption.
  - intros i a0 Hi H. apply lookup_insert_cases in H as [[-> ->]|[_ H]]; [|eauto].
    rewrite (Hpending Hi). eauto.
  - intros c r0 o H. destruct (inv_sockets0 _ _ _ H) as (a0 & c' & H0 & Hc').
    destruct (decide (r0 = r)) as [->|Hne].
    + exists a', c'. split.
      * apply list_lookup_insert_eq. eapply lookup_lt_Some; eassumption.
      * rewrite Hc. congruence.
    + exists a0, c'. rewrite list_lookup_insert_ne by congruence. auto.
  - intros r0 a0 c H Hc0. apply lookup_insert_cases in H as [[-> ->]|[_ H]]; [|eauto].
    rewrite Hc in Hc0. eauto.
  - intros r0 a0 H Hs. apply lookup_insert_cases in H as [[-> ->]|[_ H]]; [|eauto].
    rewrite Hc. destruct (Hstarted Hs); eauto.
  - intros r0 a0 H. apply lookup_insert_cases in H as [[-> ->]|[_ H]]; [|eauto].
    rewrite Hk. eauto.
  - intros r0 a0 H. apply lookup_insert_cases in H as [[-> ->]|[_ H]]; [|eauto].
    rewrite Hl. eauto.
  - intros c Hlt. destruct (inv_wire0 c Hlt) as (rest & Hrest & Hall).
    exists (rest ++ frames_on c (sends_of acts)). rewrite frames_on_app, Hrest. split.
    + reflexivity.
    + apply Forall_app. split; [assumption|]. eapply quiet_frames; eassumption.
  - intros c Hge. rewrite frames_on_app, (inv_wire_fresh0 c Hge). cbn.
    eapply quiet_frames; [eassumption|]. intros Hcc.
    specialize (inv_connection0 _ _ _ Ha Hcc). lia.
Qed.

Lemma Inv5_connect v h cl so wi i a :
  Inv5 KEY v h cl so wi ->
  cl !! i = Some (i, true) ->
  h !! i = Some a ->
  Inv5 KEY v
    (<[i := mkAmiVoice (apiKey a) true (isStarted a) (Some (length so)) (listeners a)]> h)
    (mark i cl) (so ++ [(i, true)])
    (wi ++ [(length so, TextFrame (start_command KEY))]).
Proof.
  intros [] Hi Ha. split.
  - rewrite length_insert. assumption.
  - rewrite mark_length, length_insert. assumption.
  - intros j r p H. apply mark_lookup in H as (p0 & H & _). eauto.
  - intros j a0 H Hj. apply mark_lookup in H as (p0 & H & Hp).
    destruct (Hp eq_refl) as [-> Hne].
    rewrite list_lookup_insert_ne in Hj by congruence. eauto.
  - intros j c o H Hc. apply mark_lookup in H as (p0 & H & Hp).
    destruct (Hp eq_refl) as [-> Hne].
    apply lookup_snoc_Some in Hc as [Hc|[_ Hc]].
    + eapply inv_pending_socket0; eassumption.
    + congruence.
  - intros c r o H.
    assert (Hr : exists a0 c', h !! r = Some a0 /\
              (r = i \/ connection a0 = Some c')) .
    { apply lookup_snoc_Some in H as [H|[_ H]].
      - destruct (inv_sockets0 _ _ _ H) as (a0 & c' & ? & ?). eauto 6.
      - injection H as -> _. exists a, 0. auto. }
    destruct Hr as (a0 & c' & H0 & Hor).
    destruct (decide (r = i)) as [->|Hne].
    + eexists _, (length so).
      split; [apply list_lookup_insert_eq; eapply lookup_lt_Some; eassumption|reflexivity].
    + destruct Hor as [|Hc']; [contradiction|].
      exists a0, c'. rewrite list_lookup_insert_ne by congruence. auto.
  - intros r a0 c H Hc. rewrite length_app. cbn.
    apply lookup_insert_cases in H as [[-> ->]|[_ H]].
    + cbn in Hc. injection Hc as <-. lia.
    + specialize (inv_connection0 _ _ _ H Hc). lia.
  - intros r a0 H Hs. apply lookup_insert_cases in H as [[-> ->]|[_ H]]; [|eauto].
    cbn. eauto.
  - intros r a0 H. apply lookup_insert_cases in H as [[-> ->]|[_ H]]; [|eauto].
    cbn. eauto.
  - intros r a0 H. apply lookup_insert_cases in H as [[-> ->]|[_ H]]; [|eauto].
    cbn. eauto.
  - intros c Hlt. rewrite length_app in Hlt. cbn in Hlt.
    rewrite frames_on_app. cbn.
    destruct (Nat.eqb_spec c (length so)) as [->|Hne].
    + rewrite inv_wire_fresh0 by lia. exists []. split; [reflexivity|constructor].
    + destruct (inv_wire0 c) as (rest & Hrest & Hall); [lia|].
      exists rest. rewrite Hrest, app_nil_r. auto.
  - intros c Hge. rewrite length_app in Hge. cbn in Hge.
    rewrite frames_on_app. cbn.
    destruct (Nat.eqb_spec c (length so)) as [->|Hne]; [lia|].
    rewrite inv_wire_fresh0 by lia. reflexivity.
Qed.

Lemma Inv5_new v v' h cl so wi :
  Inv5 KEY v h cl so wi ->
  amiVoiceConnection v' = Some (length h) ->
  Inv5 KEY v'
    (h ++ [mkAmiVoice KEY false None None [("transcription", OnTranscription)]])
    (cl ++ [(length h, true)]) so wi.
Proof.
  intros [] Hv. split; try assumption.
  - intros r. rewrite Hv, length_app. intros [= <-]. cbn. lia.
  - rewrite !length_app. cbn. lia.
  - intros i r p H. apply lookup_snoc_Some in H as [H|[-> H]]; [eauto|].
    injection H as -> _. auto.
  - intros i a H Hi. apply lookup_snoc_Some in Hi as [Hi|[-> ->]]; [|cbn; auto].
    apply lookup_snoc_Some in H as [H|[-> _]]; [eauto|].
    apply lookup_lt_Some in Hi. lia.
  - intros i c o H Hc. destruct (inv_sockets0 _ _ _ Hc) as (a0 & c' & H0 & _).
    apply lookup_lt_Some in H0.
    apply lookup_snoc_Some in H as [H|[-> _]]; [|lia].
    eapply inv_pending_socket0; eassumption.
  - intros c r o H. destruct (inv_sockets0 _ _ _ H) as (a0 & c' & H0 & Hc').
    exists a0, c'. split; [|assumption]. apply lookup_app_l_Some. assumption.
  - intros r a c H Hc. apply lookup_snoc_Some in H as [H|[_ ->]]; [eauto|discriminate].
  - intros r a H Hs. apply lookup_snoc_Some in H as [H|[_ ->]]; [eauto|discriminate].
  - intros r a H. apply lookup_snoc_Some in H as [H|[_ ->]]; [eauto|reflexivity].
  - intros r a H. apply lookup_snoc_Some in H as [H|[_ ->]]; [eauto|reflexivity].
Qed.

End Invariant.

(** ** The event loop keeps the invariant *)

Ltac run_server :=
  unfold mbind, M_bind, mret, M_ret, server_log, reads, modify, throw, lift;
  cbn.

Section Loop.

Variable JSON_parse : string -> option Value.
Variable base64_decode : string -> list byte.
Variable Buffer_from_other : Value -> option (list byte).
Variable VoiceResponse_toString : list Verb -> string.
Variable AMIVOICE_API_KEY : option string.
Variable Number_toString : string -> string.

Local Abbreviation perform := (perform VoiceResponse_toString Number_toString).
Local Abbreviation invoke := (invoke VoiceResponse_toString Number_toString).
Local Abbreviation VoiceStream_close :=
  (VoiceStream_close VoiceResponse_toString Number_toString).
Local Abbreviation processMessage :=
  (processMessage JSON_parse base64_decode Buffer_from_other VoiceResponse_toString
     AMIVOICE_API_KEY Number_toString).
Local Abbreviation step :=
  (step JSON_parse base64_decode Buffer_from_other VoiceResponse_toString AMIVOICE_API_KEY
     Number_toString).
Local Abbreviation run :=
  (run JSON_parse base64_decode Buffer_from_other VoiceResponse_toString AMIVOICE_API_KEY
     Number_toString).
Local Abbreviation reachable :=
  (reachable JSON_parse base64_decode Buffer_from_other VoiceResponse_toString
     AMIVOICE_API_KEY Number_toString).
Local Abbreviation Inv := (Inv AMIVOICE_API_KEY).
Local Abbreviation preserves := (preserves AMIVOICE_API_KEY).

Lemma Inv_core (w w' : World) : core w' = core w -> Inv w -> Inv w'.
Proof.
  unfold core, Inv. intros [= -> -> -> -> ->]. auto.
Qed.

Lemma listeners_core (payload : Value) (event : string) (ls : list (string * Listener)) :
  forall w,
  core (fold_left
          (fun w l =>
             if String.eqb (fst l) event
             then call_listener VoiceResponse_toString Number_toString (snd l) payload w else w)
          ls w)
  = core w.
Proof.
  induction ls as [|[name l] ls IH]; intros w; cbn; [reflexivity|].
  rewrite IH. destruct (String.eqb name event); [|reflexivity].
  destruct l. cbn. apply run_task_core.
Qed.

Lemma perform_core (r : Ref) (w : World) (x : Action) :
  core (perform r w x)
  = (vs w, heap w, clients w ++ connects_of r [x], sockets w, wire w ++ sends_of [x]).
Proof.
  unfold core. destruct x as [url|c f|m args|ev p]; cbn; rewrite ?app_nil_r; try reflexivity.
  destruct (heap w !! r) as [a|]; [|reflexivity].
  apply (listeners_core p ev (listeners a) w).
Qed.

Lemma perform_all_core (r : Ref) (acts : list Action) : forall w,
  core (fold_left (perform r) acts w)
  = (vs w, heap w, clients w ++ connects_of r acts, sockets w, wire w ++ sends_of acts).
Proof.
  induction acts as [|x acts IH]; intros w; cbn -[perform].
  - unfold core. rewrite !app_nil_r. reflexivity.
  - rewrite IH. pose proof (perform_core r w x) as H. unfold core in H.
    injection H as -> -> -> -> ->. cbn. rewrite app_nil_r, <- !app_assoc. reflexivity.
Qed.

Lemma invoke_eq {X} (r : Ref) (m : Method X) (w : World) (a a' : AmiVoice)
    (res : Res X) (acts : list Action) :
  heap w !! r = Some a ->
  call m a = (res, (a', acts)) ->
  invoke r m w = (res, fold_left (perform r) acts (set_heap (fun h => <[r := a']> h) w)).
Proof.
  intros Ha Hcall. unfold invoke. rewrite Ha, Hcall. reflexivity.
Qed.

Lemma invoke_inv {X} (r : Ref) (m : Method X) (w w' : World) (res : Res X) :
  Inv w ->
  invoke r m w = (res, w') ->
  (forall a res a' acts,
     heap w !! r = Some a ->
     call m a = (res, (a', acts)) ->
     quiet_call a a' acts
     /\ (Started a' -> Started a \/ is_Some (connection a))
     /\ (clients w !! r = Some (r, true) -> a' = a)) ->
  Inv w'.
Proof.
  intros HI Hinv Hm. unfold invoke in Hinv.
  destruct (heap w !! r) as [a|] eqn:Ha; [|injection Hinv as _ <-; exact HI].
  destruct (call m a) as [res0 [a' acts]] eqn:Hcall.
  injection Hinv as _ <-.
  destruct (Hm _ _ _ _ eq_refl Hcall) as (Hq & Hs & Hp).
  pose proof (perform_all_core r acts (set_heap (fun h => <[r := a']> h) w)) as Hc.
  unfold core in Hc. cbn in Hc. unfold Inv.
  injection Hc as -> -> -> -> ->.
  rewrite (quiet_no_connects a r acts (quiet_actions _ _ _ Hq)), app_nil_r.
  apply Inv5_quiet with (a := a); assumption.
Qed.

Lemma preserves_bind {X Y} (m : M World X) (f : X -> M World Y) :
  preserves m -> (forall x, preserves (f x)) -> preserves (m ≫= f).
Proof.
  intros Hm Hf w res w' HI. unfold mbind, M_bind.
  destruct (m w) as [[x|e] s] eqn:Hmw.
  - intros H. eapply Hf; [|exact H]. eapply Hm; eassumption.
  - intros [= _ <-]. eapply Hm; eassumption.
Qed.

Lemma preserves_pure {X} (m : M World X) :
  (forall w, core (snd (m w)) = core w) -> preserves m.
Proof.
  intros Hm w res w' HI H. apply (Inv_core w); [|assumption].
  rewrite <- (Hm w), H. reflexivity.
Qed.

Lemma preserves_lift {X} (r : Res X) : preserves (lift r).
Proof. apply preserves_pure. reflexivity. Qed.

Lemma preserves_ret {X} (x : X) : preserves (mret x).
Proof. apply preserves_pure. reflexivity. Qed.

Lemma preserves_throw {X} (e : Error) : preserves (@throw World X e).
Proof. apply preserves_pure. reflexivity. Qed.

Lemma preserves_reads {X} (f : World -> X) : preserves (reads f).
Proof. apply preserves_pure. reflexivity. Qed.

Lemma preserves_log (message : string) (args : list Value) :
  preserves (server_log message args).
Proof. apply preserves_pure. reflexivity. Qed.

Lemma preserves_set_vs (f : VoiceStream -> VoiceStream) :
  (forall v, amiVoiceConnection (f v) = amiVoiceConnection v) ->
  preserves (modify (set_vs f)).
Proof.
  intros Hf w res w' HI [= _ <-]. unfold Inv in *. cbn.
  eapply Inv5_vs; [apply Hf|assumption].
Qed.

Lemma preserves_send (r : Ref) (payload : Value) :
  preserves (invoke r (send base64_decode Buffer_from_other payload)).
Proof.
  intros w res w' HI H. eapply invoke_inv; [exact HI|exact H|].
  intros a res0 a' acts Ha Hcall.
  pose proof (send_quiet base64_decode Buffer_from_other a payload) as Hq.
  rewrite Hcall in Hq. destruct Hq as [-> Hq]. auto.
Qed.

Lemma preserves_close (r : Ref) : preserves (invoke r close).
Proof.
  intros w res w' HI H. eapply invoke_inv; [exact HI|exact H|].
  intros a res0 a' acts Ha Hcall.
  pose proof (close_quiet a) as Hq.
  rewrite Hcall in Hq. destruct Hq as (Hq & Hs & Hn).
  split; [assumption|]. split; [auto|].
  intros Hp. apply Hn. eapply inv_pending; eassumption.
Qed.

Lemma preserves_VoiceStream_close : preserves VoiceStream_close.
Proof.
  unfold VoiceStream_close.
  apply preserves_bind; [apply preserves_reads|intros n].
  apply preserves_bind; [apply preserves_log|intros _].
  apply preserves_bind; [apply preserves_reads|intros [r|]].
  - apply preserves_close.
  - apply preserves_throw.
Qed.

(** The start case from [new AmiVoice(...)] on: the object is created
    with one pending connect, referenced, and given its listener. *)
Lemma start_objects (w : World) :
  (r ← new VoiceResponse_toString Number_toString AMIVOICE_API_KEY;
   modify (set_vs (fun v => mkVoiceStream (messageCount v) (Some r) (callSid v)));;
   on r "transcription" OnTranscription) w
  = (Ret tt,
     mkWorld
       (mkVoiceStream (messageCount (vs w)) (Some (length (heap w))) (callSid (vs w)))
       (heap w ++ [mkAmiVoice AMIVOICE_API_KEY false None None
                     [("transcription", OnTranscription)]])
       (clients w ++ [(length (heap w), true)])
       (sockets w) (wire w) (console w) (requests w) (suspended w) (unhandled w)).
Proof.
  unfold new, on, new_AmiVoice, connect. run_server. run_method.
  unfold set_heap, set_vs, set_clients. cbn.
  rewrite list_lookup_middle by reflexivity. rewrite insert_snoc. reflexivity.
Qed.

Lemma preserves_start_objects :
  preserves
    (r ← new VoiceResponse_toString Number_toString AMIVOICE_API_KEY;
     modify (set_vs (fun v => mkVoiceStream (messageCount v) (Some r) (callSid v)));;
     on r "transcription" OnTranscription).
Proof.
  intros w res w' HI. rewrite start_objects. intros [= _ <-].
  unfold Inv in *. cbn. apply Inv5_new with (v := vs w); [assumption|reflexivity].
Qed.

Lemma preserves_processMessage (message : Message) : preserves (processMessage message).
Proof.
  unfold processMessage. destruct message as [utf8Data|b]; [|apply preserves_log].
  apply preserves_bind; [apply preserves_lift|intros data].
  apply preserves_bind; [apply preserves_lift|intros event].
  apply preserves_bind; [|intros _; apply preserves_set_vs; reflexivity].
  destruct event as [| | | |ev| |]; try apply preserves_ret.
  destruct (String.eqb ev "connected"); [apply preserves_log|].
  destruct (String.eqb ev "start").
  { apply preserves_bind; [apply preserves_log|intros _].
    apply preserves_bind; [apply preserves_lift|intros st].
    apply preserves_bind; [apply preserves_lift|intros sid].
    apply preserves_bind; [apply preserves_set_vs; reflexivity|intros _].
    apply preserves_start_objects. }
  destruct (String.eqb ev "media").
  { apply preserves_bind; [apply preserves_reads|intros [r|]]; [|apply preserves_throw].
    apply preserves_bind; [apply preserves_lift|intros media].
    apply preserves_bind; [apply preserves_lift|intros payload].
    apply preserves_send. }
  destruct (String.eqb ev "closed"); [|apply preserves_ret].
  apply preserves_bind; [apply preserves_log|intros _].
  apply preserves_VoiceStream_close.
Qed.

Lemma on_connect_fresh (a : AmiVoice) (c : ConnId) :
  isStarted a = None ->
  call (on_connect c) a
  = (Ret tt,
     (mkAmiVoice (apiKey a) true (isStarted a) (Some c) (listeners a),
      [Log "AmiVoice: websocket client connected" [];
       Send c (TextFrame (start_command (apiKey a)))])).
Proof.
  intros Hs. unfold on_connect, start, connection_send, set_connection, set_isReady.
  run_method. rewrite Hs. reflexivity.
Qed.

Lemma step_inv (e : Event) (w w' : World) (res : Res unit) :
  Inv w -> step e w = Some (res, w') -> Inv w'.
Proof.
  intros HI. destruct e as [message| |i error|i|c message|c error|c|i outcome]; cbn.
  - intros [= H]. eapply preserves_processMessage; eassumption.
  - intros [= H]. revert H.
    apply (preserves_bind (server_log _ _) (fun _ => VoiceStream_close));
      [apply preserves_log|intros _; apply preserves_VoiceStream_close|exact HI].
  - destruct (clients w !! i) as [[r [|]]|] eqn:Hi; try discriminate.
    intros [= H]. assert (r = i) as -> by (eapply inv_clients_owner; eassumption).
    eapply invoke_inv; [|exact H|].
    + unfold Inv in *. cbn. apply Inv5_mark_client. exact HI.
    + cbn. intros a res0 a' acts Ha Hcall.
      pose proof (on_connectFailed_quiet a error) as Hq. rewrite Hcall in Hq.
      destruct Hq as [Hq Hs]. split; [assumption|]. split.
      * unfold Started. rewrite Hs. auto.
      * intros Hm. apply mark_lookup in Hm as (p0 & _ & Hp).
        destruct (Hp eq_refl) as [_ Hne]. congruence.
  - destruct (clients w !! i) as [[r [|]]|] eqn:Hi; try discriminate.
    assert (r = i) as -> by (eapply inv_clients_owner; eassumption).
    unfold invoke. cbn.
    destruct (heap w !! i) as [a|] eqn:Ha; [|intros [= _ <-]].
    + destruct (inv_pending _ _ _ _ _ _ HI i a Hi Ha) as (Hs & _ & _).
      rewrite (on_connect_fresh a (length (sockets w)) Hs).
      intros [= _ <-]. unfold Inv in *. cbn.
      replace (start_command (apiKey a)) with (start_command AMIVOICE_API_KEY)
        by (f_equal; symmetry; eapply inv_key; eassumption).
      apply Inv5_connect; assumption.
    + apply lookup_ge_None in Ha. apply lookup_lt_Some in Hi.
      rewrite (inv_clients_len _ _ _ _ _ _ HI) in Hi. lia.
  - destruct (sockets w !! c) as [[r [|]]|] eqn:Hc; try discriminate.
    intros [= H]. eapply invoke_inv; [exact HI|exact H|].
    intros a res0 a' acts Ha Hcall.
    pose proof (on_message_quiet JSON_parse Number_toString a message) as Hq. rewrite Hcall in Hq.
    split; [assumption|]. split.
    * intros _. right.
      destruct (inv_sockets _ _ _ _ _ _ HI c r true Hc) as (a0 & c' & Ha0 & Hc').
      rewrite Ha in Ha0. injection Ha0 as <-. eauto.
    * intros Hp. exfalso. eapply inv_pending_socket; eassumption.
  - destruct (sockets w !! c) as [[r [|]]|] eqn:Hc; try discriminate.
    intros [= H]. eapply invoke_inv; [exact HI|exact H|].
    intros a res0 a' acts Ha Hcall.
    pose proof (on_error_quiet a error) as Hq. rewrite Hcall in Hq.
    destruct Hq as [-> Hq]. auto.
  - destruct (sockets w !! c) as [[r [|]]|] eqn:Hc; try discriminate.
    intros [= H]. eapply invoke_inv; [|exact H|].
    + unfold Inv in *. cbn. apply Inv5_mark_socket. exact HI.
    + cbn. intros a res0 a' acts Ha Hcall.
      pose proof (on_close_quiet a) as Hq. rewrite Hcall in Hq.
      destruct Hq as [Hq Hs]. split; [assumption|]. split; [contradiction|].
      intros Hp. exfalso. eapply inv_pending_socket; eassumption.
  - destruct (suspended w !! i) as [[k|]|]; try discriminate.
    intros [= _ <-]. apply (Inv_core w); [|assumption].
    rewrite run_task_core. reflexivity.
Qed.

Lemma run_inv (events : list Event) : forall w w',
  Inv w -> run events w = Some w' -> Inv w'.
Proof.
  induction events as [|e events IH]; intros w w' HI; cbn -[step].
  - intros [= <-]. exact HI.
  - destruct (step e w) as [[res w1]|] eqn:He; try discriminate.
    intros H. eapply IH; [|exact H]. eapply step_inv; eassumption.
Qed.

Lemma reachable_inv (w : World) : reachable w -> Inv w.
Proof.
  intros [events H]. eapply run_inv; [|exact H]. apply Inv5_init.
Qed.

End Loop.

Lemma world_after_reachable (events : list Event) (w : World) :
  ref_run events init = Some w -> ref_reachable (world_after events).
Proof.
  intros H. exists events. unfold world_after. fold ref_run. rewrite H. reflexivity.
Qed.

(** The end-to-end scenario gives one connect, one start command, one
    audio frame and one close command, in that order, and four messages
    counted. *)
Example end_to_end :
  wire closed_world = [(0, TextFrame "s mulaw -a-general authorization=API-KEY");
                       (0, BinaryFrame [x70; xff]);
                       (0, TextFrame "e")]
  /\ clients closed_world = [(0, false)]
  /\ messageCount (vs closed_world) = 4.
Proof. vm_compute. auto. Qed.

(** * The claims *)

Section Claims.

Variable JSON_parse : string -> option Value.
Variable base64_decode : string -> list byte.
Variable Buffer_from_other : Value -> option (list byte).
Variable VoiceResponse_toString : list Verb -> string.
Variable AMIVOICE_API_KEY : option string.
Variable Number_toString : string -> string.

Local Abbreviation send := (send base64_decode Buffer_from_other).
Local Abbreviation on_message := (on_message JSON_parse Number_toString).
Local Abbreviation invoke := (invoke VoiceResponse_toString Number_toString).
Local Abbreviation VoiceStream_close :=
  (VoiceStream_close VoiceResponse_toString Number_toString).
Local Abbreviation processMessage :=
  (processMessage JSON_parse base64_decode Buffer_from_other VoiceResponse_toString
     AMIVOICE_API_KEY Number_toString).
Local Abbreviation step :=
  (step JSON_parse base64_decode Buffer_from_other VoiceResponse_toString AMIVOICE_API_KEY
     Number_toString).
Local Abbreviation reachable :=
  (reachable JSON_parse base64_decode Buffer_from_other VoiceResponse_toString
     AMIVOICE_API_KEY Number_toString).
Local Abbreviation Inv := (Inv AMIVOICE_API_KEY).

(** C1.  A media event processed while no Speech Session exists
    ([amiVoiceConnection] is still [null]) writes nothing to any provider
    connection, as the claim says, but it does not complete: the call of
    [send] on [null] throws a TypeError out of [processMessage], before
    the message is counted.  The world is left exactly as it was. *)
Theorem media_before_start_throws (w : World) (utf8Data : string) (data : Value) :
  JSON_parse utf8Data = Some data ->
  get "event" data = Ret (VStr "media") ->
  amiVoiceConnection (vs w) = None ->
  processMessage (Utf8 utf8Data) w = (Throw TypeError, w).
Proof.
  intros Hparse Hevent Hnull. unfold processMessage, parse. run_server.
  rewrite Hparse. cbn. rewrite Hevent. cbn. rewrite Hnull. reflexivity.
Qed.

(** C2.  [close()] on a Call Session that never received a start event
    logs the message count and then throws a TypeError: it calls
    [close] on the [null] in [amiVoiceConnection]. *)
Theorem close_without_start_throws (w : World) :
  amiVoiceConnection (vs w) = None ->
  VoiceStream_close w
  = (Throw TypeError, add_console (closed_line (messageCount (vs w))) [] w).
Proof.
  intros Hnull. unfold VoiceStream_close. run_server. rewrite Hnull. reflexivity.
Qed.

(** With a Speech Session, [close()] logs the message count and closes
    the session. *)
Lemma close_with_session (w : World) (r : Ref) :
  amiVoiceConnection (vs w) = Some r ->
  VoiceStream_close w
  = invoke r close (add_console (closed_line (messageCount (vs w))) [] w).
Proof.
  intros Href. unfold VoiceStream_close. run_server. rewrite Href. reflexivity.
Qed.

(** Both ways into [close()] throw on a fresh Call Session: the transport
    close and the closed event. *)
Lemma close_paths_throw (utf8Data : string) (data : Value) :
  JSON_parse utf8Data = Some data ->
  get "event" data = Ret (VStr "closed") ->
  (exists w, step TwilioClose init = Some (Throw TypeError, w))
  /\ (exists w, step (TwilioMessage (Utf8 utf8Data)) init = Some (Throw TypeError, w)).
Proof.
  intros Hparse Hevent. split; eexists; cbn.
  - unfold VoiceStream_close. run_server. reflexivity.
  - unfold processMessage, VoiceStream_close, parse. run_server.
    rewrite Hparse. cbn. rewrite Hevent. cbn. reflexivity.
Qed.

(** C3 (amended).  Neither [send] nor [close] ever issues a connect
    attempt, whatever the state of the session; the constructor issues
    one; and in every world the event loop can reach there is exactly one
    connect attempt per Speech Session, the i-th attempt belonging to the
    i-th session: nothing retries, at any time. *)
Theorem one_connect_attempt_per_session (w : World) :
  reachable w ->
  (length (clients w) = length (heap w)
   /\ forall i r p, clients w !! i = Some (r, p) -> r = i)
  /\ (forall key, connect_attempts (new_AmiVoice key) = 1)
  /\ (forall a payload, connect_attempts (call (send payload) a) = 0)
  /\ (forall a, connect_attempts (call close a) = 0).
Proof.
  intros Hreach. apply reachable_inv in Hreach. split; [|split; [|split]].
  - split; [eapply inv_clients_len|eapply inv_clients_owner]; exact Hreach.
  - reflexivity.
  - intros a payload. unfold connect_attempts.
    pose proof (send_quiet base64_decode Buffer_from_other a payload) as Hq.
    destruct (call (send payload) a) as [res [a' acts]]. destruct Hq as [_ Hq]. cbn [snd].
    rewrite (quiet_no_connects a 0 acts (quiet_actions _ _ _ Hq)). reflexivity.
  - intros a. unfold connect_attempts. pose proof (close_quiet a) as Hq.
    destruct (call close a) as [res [a' acts]]. destruct Hq as [Hq _]. cbn [snd].
    rewrite (quiet_no_connects a 0 acts (quiet_actions _ _ _ Hq)). reflexivity.
Qed.

(** C4.  In every world the event loop can reach, [send(payload)] on a
    Speech Session that is started returns normally and performs exactly
    one action: one binary frame written to the session's connection,
    whose first byte is 0x70 and whose remaining bytes are the base64
    decoding of the payload. *)
Theorem send_while_started (w : World) (r : Ref) (a : AmiVoice) (payload : string) :
  reachable w ->
  heap w !! r = Some a ->
  Started a ->
  exists c,
    connection a = Some c
    /\ call (send (VStr payload)) a
       = (Ret tt, (a, [Send c (BinaryFrame (x70 :: base64_decode payload))])).
Proof.
  intros Hreach Ha Hs. apply reachable_inv in Hreach.
  destruct (inv_started _ _ _ _ _ _ Hreach r a Ha Hs) as [c Hc].
  exists c. split; [exact Hc|]. apply send_started; assumption.
Qed.

(** C5 (amended).  On a Speech Session that is not started, [send]
    performs no action at all, for every payload value: no write, no
    change of state, no error.  In every world the event loop can reach,
    [send] of a string payload returns normally, started or not.  On a
    started session a payload that is not a string and that
    [Buffer.from] refuses makes [send] throw the TypeError, before
    anything is written. *)
Theorem send_drops_or_returns :
  (forall (a : AmiVoice) (payload : Value),
     ~ Started a -> call (send payload) a = (Ret tt, (a, [])))
  /\ (forall (w : World) (r : Ref) (a : AmiVoice) (payload : string),
        reachable w -> heap w !! r = Some a ->
        fst (call (send (VStr payload)) a) = Ret tt)
  /\ (forall (a : AmiVoice) (payload : Value),
        Started a ->
        (forall s, payload <> VStr s) ->
        Buffer_from_other payload = None ->
        call (send payload) a = (Throw TypeError, (a, []))).
Proof.
  split; [|split].
  - intros a payload Hs. apply send_not_started. exact Hs.
  - intros w r a payload Hreach Ha.
    apply reachable_inv in Hreach. destruct (truthy (isStarted a)) eqn:Hs.
    + destruct (inv_started _ _ _ _ _ _ Hreach r a Ha Hs) as [c Hc].
      rewrite (send_started base64_decode Buffer_from_other a c payload Hs Hc). reflexivity.
    + rewrite send_not_started; [reflexivity|]. unfold Started. rewrite Hs. discriminate.
  - intros a payload Hs Hstr Hno. unfold Started in Hs. unfold send, Buffer_from.
    run_method. rewrite Hs. cbn.
    destruct payload as [| | | |s| |]; try (rewrite Hno; reflexivity).
    destruct (Hstr s eq_refl).
Qed.

(** C6 (amended).  A provider text frame whose first character is [A],
    whose text from offset 2 parses to a document other than [null], and
    whose [text] converts to a string makes the handler log the text and
    emit exactly one transcription event, whose payload is
    [{ body: <the whole document> }]: the text is its [body.text].  The
    state of the session is unchanged.  When the [text] does not convert
    to a string the handler throws at the log line and emits nothing.  A
    frame whose first character is one of S, E, C, U, G has no effect at
    all. *)
Theorem result_frame_emits_body :
  (forall (a : AmiVoice) (utf8Data : string) (data text : Value) (shown : string),
     charAt0 utf8Data = "A" ->
     JSON_parse (substring2 utf8Data) = Some data ->
     get "text" data = Ret text ->
     ToString Number_toString text = Ret shown ->
     call (on_message (Utf8 utf8Data)) a
     = (Ret tt, (a, [Log ("AmiVoice: [A] " +:+ shown) [];
                     Emit "transcription" (VObj [("body", data)])]))
     /\ res_bind (get "body" (VObj [("body", data)])) (get "text") = Ret text)
  /\ (forall (a : AmiVoice) (utf8Data : string) (data text : Value) (e : Error),
        charAt0 utf8Data = "A" ->
        JSON_parse (substring2 utf8Data) = Some data ->
        get "text" data = Ret text ->
        ToString Number_toString text = Throw e ->
        call (on_message (Utf8 utf8Data)) a = (Throw e, (a, [])))
  /\ (forall (a : AmiVoice) (utf8Data : string),
        In (charAt0 utf8Data) ignored_codes ->
        call (on_message (Utf8 utf8Data)) a = (Ret tt, (a, []))).
Proof.
  split; [|split].
  - intros a utf8Data data text shown HA Hparse Htext Hshown. split.
    + apply on_message_A with (text := text); assumption.
    + cbn. exact Htext.
  - intros a utf8Data data text e HA Hparse Htext Hthrow.
    apply on_message_A_throws with (data := data) (text := text); assumption.
  - intros a utf8Data Hin. apply on_message_other; intros Heq; rewrite Heq in Hin;
      cbn in Hin; destruct Hin as [H|[H|[H|[H|[H|[]]]]]]; discriminate H.
Qed.

Lemma session_frame_not_start (key : option string) (f : Frame) :
  session_frame f -> f <> TextFrame (start_command key).
Proof.
  intros [[b ->]| ->]; [discriminate|]. unfold start_command. cbn. discriminate.
Qed.

(** C7.  In every world the event loop can reach: a pending connect that
    succeeds returns normally, opens a new connection and writes exactly
    one frame to it, the start command
    [s mulaw -a-general authorization=<key>], where the key is the
    configured one (the word [undefined] when none is configured); and on
    every connection the frames written so far are the start command
    first, followed only by audio frames and close commands, so that the
    start command occurs once and before any audio. *)
Theorem start_command_once_and_first (w : World) :
  reachable w ->
  let command := "s mulaw -a-general authorization=" +:+ default "undefined" AMIVOICE_API_KEY in
  (forall i r, clients w !! i = Some (r, true) ->
     exists w',
       step (Connect i) w = Some (Ret tt, w')
       /\ sockets w' = sockets w ++ [(r, true)]
       /\ wire w' = wire w ++ [(length (sockets w), TextFrame command)])
  /\ (forall c r o, sockets w !! c = Some (r, o) ->
        exists rest,
          frames_on c (wire w) = TextFrame command :: rest
          /\ Forall session_frame rest
          /\ ~ In (TextFrame command) rest).
Proof.
  intros Hreach command.
  assert (Hcommand : command = start_command AMIVOICE_API_KEY) by reflexivity.
  rewrite Hcommand. clear command Hcommand.
  apply reachable_inv in Hreach. split.
  - intros i r Hi.
    assert (r = i) as -> by (eapply inv_clients_owner; eassumption).
    destruct (lookup_lt_is_Some_2 (heap w) i) as [a Ha].
    { rewrite <- (inv_clients_len _ _ _ _ _ _ Hreach). eapply lookup_lt_Some; eassumption. }
    destruct (inv_pending _ _ _ _ _ _ Hreach i a Hi Ha) as (Hs & _ & _).
    eexists. cbn. rewrite Hi. unfold invoke. cbn. rewrite Ha.
    rewrite (on_connect_fresh a (length (sockets w)) Hs). cbn.
    rewrite (inv_key _ _ _ _ _ _ Hreach i a Ha). auto.
  - intros c r o Hc.
    destruct (inv_wire _ _ _ _ _ _ Hreach c) as (rest & Hrest & Hall).
    { eapply lookup_lt_Some; eassumption. }
    exists rest. split; [exact Hrest|]. split; [exact Hall|].
    intros Hin. rewrite Forall_forall in Hall. apply list_elem_of_In in Hin.
    apply (session_frame_not_start AMIVOICE_API_KEY _ (Hall _ Hin)). reflexivity.
Qed.

(** C8 (amended).  In every world the event loop can reach, [close()] on
    a Speech Session whose started flag and ready flag are both set
    returns normally, sends exactly the close command [e] on the
    session's connection and clears the started flag; on a session that
    is not started, and on one that is not ready, it does nothing. *)
Theorem close_sends_end_command (w : World) (r : Ref) (a : AmiVoice) :
  reachable w ->
  heap w !! r = Some a ->
  (Started a -> isReady a = true ->
   exists c,
     connection a = Some c
     /\ call close a
        = (Ret tt,
           (mkAmiVoice (apiKey a) (isReady a) (Some false) (connection a) (listeners a),
            [Log "AmiVoice: send close command" []; Send c (TextFrame "e")])))
  /\ (~ Started a -> call close a = (Ret tt, (a, [])))
  /\ (isReady a = false -> call close a = (Ret tt, (a, []))).
Proof.
  intros Hreach Ha. apply reachable_inv in Hreach. split; [|split].
  - intros Hs Hr. destruct (inv_started _ _ _ _ _ _ Hreach r a Ha Hs) as [c Hc].
    exists c. split; [exact Hc|]. apply close_started_ready; assumption.
  - intros Hs. apply close_idle. unfold Started in Hs.
    destruct (truthy (isStarted a)); [contradiction|reflexivity].
  - intros Hr. apply close_idle. rewrite Hr. apply andb_false_r.
Qed.


(** C10.  A second start event on a Call Session that already has a
    Speech Session returns normally, constructs a new Speech Session
    (with the configured key, not ready, not started, without
    connection, with its own transcription listener and its own pending
    connect attempt) and makes [amiVoiceConnection] refer to it.  The
    previous session is not closed: its fields and its listener are as
    they were, no connection is closed and nothing is written to any
    connection.  A recognition result whose text converts to a string,
    arriving afterwards on the previous session's connection, still
    starts the reply pipeline: it issues a completion request for that
    text. *)
Theorem second_start_keeps_old_session
    (w : World) (r : Ref) (a : AmiVoice) (utf8Data : string) (data st sid : Value) :
  reachable w ->
  amiVoiceConnection (vs w) = Some r ->
  heap w !! r = Some a ->
  JSON_parse utf8Data = Some data ->
  get "event" data = Ret (VStr "start") ->
  get "start" data = Ret st ->
  get "callSid" st = Ret sid ->
  exists w',
    processMessage (Utf8 utf8Data) w = (Ret tt, w')
    /\ amiVoiceConnection (vs w') = Some (length (heap w))
    /\ heap w'
       = heap w ++ [mkAmiVoice AMIVOICE_API_KEY false None None
                      [("transcription", OnTranscription)]]
    /\ clients w' = clients w ++ [(length (heap w), true)]
    /\ r < length (heap w)
    /\ heap w' !! r = Some a
    /\ listeners a = [("transcription", OnTranscription)]
    /\ sockets w' = sockets w
    /\ wire w' = wire w
    /\ (forall c frame doc text shown,
          sockets w !! c = Some (r, true) ->
          charAt0 frame = "A" ->
          JSON_parse (substring2 frame) = Some doc ->
          get "text" doc = Ret text ->
          ToString Number_toString text = Ret shown ->
          exists w'',
            step (ProviderMessage c (Utf8 frame)) w' = Some (Ret tt, w'')
            /\ requests w''
               = requests w'
                 ++ [CreateChatCompletion
                       (VObj [("model", VStr "gpt-3.5-turbo");
                              ("messages",
                               VArr [VObj [("role", VStr "user"); ("content", text)]])])]).
Proof.
  intros Hreach Href Ha Hparse Hevent Hstart Hsid. apply reachable_inv in Hreach.
  pose proof (inv_listeners _ _ _ _ _ _ Hreach r a Ha) as Hl.
  pose proof (lookup_lt_Some _ _ _ Ha) as Hlt.
  destruct w as [v h cl so wi co rq su un]. cbn in Href, Ha, Hlt |- *.
  eexists. split.
  { unfold processMessage, parse, new, on, new_AmiVoice, connect. run_server. run_method.
    rewrite Hparse. cbn. rewrite Hevent. cbn. rewrite Hstart. cbn. rewrite Hsid. cbn.
    cbv [set_vs set_heap set_clients add_console vs heap clients sockets wire console
         requests suspended unhandled messageCount amiVoiceConnection callSid].
    rewrite list_lookup_middle by reflexivity. rewrite insert_snoc. reflexivity. }
  cbn. split; [reflexivity|]. split; [reflexivity|]. split; [reflexivity|].
  split; [exact Hlt|].
  split; [apply lookup_app_l_Some; exact Ha|]. split; [exact Hl|].
  split; [reflexivity|]. split; [reflexivity|].
  intros c frame doc text shown Hc HA Hdoc Htext Hshown.
  eexists. rewrite Hc.
  erewrite invoke_eq;
    [|cbn; apply lookup_app_l_Some; exact Ha
     |exact (on_message_A JSON_parse Number_toString a frame doc text shown HA Hdoc Htext
               Hshown)].
  cbn. rewrite list_lookup_insert_eq by (rewrite length_app; lia).
  rewrite Hl. cbn. unfold receivedTranscription. cbn. rewrite Htext. cbn.
  rewrite Hshown. cbn. split; reflexivity.
Qed.

End Claims.

Lemma media_before_start_throws_witness :
  Reference.JSON_parse (Reference.json (media_event "/w==")) = Some (media_event "/w==")
  /\ get "event" (media_event "/w==") = Ret (VStr "media")
  /\ amiVoiceConnection (vs init) = None
  /\ ref_processMessage (Utf8 (Reference.json (media_event "/w=="))) init
     = (Throw TypeError, init).
Proof.
  assert (H1 : Reference.JSON_parse (Reference.json (media_event "/w=="))
               = Some (media_event "/w==")) by (vm_compute; reflexivity).
  assert (H2 : get "event" (media_event "/w==") = Ret (VStr "media")) by reflexivity.
  assert (H3 : amiVoiceConnection (vs init) = None) by reflexivity.
  split; [exact H1|]. split; [exact H2|]. split; [exact H3|].
  exact (media_before_start_throws Reference.JSON_parse Reference.base64_decode
           ref_Buffer_from_other xml_response ref_key Reference.Number_toString init _ _ H1 H2 H3).
Defined.

Lemma close_without_start_throws_witness :
  amiVoiceConnection (vs init) = None
  /\ VoiceStream_close xml_response Reference.Number_toString init
     = (Throw TypeError, add_console (closed_line 0) [] init).
Proof.
  split; [reflexivity|].
  exact (close_without_start_throws xml_response Reference.Number_toString init eq_refl).
Defined.

(** C3, as stated, fails: with the session disconnected after a connect
    failure, [send] and [close] each issue no connect attempt, where the
    claim has exactly one.  After a media event and a closed event the
    world still holds only the one attempt of the constructor. *)
Lemma send_and_close_do_not_reconnect :
  heap failed_world = [failed_session]
  /\ isReady failed_session = false
  /\ connect_attempts (call (ref_send (VStr "/w==")) failed_session) = 0
  /\ connect_attempts (call (ref_send (VStr "/w==")) failed_session) <> 1
  /\ connect_attempts (call close failed_session) = 0
  /\ connect_attempts (call close failed_session) <> 1
  /\ clients failed_world = [(0, false)]
  /\ clients (world_after [twilio (start_event "CA123");
                           ConnectFailed 0 "Error: connect ECONNREFUSED";
                           twilio (media_event "/w=="); twilio closed_event])
     = [(0, false)].
Proof.
  vm_compute. repeat (split; [first [reflexivity|discriminate]|]). reflexivity.
Qed.

Lemma started_world_reachable : ref_reachable started_world.
Proof. eapply world_after_reachable. vm_compute. reflexivity. Defined.

Lemma failed_world_reachable : ref_reachable failed_world.
Proof. eapply world_after_reachable. vm_compute. reflexivity. Defined.

Lemma restarted_world_reachable : ref_reachable restarted_world.
Proof. eapply world_after_reachable. vm_compute. reflexivity. Defined.

Lemma one_connect_attempt_per_session_witness :
  ref_reachable failed_world
  /\ (length (clients failed_world) = length (heap failed_world)
      /\ forall i r p, clients failed_world !! i = Some (r, p) -> r = i)
  /\ (forall key, connect_attempts (new_AmiVoice key) = 1)
  /\ (forall a payload, connect_attempts (call (ref_send payload) a) = 0)
  /\ (forall a, connect_attempts (call close a) = 0).
Proof.
  split; [exact failed_world_reachable|].
  exact (one_connect_attempt_per_session Reference.JSON_parse Reference.base64_decode
           ref_Buffer_from_other xml_response ref_key Reference.Number_toString
           failed_world failed_world_reachable).
Defined.

Lemma send_while_started_witness :
  ref_reachable started_world
  /\ heap started_world !! 0 = Some started_session
  /\ Started started_session
  /\ exists c,
       connection started_session = Some c
       /\ call (ref_send (VStr "/w==")) started_session
          = (Ret tt,
             (started_session,
              [Send c (BinaryFrame (x70 :: Reference.base64_decode "/w=="))])).
Proof.
  assert (H : heap started_world !! 0 = Some started_session) by (vm_compute; reflexivity).
  assert (Hs : Started started_session) by reflexivity.
  split; [exact started_world_reachable|]. split; [exact H|]. split; [exact Hs|].
  exact (send_while_started Reference.JSON_parse Reference.base64_decode
           ref_Buffer_from_other xml_response ref_key Reference.Number_toString
           started_world 0 started_session "/w=="
           started_world_reachable H Hs).
Defined.

(** C5, as stated, fails: on the started session of [started_world],
    [send(undefined)] throws a TypeError to its caller; a media event
    without a payload, [{ event: "media", media: {} }], makes
    [processMessage] call it so. *)
Lemma send_of_missing_payload_throws :
  heap started_world !! 0 = Some started_session
  /\ Started started_session
  /\ call (ref_send VUndefined) started_session = (Throw TypeError, (started_session, []))
  /\ fst (call (ref_send VUndefined) started_session) <> Ret tt
  /\ Reference.JSON_parse
       (Reference.json (VObj [("event", VStr "media"); ("media", VObj [])]))
     = Some (VObj [("event", VStr "media"); ("media", VObj [])])
  /\ get "payload" (VObj []) = Ret VUndefined
  /\ ref_processMessage
       (Utf8 (Reference.json (VObj [("event", VStr "media"); ("media", VObj [])])))
       started_world
     = (Throw TypeError, started_world).
Proof.
  vm_compute. repeat (split; [first [reflexivity|discriminate]|]). reflexivity.
Qed.

Lemma send_drops_or_returns_witness :
  ~ Started failed_session
  /\ call (ref_send VUndefined) failed_session = (Ret tt, (failed_session, []))
  /\ ref_reachable started_world
  /\ heap started_world !! 0 = Some started_session
  /\ fst (call (ref_send (VStr "/w==")) started_session) = Ret tt
  /\ Started started_session
  /\ (forall s, VUndefined <> VStr s)
  /\ ref_Buffer_from_other VUndefined = None
  /\ call (ref_send VUndefined) started_session = (Throw TypeError, (started_session, [])).
Proof.
  assert (Hn : ~ Started failed_session) by discriminate.
  assert (H : heap started_world !! 0 = Some started_session) by (vm_compute; reflexivity).
  assert (Hs : Started started_session) by reflexivity.
  assert (Hu : forall s, VUndefined <> VStr s) by discriminate.
  assert (Hb : ref_Buffer_from_other VUndefined = None) by reflexivity.
  pose proof (send_drops_or_returns Reference.JSON_parse Reference.base64_decode
                ref_Buffer_from_other xml_response ref_key Reference.Number_toString)
    as (Hdrop & Hret & Hthrow).
  split; [exact Hn|]. split; [exact (Hdrop failed_session VUndefined Hn)|].
  split; [exact started_world_reachable|]. split; [exact H|].
  split; [exact (Hret started_world 0 started_session "/w==" started_world_reachable H)|].
  split; [exact Hs|]. split; [exact Hu|]. split; [exact Hb|].
  exact (Hthrow started_session VUndefined Hs Hu Hb).
Defined.

(** C6, as stated, fails: for the frame [A {"text":"hello"}] the one
    event emitted carries [{ body: { text: "hello" } }], not
    [{ text: "hello" }]. *)
Lemma transcription_event_wraps_document :
  call (ref_on_message (Utf8 (result_frame (VObj [("text", VStr "hello")])))) started_session
  = (Ret tt,
     (started_session,
      [Log "AmiVoice: [A] hello" [];
       Emit "transcription" (VObj [("body", VObj [("text", VStr "hello")])])]))
  /\ VObj [("body", VObj [("text", VStr "hello")])] <> VObj [("text", VStr "hello")].
Proof. split; [vm_compute; reflexivity|discriminate]. Qed.

Lemma result_frame_emits_body_witness :
  charAt0 (result_frame (VObj [("text", VStr "hello")])) = "A"
  /\ Reference.JSON_parse (substring2 (result_frame (VObj [("text", VStr "hello")])))
     = Some (VObj [("text", VStr "hello")])
  /\ get "text" (VObj [("text", VStr "hello")]) = Ret (VStr "hello")
  /\ ToString Reference.Number_toString (VStr "hello") = Ret "hello"
  /\ call (ref_on_message (Utf8 (result_frame (VObj [("text", VStr "hello")]))))
       started_session
     = (Ret tt,
        (started_session,
         [Log "AmiVoice: [A] hello" [];
          Emit "transcription" (VObj [("body", VObj [("text", VStr "hello")])])]))
  /\ charAt0 (result_frame unconvertible_document) = "A"
  /\ Reference.JSON_parse (substring2 (result_frame unconvertible_document))
     = Some unconvertible_document
  /\ get "text" unconvertible_document = Ret (VObj [("toString", VNull)])
  /\ ToString Reference.Number_toString (VObj [("toString", VNull)]) = Throw TypeError
  /\ call (ref_on_message (Utf8 (result_frame unconvertible_document))) started_session
     = (Throw TypeError, (started_session, []))
  /\ In (charAt0 "S") ignored_codes
  /\ call (ref_on_message (Utf8 "S")) started_session = (Ret tt, (started_session, [])).
Proof.
  assert (H1 : charAt0 (result_frame (VObj [("text", VStr "hello")])) = "A") by reflexivity.
  assert (H2 : Reference.JSON_parse (substring2 (result_frame (VObj [("text", VStr "hello")])))
               = Some (VObj [("text", VStr "hello")])) by (vm_compute; reflexivity).
  assert (H3 : get "text" (VObj [("text", VStr "hello")]) = Ret (VStr "hello")) by reflexivity.
  assert (H4 : ToString Reference.Number_toString (VStr "hello") = Ret "hello")
    by reflexivity.
  assert (H5 : charAt0 (result_frame unconvertible_document) = "A") by reflexivity.
  assert (H6 : Reference.JSON_parse (substring2 (result_frame unconvertible_document))
               = Some unconvertible_document) by (vm_compute; reflexivity).
  assert (H7 : get "text" unconvertible_document = Ret (VObj [("toString", VNull)]))
    by reflexivity.
  assert (H8 : ToString Reference.Number_toString (VObj [("toString", VNull)])
               = Throw TypeError) by reflexivity.
  assert (H9 : In (charAt0 "S") ignored_codes) by (left; reflexivity).
  pose proof (result_frame_emits_body Reference.JSON_parse Reference.Number_toString)
    as (HA & Hthrow & Hignored).
  split; [exact H1|]. split; [exact H2|]. split; [exact H3|]. split; [exact H4|].
  split; [exact (proj1 (HA started_session _ _ _ _ H1 H2 H3 H4))|].
  split; [exact H5|]. split; [exact H6|]. split; [exact H7|]. split; [exact H8|].
  split; [exact (Hthrow started_session _ _ _ _ H5 H6 H7 H8)|].
  split; [exact H9|]. exact (Hignored started_session "S" H9).
Defined.

Lemma pending_world_reachable : ref_reachable pending_world.
Proof. eapply world_after_reachable. vm_compute. reflexivity. Defined.

Lemma closed_world_reachable : ref_reachable closed_world.
Proof. eapply world_after_reachable. vm_compute. reflexivity. Defined.

Lemma start_command_once_and_first_witness :
  ref_reachable pending_world
  /\ clients pending_world !! 0 = Some (0, true)
  /\ (exists w',
        ref_step (Connect 0) pending_world = Some (Ret tt, w')
        /\ sockets w' = sockets pending_world ++ [(0, true)]
        /\ wire w'
           = wire pending_world
             ++ [(length (sockets pending_world),
                  TextFrame "s mulaw -a-general authorization=API-KEY")])
  /\ ref_reachable closed_world
  /\ sockets closed_world !! 0 = Some (0, true)
  /\ (exists rest,
        frames_on 0 (wire closed_world)
        = TextFrame "s mulaw -a-general authorization=API-KEY" :: rest
        /\ Forall session_frame rest
        /\ ~ In (TextFrame "s mulaw -a-general authorization=API-KEY") rest).
Proof.
  assert (H : clients pending_world !! 0 = Some (0, true)) by (vm_compute; reflexivity).
  assert (Hc : sockets closed_world !! 0 = Some (0, true)) by (vm_compute; reflexivity).
  split; [exact pending_world_reachable|]. split; [exact H|].
  split; [exact (proj1 (start_command_once_and_first Reference.JSON_parse
                          Reference.base64_decode ref_Buffer_from_other xml_response ref_key
                          Reference.Number_toString pending_world pending_world_reachable)
                   0 0 H)|].
  split; [exact closed_world_reachable|]. split; [exact Hc|].
  exact (proj2 (start_command_once_and_first Reference.JSON_parse Reference.base64_decode
                  ref_Buffer_from_other xml_response ref_key Reference.Number_toString
                  closed_world closed_world_reachable) 0 0 true Hc).
Defined.

(** C8, as stated, fails: after the provider frames [s], [e], [s] the
    started flag is set and the ready flag is not; [close()] then sends
    nothing and leaves the started flag set.  A closed event in that
    world leaves the start command as the only frame on the wire. *)
Lemma close_while_started_not_ready :
  heap restarted_world = [restarted_session]
  /\ Started restarted_session
  /\ call close restarted_session = (Ret tt, (restarted_session, []))
  /\ ~ In (Send 0 (TextFrame "e")) (snd (snd (call close restarted_session)))
  /\ Started (fst (snd (call close restarted_session)))
  /\ wire (world_after [twilio (start_event "CA123"); Connect 0;
                        ProviderMessage 0 (Utf8 "s"); ProviderMessage 0 (Utf8 "e");
                        ProviderMessage 0 (Utf8 "s"); twilio closed_event])
     = [(0, TextFrame (start_command ref_key))].
Proof.
  vm_compute. repeat (split; [first [reflexivity|tauto]|]). reflexivity.
Qed.

Lemma close_sends_end_command_witness :
  ref_reachable started_world
  /\ heap started_world !! 0 = Some started_session
  /\ Started started_session
  /\ isReady started_session = true
  /\ exists c,
       connection started_session = Some c
       /\ call close started_session
          = (Ret tt,
             (mkAmiVoice ref_key true (Some false) (Some 0)
                [("transcription", OnTranscription)],
              [Log "AmiVoice: send close command" []; Send c (TextFrame "e")])).
Proof.
  assert (H : heap started_world !! 0 = Some started_session) by (vm_compute; reflexivity).
  assert (Hs : Started started_session) by reflexivity.
  assert (Hr : isReady started_session = true) by reflexivity.
  split; [exact started_world_reachable|]. split; [exact H|]. split; [exact Hs|].
  split; [exact Hr|].
  exact (proj1 (close_sends_end_command Reference.JSON_parse Reference.base64_decode
                  ref_Buffer_from_other xml_response ref_key Reference.Number_toString
                  started_world 0 started_session
                  started_world_reachable H) Hs Hr).
Defined.


Lemma second_start_keeps_old_session_witness :
  ref_reachable started_world
  /\ amiVoiceConnection (vs started_world) = Some 0
  /\ heap started_world !! 0 = Some started_session
  /\ Reference.JSON_parse (Reference.json (start_event "CA456")) = Some (start_event "CA456")
  /\ get "event" (start_event "CA456") = Ret (VStr "start")
  /\ get "start" (start_event "CA456") = Ret (VObj [("callSid", VStr "CA456")])
  /\ get "callSid" (VObj [("callSid", VStr "CA456")]) = Ret (VStr "CA456")
  /\ exists w',
       ref_processMessage (Utf8 (Reference.json (start_event "CA456"))) started_world
       = (Ret tt, w')
       /\ amiVoiceConnection (vs w') = Some 1
       /\ heap w'
          = [started_session;
             mkAmiVoice ref_key false None None [("transcription", OnTranscription)]]
       /\ clients w' = clients started_world ++ [(1, true)]
       /\ heap w' !! 0 = Some started_session
       /\ sockets w' = sockets started_world
       /\ wire w' = wire started_world.
Proof.
  assert (H1 : amiVoiceConnection (vs started_world) = Some 0) by (vm_compute; reflexivity).
  assert (H2 : heap started_world !! 0 = Some started_session) by (vm_compute; reflexivity).
  assert (H3 : Reference.JSON_parse (Reference.json (start_event "CA456"))
               = Some (start_event "CA456")) by (vm_compute; reflexivity).
  assert (H4 : get "event" (start_event "CA456") = Ret (VStr "start")) by reflexivity.
  assert (H5 : get "start" (start_event "CA456") = Ret (VObj [("callSid", VStr "CA456")]))
    by reflexivity.
  assert (H6 : get "callSid" (VObj [("callSid", VStr "CA456")]) = Ret (VStr "CA456"))
    by reflexivity.
  split; [exact started_world_reachable|]. split; [exact H1|]. split; [exact H2|].
  split; [exact H3|]. split; [exact H4|]. split; [exact H5|]. split; [exact H6|].
  destruct (second_start_keeps_old_session Reference.JSON_parse Reference.base64_decode
              ref_Buffer_from_other xml_response ref_key Reference.Number_toString
              started_world 0 started_session
              _ _ _ _ started_world_reachable H1 H2 H3 H4 H5 H6)
    as (w' & Hw' & Hnew & Hheap & Hclients & _ & Hold & _ & Hsockets & Hwire & _).
  exists w'. split; [exact Hw'|]. split; [exact Hnew|]. split; [exact Hheap|].
  split; [exact Hclients|]. split; [exact Hold|]. split; [exact Hsockets|exact Hwire].
Defined.

(** * More of the two classes *)

Section Further.

Variable JSON_parse : string -> option Value.
Variable base64_decode : string -> list byte.
Variable Buffer_from_other : Value -> option (list byte).
Variable VoiceResponse_toString : list Verb -> string.
Variable AMIVOICE_API_KEY : option string.
Variable Number_toString : string -> string.

Local Abbreviation send := (send base64_decode Buffer_from_other).
Local Abbreviation on_message := (on_message JSON_parse Number_toString).
Local Abbreviation perform := (perform VoiceResponse_toString Number_toString).
Local Abbreviation invoke := (invoke VoiceResponse_toString Number_toString).
Local Abbreviation new := (new VoiceResponse_toString Number_toString).
Local Abbreviation VoiceStream_close :=
  (VoiceStream_close VoiceResponse_toString Number_toString).
Local Abbreviation processMessage :=
  (processMessage JSON_parse base64_decode Buffer_from_other VoiceResponse_toString
     AMIVOICE_API_KEY Number_toString).
Local Abbreviation step :=
  (step JSON_parse base64_decode Buffer_from_other VoiceResponse_toString AMIVOICE_API_KEY
     Number_toString).
Local Abbreviation run :=
  (run JSON_parse base64_decode Buffer_from_other VoiceResponse_toString AMIVOICE_API_KEY
     Number_toString).
Local Abbreviation reachable :=
  (reachable JSON_parse base64_decode Buffer_from_other VoiceResponse_toString
     AMIVOICE_API_KEY Number_toString).
Local Abbreviation Inv := (Inv AMIVOICE_API_KEY).
Local Abbreviation media_frame := (media_frame JSON_parse).

(** ** What a computation leaves alone *)

Lemma leaves_bind {A X Y} (f : World -> A) (m : M World X) (k : X -> M World Y) :
  leaves f m -> (forall x, leaves f (k x)) -> leaves f (m ≫= k).
Proof.
  intros Hm Hk w res w'. unfold mbind, M_bind.
  destruct (m w) as [[x|e] s] eqn:Hmw.
  - intros H. rewrite (Hk x _ _ _ H). eapply Hm; eassumption.
  - intros [= _ <-]. eapply Hm; eassumption.
Qed.

Lemma leaves_same {A X} (f : World -> A) (m : M World X) :
  (forall w, f (snd (m w)) = f w) -> leaves f m.
Proof. intros Hm w res w' H. rewrite <- (Hm w), H. reflexivity. Qed.

Lemma invoke_core {X} (r : Ref) (m : Method X) (w w' : World) (res : Res X) :
  invoke r m w = (res, w') ->
  (heap w !! r = None /\ w' = w)
  \/ (exists a a' acts,
        heap w !! r = Some a
        /\ call m a = (res, (a', acts))
        /\ core w'
           = (vs w, <[r := a']> (heap w), clients w ++ connects_of r acts, sockets w,
              wire w ++ sends_of acts)).
Proof.
  unfold invoke. destruct (heap w !! r) as [a|] eqn:Ha; [|intros [= _ <-]; auto].
  destruct (call m a) as [res0 [a' acts]] eqn:Hcall. intros [= <- <-]. right.
  exists a, a', acts. split; [reflexivity|]. split; [exact Hcall|].
  apply (perform_all_core VoiceResponse_toString Number_toString r acts
           (set_heap (fun h => <[r := a']> h) w)).
Qed.

Lemma leaves_vs_invoke {X} (r : Ref) (m : Method X) : leaves vs (invoke r m).
Proof.
  intros w res w' H. apply invoke_core in H as [[_ ->]|(a & a' & acts & _ & _ & Hc)];
    [reflexivity|].
  unfold core in Hc. injection Hc as -> _ _ _ _. reflexivity.
Qed.

Lemma leaves_count_invoke {X} (r : Ref) (m : Method X) :
  leaves (fun w => messageCount (vs w)) (invoke r m).
Proof. intros w res w' H. rewrite (leaves_vs_invoke r m _ _ _ H). reflexivity. Qed.

Lemma leaves_count_close : leaves (fun w => messageCount (vs w)) VoiceStream_close.
Proof.
  unfold VoiceStream_close.
  apply leaves_bind; [apply leaves_same; reflexivity|intros n].
  apply leaves_bind; [apply leaves_same; reflexivity|intros _].
  apply leaves_bind; [apply leaves_same; reflexivity|intros [r|]].
  - apply leaves_count_invoke.
  - apply leaves_same. reflexivity.
Qed.

Lemma leaves_count_start_objects :
  leaves (fun w => messageCount (vs w))
    (r ← new AMIVOICE_API_KEY;
     modify (set_vs (fun v => mkVoiceStream (messageCount v) (Some r) (callSid v)));;
     on r "transcription" OnTranscription).
Proof.
  apply leaves_same. intros w.
  rewrite (start_objects VoiceResponse_toString AMIVOICE_API_KEY Number_toString w). reflexivity.
Qed.

(** X1.  The message counter goes up by exactly one for each text frame
    of the telephony connection whose processing returns, and by nothing
    for any other event: a frame whose processing throws, a binary frame,
    and every event of the provider side leave it as it was. *)
Theorem messageCount_counts_processed_text_frames
    (e : Event) (w w' : World) (res : Res unit) :
  step e w = Some (res, w') ->
  messageCount (vs w') = messageCount (vs w) + counted e res.
Proof.
  destruct e as [message| |i error|i|c message|c error|c|i outcome]; cbn.
  - intros [= H]. destruct message as [utf8Data|b].
    + revert H. unfold processMessage. unfold mbind at 1, M_bind at 1.
      destruct (lift (parse JSON_parse utf8Data) w) as [[data|e] w0] eqn:H0.
      2:{ injection H0 as _ <-. intros [= <- <-]. cbn. lia. }
      injection H0 as _ <-. unfold mbind at 1, M_bind at 1.
      destruct (lift (get "event" data) w) as [[event|e] w0] eqn:H0.
      2:{ injection H0 as _ <-. intros [= <- <-]. cbn. lia. }
      injection H0 as _ <-. unfold mbind at 1, M_bind at 1.
      match goal with |- context [match ?body w with _ => _ end] =>
        assert (Hbody : leaves (fun w => messageCount (vs w)) body);
          [|destruct (body w) as [[[]|e] w1] eqn:Hw1] end.
      { destruct event as [| | | |ev| |]; try (apply leaves_same; reflexivity).
        destruct (String.eqb ev "connected"); [apply leaves_same; reflexivity|].
        destruct (String.eqb ev "start").
        { apply leaves_bind; [apply leaves_same; reflexivity|intros _].
          apply leaves_bind; [apply leaves_same; reflexivity|intros st].
          apply leaves_bind; [apply leaves_same; reflexivity|intros sid].
          apply leaves_bind; [apply leaves_same; reflexivity|intros _].
          apply leaves_count_start_objects. }
        destruct (String.eqb ev "media").
        { apply leaves_bind; [apply leaves_same; reflexivity|intros [r|]];
            [|apply leaves_same; reflexivity].
          apply leaves_bind; [apply leaves_same; reflexivity|intros media].
          apply leaves_bind; [apply leaves_same; reflexivity|intros payload].
          apply leaves_count_invoke. }
        destruct (String.eqb ev "closed"); [|apply leaves_same; reflexivity].
        apply leaves_bind; [apply leaves_same; reflexivity|intros _].
        apply leaves_count_close. }
      * intros [= <- <-]. cbn. rewrite (Hbody _ _ _ Hw1). lia.
      * intros [= <- <-]. cbn. rewrite (Hbody _ _ _ Hw1). lia.
    + injection H as <- <-. cbn. lia.
  - intros [= H]. revert H.
    intros H. rewrite Nat.add_0_r.
    apply (leaves_bind (fun w => messageCount (vs w)) (server_log _ _)
             (fun _ => VoiceStream_close)) in H;
      [exact H|apply leaves_same; reflexivity|intros _; apply leaves_count_close].
  - destruct (clients w !! i) as [[r [|]]|]; try discriminate.
    intros [= H]. rewrite (leaves_count_invoke _ _ _ _ _ H). cbn. destruct res; lia.
  - destruct (clients w !! i) as [[r [|]]|]; try discriminate.
    intros [= H]. rewrite (leaves_count_invoke _ _ _ _ _ H). cbn. destruct res; lia.
  - destruct (sockets w !! c) as [[r [|]]|]; try discriminate.
    intros [= H]. rewrite (leaves_count_invoke _ _ _ _ _ H). cbn. destruct res; lia.
  - destruct (sockets w !! c) as [[r [|]]|]; try discriminate.
    intros [= H]. rewrite (leaves_count_invoke _ _ _ _ _ H). cbn. destruct res; lia.
  - destruct (sockets w !! c) as [[r [|]]|]; try discriminate.
    intros [= H]. rewrite (leaves_count_invoke _ _ _ _ _ H). cbn. destruct res; lia.
  - destruct (suspended w !! i) as [[k|]|]; try discriminate.
    intros [= <- <-]. rewrite Nat.add_0_r.
    pose proof (run_task_core (k outcome) (set_suspended (fun l => <[i := None]> l) w)) as Hc.
    unfold core in Hc. injection Hc as -> _ _ _ _. reflexivity.
Qed.

(** X2.  A text frame that is not JSON makes [processMessage] throw the
    SyntaxError of [JSON.parse]; one that parses to [null] makes it throw
    a TypeError at [data.event].  In both cases nothing else happens: the
    frame is not counted, nothing is logged, no session is touched. *)
Theorem malformed_frame_throws (w : World) (utf8Data : string) :
  (JSON_parse utf8Data = None ->
   processMessage (Utf8 utf8Data) w = (Throw SyntaxError, w))
  /\ (JSON_parse utf8Data = Some VNull ->
      processMessage (Utf8 utf8Data) w = (Throw TypeError, w)).
Proof.
  split; intros Hparse; unfold processMessage, parse; run_server; rewrite Hparse; reflexivity.
Qed.

(** X3.  A start event whose [start] member is missing throws a TypeError
    at [data.start.callSid], after the log line and before anything is
    stored: no Speech Session is created and the call identifier is
    kept.  A media event whose [media] member is missing, arriving while
    a Speech Session exists, throws a TypeError at [data.media.payload]
    and leaves the world as it was: [send] is not called. *)
Theorem missing_member_throws (w : World) (utf8Data : string) (data : Value) (r : Ref) :
  JSON_parse utf8Data = Some data ->
  (get "event" data = Ret (VStr "start") ->
   get "start" data = Ret VUndefined ->
   processMessage (Utf8 utf8Data) w
   = (Throw TypeError, add_console "Twilio WS: Start event received: " [data] w))
  /\ (get "event" data = Ret (VStr "media") ->
      get "media" data = Ret VUndefined ->
      amiVoiceConnection (vs w) = Some r ->
      processMessage (Utf8 utf8Data) w = (Throw TypeError, w)).
Proof.
  intros Hparse. split.
  - intros Hevent Hstart. unfold processMessage, parse. run_server.
    rewrite Hparse. cbn. rewrite Hevent. cbn. rewrite Hstart. reflexivity.
  - intros Hevent Hmedia Href. unfold processMessage, parse. run_server.
    rewrite Hparse. cbn. rewrite Hevent. cbn. rewrite Href. cbn. rewrite Hmedia. reflexivity.
Qed.

(** X4.  A text frame that parses to a document whose [event] is none of
    connected, start, media and closed (another name, a value that is not
    a string, or no [event] member at all) is ignored without error: it
    is counted and nothing else changes, not even the console. *)
Theorem unrecognized_event_is_only_counted
    (w : World) (utf8Data : string) (data event : Value) :
  JSON_parse utf8Data = Some data ->
  get "event" data = Ret event ->
  (forall name, In name handled_events -> event <> VStr name) ->
  processMessage (Utf8 utf8Data) w = (Ret tt, count_message w).
Proof.
  intros Hparse Hevent Hother. unfold processMessage, parse. run_server.
  rewrite Hparse. cbn. rewrite Hevent. cbn.
  destruct event as [| | | |ev| |]; try reflexivity.
  assert (Hne : forall name, In name handled_events -> String.eqb ev name = false).
  { intros name Hin. apply String.eqb_neq. intros ->. exact (Hother name Hin eq_refl). }
  rewrite !Hne by (cbn; auto). reflexivity.
Qed.

Lemma insert_same_world (w : World) (r : Ref) (a : AmiVoice) :
  heap w !! r = Some a -> set_heap (fun h => <[r := a]> h) w = w.
Proof.
  intros Ha. destruct w as [v h cl so wi co rq su un]. cbn in Ha.
  unfold set_heap. cbn. rewrite (list_insert_id h r a Ha). reflexivity.
Qed.

Lemma media_event_step
    (w : World) (r : Ref) (a : AmiVoice) (utf8Data payload : string) :
  reachable w ->
  amiVoiceConnection (vs w) = Some r ->
  heap w !! r = Some a ->
  media_frame utf8Data payload ->
  (Started a ->
   exists c,
     connection a = Some c
     /\ processMessage (Utf8 utf8Data) w
        = (Ret tt, count_message (add_wire c (BinaryFrame (x70 :: base64_decode payload)) w)))
  /\ (~ Started a -> processMessage (Utf8 utf8Data) w = (Ret tt, count_message w)).
Proof.
  intros Hreach Href Ha (data & media & Hparse & Hevent & Hmedia & Hpayload).
  apply reachable_inv in Hreach.
  assert (Hprefix : forall res w',
            invoke r (send (VStr payload)) w = (res, w') ->
            processMessage (Utf8 utf8Data) w
            = match res with
              | Ret _ => (Ret tt, count_message w')
              | Throw e => (Throw e, w')
              end).
  { intros res w' H. unfold processMessage, parse. run_server.
    rewrite Hparse. cbn -[invoke]. rewrite Hevent. cbn -[invoke]. rewrite Href.
    cbn -[invoke]. rewrite Hmedia. cbn -[invoke]. rewrite Hpayload. cbn -[invoke].
    rewrite H. destruct res as [[]|e]; reflexivity. }
  split.
  - intros Hs. destruct (inv_started _ _ _ _ _ _ Hreach r a Ha Hs) as [c Hc].
    exists c. split; [exact Hc|].
    rewrite (Hprefix _ _ (invoke_eq VoiceResponse_toString Number_toString r _ w a a _ _ Ha
                            (send_started base64_decode Buffer_from_other a c payload Hs Hc))).
    cbn. rewrite (insert_same_world w r a Ha). reflexivity.
  - intros Hs.
    rewrite (Hprefix _ _ (invoke_eq VoiceResponse_toString Number_toString r _ w a a _ _ Ha
                            (send_not_started base64_decode Buffer_from_other a _ Hs))).
    cbn. rewrite (insert_same_world w r a Ha). reflexivity.
Qed.

(** X5.  A media event with a string payload, arriving in a world the
    event loop can reach while a Speech Session exists: if the session is
    started, [processMessage] returns normally, writes exactly one audio
    frame (0x70 and the decoded payload) to the session's connection and
    counts the message; if it is not started, the audio is dropped, and
    the message is counted all the same.  Nothing else changes. *)
Theorem media_event_forwards_or_drops
    (w : World) (r : Ref) (a : AmiVoice) (utf8Data payload : string) :
  reachable w ->
  amiVoiceConnection (vs w) = Some r ->
  heap w !! r = Some a ->
  media_frame utf8Data payload ->
  (Started a ->
   exists c,
     connection a = Some c
     /\ processMessage (Utf8 utf8Data) w
        = (Ret tt, count_message (add_wire c (BinaryFrame (x70 :: base64_decode payload)) w)))
  /\ (~ Started a -> processMessage (Utf8 utf8Data) w = (Ret tt, count_message w)).
Proof. apply media_event_step. Qed.

Lemma run_app (events1 events2 : list Event) : forall w,
  run (events1 ++ events2) w
  = match run events1 w with
    | Some w1 => run events2 w1
    | None => None
    end.
Proof.
  induction events1 as [|e events1 IH]; intros w; cbn -[step]; [reflexivity|].
  destruct (step e w) as [[res w1]|]; [apply IH|reflexivity].
Qed.

Lemma reachable_step (e : Event) (w w' : World) (res : Res unit) :
  reachable w -> step e w = Some (res, w') -> reachable w'.
Proof.
  intros [events Hrun] Hstep. exists (events ++ [e]).
  rewrite run_app, Hrun. cbn -[step]. rewrite Hstep. reflexivity.
Qed.

Lemma reachable_run (events : list Event) (w w' : World) :
  reachable w -> run events w = Some w' -> reachable w'.
Proof.
  intros [events0 Hrun] H. exists (events0 ++ events). rewrite run_app, Hrun. exact H.
Qed.

(** X6.  Media events are forwarded in the order they arrive: a run of
    media frames on a started session returns normally at each frame,
    appends to the wire one audio frame per media frame, in the same
    order, each on the session's connection, and counts every frame. *)
Theorem media_frames_forwarded_in_order (frames : list (string * string)) :
  forall (w : World) (r : Ref) (a : AmiVoice) (c : ConnId),
  reachable w ->
  amiVoiceConnection (vs w) = Some r ->
  heap w !! r = Some a ->
  Started a ->
  connection a = Some c ->
  Forall (fun f => media_frame (fst f) (snd f)) frames ->
  exists w',
    run (map (fun f => TwilioMessage (Utf8 (fst f))) frames) w = Some w'
    /\ wire w' = wire w ++ map (fun f => (c, BinaryFrame (x70 :: base64_decode (snd f)))) frames
    /\ messageCount (vs w') = messageCount (vs w) + length frames
    /\ heap w' = heap w.
Proof.
  induction frames as [|[utf8Data payload] frames IH]; intros w r a c Hreach Href Ha Hs Hc Hall.
  - exists w. cbn. rewrite app_nil_r, Nat.add_0_r. auto.
  - apply Forall_cons in Hall as [Hframe Hall]. cbn [fst snd] in Hframe.
    destruct (media_event_step w r a utf8Data payload Hreach Href Ha Hframe)
      as [Hfwd _].
    destruct (Hfwd Hs) as (c' & Hc' & Hstep).
    assert (c' = c) as -> by congruence.
    set (w1 := count_message (add_wire c (BinaryFrame (x70 :: base64_decode payload)) w)) in *.
    assert (Hreach1 : reachable w1).
    { apply (reachable_step (TwilioMessage (Utf8 utf8Data)) w w1 (Ret tt) Hreach).
      cbn -[processMessage]. rewrite Hstep. reflexivity. }
    destruct (IH w1 r a c Hreach1 Href Ha Hs Hc Hall) as (w' & Hrun & Hwire & Hcount & Hheap).
    exists w'. split; [|split; [|split]].
    + cbn -[step]. cbn -[processMessage]. rewrite Hstep. exact Hrun.
    + rewrite Hwire. cbn. rewrite <- app_assoc. reflexivity.
    + rewrite Hcount. cbn. lia.
    + rewrite Hheap. reflexivity.
Qed.

(** X7.  In every world the event loop can reach, [close()] of a Call
    Session that has a Speech Session returns normally.  It logs the
    message count; if the session is started and ready it then logs,
    writes the single frame [e] to the session's connection and clears
    the started flag; otherwise it does nothing more. *)
Theorem close_with_session_returns (w : World) (r : Ref) (a : AmiVoice) :
  reachable w ->
  amiVoiceConnection (vs w) = Some r ->
  heap w !! r = Some a ->
  (Started a -> isReady a = true ->
   exists c,
     connection a = Some c
     /\ VoiceStream_close w
        = (Ret tt,
           add_wire c (TextFrame "e")
             (add_console "AmiVoice: send close command" []
                (set_heap
                   (fun h => <[r := mkAmiVoice (apiKey a) (isReady a) (Some false)
                                      (connection a) (listeners a)]> h)
                   (add_console (closed_line (messageCount (vs w))) [] w)))))
  /\ (truthy (isStarted a) && isReady a = false ->
      VoiceStream_close w
      = (Ret tt, add_console (closed_line (messageCount (vs w))) [] w)).
Proof.
  intros Hreach Href Ha. apply reachable_inv in Hreach.
  rewrite (close_with_session VoiceResponse_toString Number_toString w r Href). split.
  - intros Hs Hr. destruct (inv_started _ _ _ _ _ _ Hreach r a Ha Hs) as [c Hc].
    exists c. split; [exact Hc|].
    erewrite invoke_eq; [|exact Ha|exact (close_started_ready a c Hs Hr Hc)]. reflexivity.
  - intros Hidle.
    erewrite invoke_eq; [|exact Ha|exact (close_idle a Hidle)]. cbn.
    rewrite insert_same_world by exact Ha. reflexivity.
Qed.

(** X8.  However often [close()] is called, the close command goes out at
    most once: one call sends at most one frame, and a second call, on
    the session as the first left it, sends nothing.  (The telephony side
    calls [close()] twice when a closed event is followed by the close of
    the connection.) *)
Theorem close_twice_sends_once (a : AmiVoice) :
  length (sent (call close a)) <= 1
  /\ sent (call close (after (call close a))) = [].
Proof.
  unfold sent, after, close, connection_send, set_isStarted. run_method.
  destruct a as [k ready [[|]|] [c|] ls]; destruct ready; cbn; auto.
Qed.

(** X11.  [start()] by cases.  On a session that is not ready it issues
    one connect attempt and sends nothing (the lazy reconnect).  On a
    ready session that is started it does nothing.  On a ready session
    that is not started it sends the start command on the session's
    connection, and throws a TypeError if there is none.  It never
    changes the session. *)
Theorem start_cases (a : AmiVoice) :
  (isReady a = false ->
   call start a = (Ret tt, (a, [ClientConnect AMIVOICE_WEBSOCKET_URL])))
  /\ (isReady a = true -> Started a -> call start a = (Ret tt, (a, [])))
  /\ (isReady a = true -> ~ Started a ->
      forall c, connection a = Some c ->
      call start a
      = (Ret tt,
         (a, [Send c (TextFrame ("s mulaw -a-general authorization="
                                 +:+ default "undefined" (apiKey a)))])))
  /\ (isReady a = true -> ~ Started a -> connection a = None ->
      call start a = (Throw TypeError, (a, []))).
Proof.
  unfold Started, start, connect, connection_send. run_method.
  destruct a as [k ready started conn ls]. cbn.
  split; [|split; [|split]].
  - intros ->. reflexivity.
  - intros -> Hs. cbn. rewrite Hs. reflexivity.
  - intros -> Hs c ->. destruct started as [[|]|]; cbn in *;
      [exfalso; apply Hs; reflexivity|reflexivity..].
  - intros -> Hs ->. destruct started as [[|]|]; cbn in *;
      [exfalso; apply Hs; reflexivity|reflexivity..].
Qed.

(** X12.  The connect callback never throws, in any state of the session:
    it stores the connection, logs, sets the ready flag, and sends the
    start command on the new connection exactly when the session is not
    started; the started flag is left as it was. *)
Theorem on_connect_cases (a : AmiVoice) (c : ConnId) :
  fst (call (on_connect c) a) = Ret tt
  /\ after (call (on_connect c) a)
     = mkAmiVoice (apiKey a) true (isStarted a) (Some c) (listeners a)
  /\ sent (call (on_connect c) a)
     = if truthy (isStarted a) then []
       else [(c, TextFrame ("s mulaw -a-general authorization="
                            +:+ default "undefined" (apiKey a)))].
Proof.
  unfold sent, after, on_connect, start, connect, connection_send, set_connection,
    set_isReady.
  run_method. destruct a as [k ready [[|]|] conn ls]; cbn; auto.
Qed.


(** X14.  Whatever the transcription event and however the requests
    settle, [receivedTranscription] issues at most one completion request
    and at most one call update, in that order: nothing when [body.text]
    cannot be read or does not convert to a string; otherwise the
    completion request for that text; and a call update only after the
    completion was fulfilled with a document whose
    [data.choices[0].message.content] can be read, and then for the call
    identifier it was given. *)
Theorem reply_requests_at_most_once (data sid : Value) (outcomes : list (option Value)) :
  let issued :=
    requests_of (receivedTranscription VoiceResponse_toString Number_toString data sid)
      outcomes in
  let request (text : Value) :=
    CreateChatCompletion
      (VObj [("model", VStr "gpt-3.5-turbo");
             ("messages", VArr [VObj [("role", VStr "user"); ("content", text)]])]) in
  (exists e,
     res_bind (res_bind (get "body" data) (get "text")) (ToString Number_toString) = Throw e
     /\ issued = [])
  \/ (exists text shown,
        res_bind (get "body" data) (get "text") = Ret text
        /\ ToString Number_toString text = Ret shown
        /\ (issued = [request text]
            \/ exists completion rest message,
                 outcomes = Some completion :: rest
                 /\ completion_content completion = Ret message
                 /\ issued
                    = [request text;
                       CallsUpdate sid
                         (VoiceResponse_toString
                            [Say TWILIO_VOICE TWILIO_LANGUAGE message; Pause 40])])).
Proof.
  unfold receivedTranscription.
  destruct (res_bind (get "body" data) (get "text")) as [text|e]; cbn.
  2:{ left. eauto. }
  destruct (ToString Number_toString text) as [shown|e] eqn:Hshown; cbn.
  2:{ left. eauto. }
  right. exists text, shown. split; [reflexivity|]. split; [exact Hshown|].
  destruct outcomes as [|[completion|] rest]; cbn; auto.
  destruct (completion_content completion) as [message|e] eqn:Hcontent; cbn; auto.
  right. exists completion, rest, message. split; [reflexivity|]. split; [exact Hcontent|].
  destruct rest as [|[updated|] rest]; try reflexivity.
  destruct (ToString Number_toString message); reflexivity.
Qed.

Lemma on_message_sends_nothing (a : AmiVoice) (message : Message) :
  sent (call (on_message message) a) = [].
Proof.
  unfold sent, on_message. destruct message as [utf8Data|b]; [|reflexivity].
  destruct (String.eqb (charAt0 utf8Data) "s").
  { unfold set_isStarted. run_method. reflexivity. }
  destruct (String.eqb (charAt0 utf8Data) "A").
  { run_method. destruct (parse JSON_parse (substring2 utf8Data)) as [data|e]; cbn;
      [|reflexivity].
    destruct (get "text" data) as [text|e]; cbn; [|reflexivity].
    destruct (ToString Number_toString text) as [shown|e]; reflexivity. }
  destruct (String.eqb (charAt0 utf8Data) "e"); [|reflexivity].
  unfold set_isStarted, set_isReady. run_method. reflexivity.
Qed.

(** X15.  A frame from the provider, whatever it is and whether the
    handler returns or throws, writes nothing to any connection, issues no
    connect, opens and closes no connection, leaves the Call Session as
    it was (its counter, its call identifier, its reference), and changes
    no Speech Session other than the owner of the connection it came
    on. *)
Theorem provider_frame_is_local
    (w w' : World) (c : ConnId) (message : Message) (res : Res unit) :
  step (ProviderMessage c message) w = Some (res, w') ->
  vs w' = vs w
  /\ wire w' = wire w
  /\ clients w' = clients w
  /\ sockets w' = sockets w
  /\ exists r,
       sockets w !! c = Some (r, true)
       /\ forall r', r' <> r -> heap w' !! r' = heap w !! r'.
Proof.
  cbn. destruct (sockets w !! c) as [[r [|]]|] eqn:Hc; try discriminate.
  intros [= H]. apply invoke_core in H as [[_ ->]|(a & a' & acts & Ha & Hcall & Hcore)].
  { repeat (split; [reflexivity|]). exists r. auto. }
  pose proof (on_message_quiet JSON_parse Number_toString a message) as Hq. rewrite Hcall in Hq.
  pose proof (on_message_sends_nothing a message) as Hsent. rewrite Hcall in Hsent.
  unfold sent in Hsent. cbn [snd] in Hsent.
  rewrite (quiet_no_connects a r acts (quiet_actions _ _ _ Hq)), Hsent, !app_nil_r in Hcore.
  unfold core in Hcore. injection Hcore as -> -> -> -> ->.
  repeat (split; [reflexivity|]). exists r. split; [reflexivity|].
  intros r' Hne. apply list_lookup_insert_ne. congruence.
Qed.

(** ** One event, one change *)

Lemma settled_refl (l : list (Ref * bool)) : settled l l.
Proof. split; [reflexivity|]. intros i x p H. exists p. auto. Qed.

Lemma settled_mark (i : nat) (l : list (Ref * bool)) : settled l (mark i l).
Proof.
  split; [apply mark_length|]. intros j x p H.
  apply mark_lookup in H as (p0 & H & Hp). exists p0. split; [exact H|]. intros Ht.
  apply Hp, Ht.
Qed.

Lemma settled_trans (l1 l2 l3 : list (Ref * bool)) :
  settled l1 l2 -> settled l2 l3 -> settled l1 l3.
Proof.
  intros [Hlen1 H1] [Hlen2 H2]. split; [congruence|]. intros i x p H.
  destruct (H2 _ _ _ H) as (p0 & H0 & Hp0). destruct (H1 _ _ _ H0) as (p1 & H1' & Hp1).
  exists p1. auto.
Qed.

Lemma change_pre (w0 w w' : World) : net w0 = net w -> change w0 w' -> change w w'.
Proof.
  unfold net. intros [= Hh Hc Hs Hw] H.
  destruct H as [? ? ? ?|r a a' acts ? ? ? ? ? ? ?|i a ? ? ? ? ?|a0 ? ? ? ? ?];
    rewrite ?Hh, ?Hc, ?Hs, ?Hw in *.
  - apply change_none; assumption.
  - eapply change_quiet; eassumption.
  - eapply change_connect; eassumption.
  - eapply change_new; eassumption.
Qed.

Lemma change_post (w w1 w' : World) : net w' = net w1 -> change w w1 -> change w w'.
Proof.
  unfold net. intros [= Hh Hc Hs Hw] H.
  destruct H as [? ? ? ?|r a a' acts ? ? ? ? ? ? ?|i a ? ? ? ? ?|a0 ? ? ? ? ?];
    rewrite <- ?Hh, <- ?Hc, <- ?Hs, <- ?Hw in *.
  - apply change_none; assumption.
  - eapply change_quiet; eassumption.
  - eapply change_connect; eassumption.
  - eapply change_new; eassumption.
Qed.

Lemma change_same (w w' : World) : net w' = net w -> change w w'.
Proof.
  unfold net. intros [= Hh Hc Hs Hw].
  apply change_none; rewrite ?Hh, ?Hc, ?Hs, ?Hw; auto using settled_refl.
Qed.

Local Abbreviation preserves := (preserves AMIVOICE_API_KEY).
Local Abbreviation yields := (yields AMIVOICE_API_KEY).

Lemma yields_pre {X Y} (m : M World X) (k : X -> M World Y) :
  preserves m -> leaves net m -> (forall x, yields (k x)) -> yields (m ≫= k).
Proof.
  intros Hp Hm Hk w res w' HI. unfold mbind, M_bind.
  destruct (m w) as [[x|e] s] eqn:Hmw.
  - intros H. apply (change_pre s); [eapply Hm; eassumption|].
    eapply Hk; [|exact H]. eapply Hp; eassumption.
  - intros [= _ <-]. apply change_same. eapply Hm; eassumption.
Qed.

Lemma yields_post {X Y} (m : M World X) (k : X -> M World Y) :
  yields m -> (forall x, leaves net (k x)) -> yields (m ≫= k).
Proof.
  intros Hm Hk w res w' HI. unfold mbind, M_bind.
  destruct (m w) as [[x|e] s] eqn:Hmw.
  - intros H. apply (change_post w s); [eapply Hk; eassumption|].
    eapply Hm; eassumption.
  - intros [= _ <-]. eapply Hm; eassumption.
Qed.

Lemma yields_same {X} (m : M World X) : leaves net m -> yields m.
Proof. intros Hm w res w' _ H. apply change_same. eapply Hm; eassumption. Qed.

Lemma invoke_change {X} (r : Ref) (m : Method X) (w0 w w' : World) (res : Res X) :
  heap w = heap w0 ->
  settled (clients w0) (clients w) ->
  settled (sockets w0) (sockets w) ->
  wire w = wire w0 ->
  invoke r m w = (res, w') ->
  (forall a res a' acts,
     heap w0 !! r = Some a ->
     call m a = (res, (a', acts)) ->
     quiet_call a a' acts
     /\ (isStarted a' = isStarted a
         \/ (exists c o, sockets w0 !! c = Some (r, o))
         \/ Started a)) ->
  change w0 w'.
Proof.
  intros Hh Hc Hs Hw H Hm.
  apply invoke_core in H as [[_ ->]|(a & a' & acts & Ha & Hcall & Hcore)].
  { apply change_none; assumption. }
  rewrite Hh in Ha. destruct (Hm _ _ _ _ Ha Hcall) as [Hq Hflag].
  rewrite (quiet_no_connects a r acts (quiet_actions _ _ _ Hq)), app_nil_r in Hcore.
  unfold core in Hcore. injection Hcore as _ Hh' Hc' Hs' Hw'.
  eapply change_quiet; try eassumption; congruence.
Qed.

Lemma yields_send (r : Ref) (payload : Value) : yields (invoke r (send payload)).
Proof.
  intros w res w' _ H.
  eapply invoke_change; [reflexivity|apply settled_refl|apply settled_refl|reflexivity
                        |exact H|].
  intros a res0 a' acts Ha Hcall.
  pose proof (send_quiet base64_decode Buffer_from_other a payload) as Hq.
  rewrite Hcall in Hq. destruct Hq as [-> Hq]. auto.
Qed.

Lemma close_flags (a : AmiVoice) :
  isStarted (after (call close a)) = isStarted a \/ Started a.
Proof.
  unfold after, Started, close, connection_send, set_isStarted. run_method.
  destruct a as [k ready [[|]|] [c|] ls]; destruct ready; cbn; auto.
Qed.

Lemma yields_close (r : Ref) : yields (invoke r close).
Proof.
  intros w res w' _ H.
  eapply invoke_change; [reflexivity|apply settled_refl|apply settled_refl|reflexivity
                        |exact H|].
  intros a res0 a' acts Ha Hcall.
  pose proof (close_quiet a) as Hq. pose proof (close_flags a) as Hf.
  unfold after in Hf. rewrite Hcall in Hq, Hf. cbn in Hf.
  destruct Hq as (Hq & _ & _). split; [exact Hq|]. destruct Hf; auto.
Qed.

Lemma yields_VoiceStream_close : yields VoiceStream_close.
Proof.
  unfold VoiceStream_close.
  apply yields_pre; [apply preserves_reads|apply leaves_same; reflexivity|intros n].
  apply yields_pre; [apply preserves_log|apply leaves_same; reflexivity|intros _].
  apply yields_pre; [apply preserves_reads|apply leaves_same; reflexivity|intros [r|]].
  - apply yields_close.
  - apply yields_same, leaves_same. reflexivity.
Qed.

Lemma yields_start_objects :
  yields
    (r ← new AMIVOICE_API_KEY;
     modify (set_vs (fun v => mkVoiceStream (messageCount v) (Some r) (callSid v)));;
     on r "transcription" OnTranscription).
Proof.
  intros w res w' _.
  rewrite (start_objects VoiceResponse_toString AMIVOICE_API_KEY Number_toString w).
  intros [= _ <-].
  apply (change_new _ _ (mkAmiVoice AMIVOICE_API_KEY false None None
                           [("transcription", OnTranscription)])); reflexivity.
Qed.

Lemma yields_processMessage (message : Message) : yields (processMessage message).
Proof.
  unfold processMessage. destruct message as [utf8Data|b];
    [|apply yields_same, leaves_same; reflexivity].
  apply yields_pre; [apply preserves_lift|apply leaves_same; reflexivity|intros data].
  apply yields_pre; [apply preserves_lift|apply leaves_same; reflexivity|intros event].
  apply yields_post; [|intros _; apply leaves_same; reflexivity].
  destruct event as [| | | |ev| |]; try (apply yields_same, leaves_same; reflexivity).
  destruct (String.eqb ev "connected"); [apply yields_same, leaves_same; reflexivity|].
  destruct (String.eqb ev "start").
  { apply yields_pre; [apply preserves_log|apply leaves_same; reflexivity|intros _].
    apply yields_pre; [apply preserves_lift|apply leaves_same; reflexivity|intros st].
    apply yields_pre; [apply preserves_lift|apply leaves_same; reflexivity|intros sid].
    apply yields_pre; [apply preserves_set_vs; reflexivity|apply leaves_same; reflexivity
                      |intros _].
    apply yields_start_objects. }
  destruct (String.eqb ev "media").
  { apply yields_pre; [apply preserves_reads|apply leaves_same; reflexivity|intros [r|]];
      [|apply yields_same, leaves_same; reflexivity].
    apply yields_pre; [apply preserves_lift|apply leaves_same; reflexivity|intros media].
    apply yields_pre; [apply preserves_lift|apply leaves_same; reflexivity|intros payload].
    apply yields_send. }
  destruct (String.eqb ev "closed"); [|apply yields_same, leaves_same; reflexivity].
  apply yields_pre; [apply preserves_log|apply leaves_same; reflexivity|intros _].
  apply yields_VoiceStream_close.
Qed.

Lemma step_change (e : Event) (w w' : World) (res : Res unit) :
  Inv w -> step e w = Some (res, w') -> change w w'.
Proof.
  intros HI. destruct e as [message| |i error|i|c message|c error|c|i outcome]; cbn.
  - intros [= H]. eapply yields_processMessage; eassumption.
  - intros [= H]. revert H.
    apply (yields_pre (server_log _ _) (fun _ => VoiceStream_close));
      [apply preserves_log|apply leaves_same; reflexivity
      |intros _; apply yields_VoiceStream_close|exact HI].
  - destruct (clients w !! i) as [[r [|]]|] eqn:Hi; try discriminate.
    intros [= H].
    eapply (invoke_change r _ w (set_clients (mark i) w) w' res);
      [reflexivity|apply settled_mark|apply settled_refl|reflexivity|exact H|].
    intros a res0 a' acts Ha Hcall.
    pose proof (on_connectFailed_quiet a error) as Hq. rewrite Hcall in Hq.
    destruct Hq as [Hq Hs]. auto.
  - destruct (clients w !! i) as [[r [|]]|] eqn:Hi; try discriminate.
    assert (r = i) as -> by (eapply inv_clients_owner; eassumption).
    unfold invoke. cbn.
    destruct (heap w !! i) as [a|] eqn:Ha.
    + destruct (inv_pending _ _ _ _ _ _ HI i a Hi Ha) as (Hs & _ & _).
      rewrite (on_connect_fresh a (length (sockets w)) Hs).
      intros [= _ <-]. eapply change_connect; [exact Hi|exact Ha|reflexivity..].
    + apply lookup_ge_None in Ha. apply lookup_lt_Some in Hi.
      rewrite (inv_clients_len _ _ _ _ _ _ HI) in Hi. lia.
  - destruct (sockets w !! c) as [[r [|]]|] eqn:Hc; try discriminate.
    intros [= H].
    eapply invoke_change; [reflexivity|apply settled_refl|apply settled_refl|reflexivity
                          |exact H|].
    intros a res0 a' acts Ha Hcall.
    pose proof (on_message_quiet JSON_parse Number_toString a message) as Hq. rewrite Hcall in Hq.
    split; [exact Hq|]. right. left. eauto.
  - destruct (sockets w !! c) as [[r [|]]|] eqn:Hc; try discriminate.
    intros [= H].
    eapply invoke_change; [reflexivity|apply settled_refl|apply settled_refl|reflexivity
                          |exact H|].
    intros a res0 a' acts Ha Hcall.
    pose proof (on_error_quiet a error) as Hq. rewrite Hcall in Hq.
    destruct Hq as [-> Hq]. auto.
  - destruct (sockets w !! c) as [[r [|]]|] eqn:Hc; try discriminate.
    intros [= H].
    eapply (invoke_change r _ w (set_sockets (mark c) w) w' res);
      [reflexivity|apply settled_refl|apply settled_mark|reflexivity|exact H|].
    intros a res0 a' acts Ha Hcall.
    pose proof (on_close_quiet a) as Hq. rewrite Hcall in Hq.
    destruct Hq as [Hq _]. split; [exact Hq|]. right. left. eauto.
  - destruct (suspended w !! i) as [[k|]|]; try discriminate.
    intros [= _ <-]. apply change_same.
    pose proof (run_task_core (k outcome) (set_suspended (fun l => <[i := None]> l) w)) as Hc.
    unfold core in Hc. unfold net. injection Hc as _ -> -> -> ->. reflexivity.
Qed.

Lemma settled_back (l l' : list (Ref * bool)) (i x : nat) (p : bool) :
  settled l l' -> l' !! i = Some (x, p) -> exists p0, l !! i = Some (x, p0).
Proof. intros [_ H] Hi. destruct (H _ _ _ Hi) as (p0 & H0 & _). eauto. Qed.

Lemma settled_forth (l l' : list (Ref * bool)) (i x : nat) (p : bool) :
  settled l l' -> l !! i = Some (x, p) ->
  exists p', l' !! i = Some (x, p') /\ (p = false -> p' = false).
Proof.
  intros [Hlen H] Hi.
  destruct (lookup_lt_is_Some_2 l' i) as [[x' p'] Hi'].
  { rewrite Hlen. eapply lookup_lt_Some; eassumption. }
  destruct (H _ _ _ Hi') as (p0 & H0 & Hp). rewrite Hi in H0. injection H0 as <- <-.
  exists p'. split; [exact Hi'|]. intros ->. destruct p'; [|reflexivity].
  discriminate (Hp eq_refl).
Qed.

Lemma mark_lookup_ne {A} (i j : nat) (l : list (A * bool)) :
  i <> j -> mark i l !! j = l !! j.
Proof.
  intros Hne. unfold mark. destruct (l !! i) as [[x p]|]; [|reflexivity].
  apply list_lookup_insert_ne. exact Hne.
Qed.

Lemma mark_lookup_eq {A} (i : nat) (l : list (A * bool)) (x : A) (p : bool) :
  l !! i = Some (x, p) -> mark i l !! i = Some (x, false).
Proof.
  intros Hi. unfold mark. rewrite Hi. apply list_lookup_insert_eq.
  eapply lookup_lt_Some; eassumption.
Qed.

Lemma connections_owned_change (w w' : World) :
  connections_owned w -> change w w' -> connections_owned w'.
Proof.
  intros HQ [Hh Hc Hs Hw|r a a' acts Ha Hq Hflag Hh Hc Hs Hw|i a Hi Ha Hh Hc Hs|a0 H1 H2 Hh Hc Hs];
    intros c r0 o Hsock.
  - destruct (settled_back _ _ _ _ _ Hs Hsock) as [o0 Hsock0].
    destruct (HQ _ _ _ Hsock0) as (Hcl & a & Ha & Hconn).
    destruct (settled_forth _ _ _ _ _ Hc Hcl) as (p' & Hcl' & Hp'). rewrite (Hp' eq_refl) in Hcl'.
    split; [exact Hcl'|]. exists a. rewrite Hh. auto.
  - destruct (settled_back _ _ _ _ _ Hs Hsock) as [o0 Hsock0].
    destruct (HQ _ _ _ Hsock0) as (Hcl & a0 & Ha0 & Hconn).
    destruct (settled_forth _ _ _ _ _ Hc Hcl) as (p' & Hcl' & Hp'). rewrite (Hp' eq_refl) in Hcl'.
    split; [exact Hcl'|]. rewrite Hh. destruct (decide (r0 = r)) as [->|Hne].
    + exists a'. split; [apply list_lookup_insert_eq; eapply lookup_lt_Some; eassumption|].
      rewrite (quiet_connection _ _ _ Hq). congruence.
    + exists a0. rewrite list_lookup_insert_ne by congruence. auto.
  - rewrite Hs in Hsock. rewrite Hc, Hh. apply lookup_snoc_Some in Hsock as [Hsock|[-> Heq]].
    + destruct (HQ _ _ _ Hsock) as (Hcl & a0 & Ha0 & Hconn).
      assert (Hne : i <> r0) by congruence.
      rewrite mark_lookup_ne by exact Hne. split; [exact Hcl|].
      exists a0. rewrite list_lookup_insert_ne by exact Hne. auto.
    + injection Heq as -> _. split; [eapply mark_lookup_eq; exact Hi|].
      eexists. split; [apply list_lookup_insert_eq; eapply lookup_lt_Some; eassumption|].
      reflexivity.
  - rewrite Hs in Hsock. destruct (HQ _ _ _ Hsock) as (Hcl & a & Ha & Hconn).
    rewrite Hc, Hh. split; [apply lookup_app_l_Some; exact Hcl|].
    exists a. split; [apply lookup_app_l_Some; exact Ha|exact Hconn].
Qed.

Lemma unconnected_pristine_change (w w' : World) :
  unconnected_pristine w -> change w w' -> unconnected_pristine w'.
Proof.
  intros HQ [Hh Hc Hs Hw|r a a' acts Ha Hq Hflag Hh Hc Hs Hw|i a Hi Ha Hh Hc Hs|a0 H1 H2 Hh Hc Hs];
    intros r0 a1 Ha1 Hnone.
  - rewrite Hh in Ha1. apply (HQ r0 a1 Ha1). intros c o Hsock.
    destruct (settled_forth _ _ _ _ _ Hs Hsock) as (o' & Hsock' & _).
    exact (Hnone _ _ Hsock').
  - assert (Hnone0 : forall c o, sockets w !! c <> Some (r0, o)).
    { intros c o Hsock. destruct (settled_forth _ _ _ _ _ Hs Hsock) as (o' & Hsock' & _).
      exact (Hnone _ _ Hsock'). }
    rewrite Hh in Ha1. apply lookup_insert_cases in Ha1 as [[-> ->]|[_ Ha1]]; [|eauto].
    destruct (HQ r a Ha Hnone0) as [Hs0 Hc0].
    rewrite (quiet_connection _ _ _ Hq). split; [|exact Hc0].
    destruct Hflag as [Heq|[(c & o & Hsock)|Hst]].
    + congruence.
    + destruct (Hnone0 _ _ Hsock).
    + unfold Started in Hst. rewrite Hs0 in Hst. discriminate.
  - rewrite Hh in Ha1. apply lookup_insert_cases in Ha1 as [[-> ->]|[_ Ha1]].
    + exfalso. apply (Hnone (length (sockets w)) true). rewrite Hs.
      apply list_lookup_middle. reflexivity.
    + apply (HQ r0 a1 Ha1). intros c o Hsock. apply (Hnone c o).
      rewrite Hs. apply lookup_app_l_Some. exact Hsock.
  - rewrite Hs in Hnone. rewrite Hh in Ha1.
    apply lookup_snoc_Some in Ha1 as [Ha1|[_ ->]]; [eauto|auto].
Qed.

Lemma connect_failed_change (r : Ref) (w w' : World) :
  connect_failed r w -> change w w' -> connect_failed r w'.
Proof.
  intros [Hcl Hnone] Hch.
  assert (Hgen : settled (clients w) (clients w') -> settled (sockets w) (sockets w') ->
                 connect_failed r w').
  { intros Hc Hs. split.
    - destruct (settled_forth _ _ _ _ _ Hc Hcl) as (p' & Hcl' & Hp').
      rewrite (Hp' eq_refl) in Hcl'. exact Hcl'.
    - intros c o Hsock. destruct (settled_back _ _ _ _ _ Hs Hsock) as [o0 Hsock0].
      exact (Hnone _ _ Hsock0). }
  destruct Hch as [Hh Hc Hs Hw|r0 a a' acts Ha Hq Hflag Hh Hc Hs Hw|i a Hi Ha Hh Hc Hs
                  |a0 H1 H2 Hh Hc Hs]; auto.
  - assert (Hne : i <> r) by congruence. split.
    + rewrite Hc, mark_lookup_ne by exact Hne. exact Hcl.
    + intros c o Hsock. rewrite Hs in Hsock.
      apply lookup_snoc_Some in Hsock as [Hsock|[_ Heq]]; [exact (Hnone _ _ Hsock)|].
      congruence.
  - split.
    + rewrite Hc. apply lookup_app_l_Some. exact Hcl.
    + rewrite Hs. exact Hnone.
Qed.

Lemma run_keeps (Q : World -> Prop) :
  (forall w w', Q w -> change w w' -> Q w') ->
  forall events w w', Inv w -> Q w -> run events w = Some w' -> Q w'.
Proof.
  intros HQ. induction events as [|e events IH]; intros w w' HI Hw; cbn -[step].
  - intros [= <-]. exact Hw.
  - destruct (step e w) as [[res w1]|] eqn:He; try discriminate.
    apply IH.
    + eapply step_inv; eassumption.
    + eapply HQ; [exact Hw|]. eapply step_change; eassumption.
Qed.

Lemma reachable_keeps (Q : World -> Prop) :
  Q init -> (forall w w', Q w -> change w w' -> Q w') -> forall w, reachable w -> Q w.
Proof.
  intros Hinit HQ w [events Hrun].
  apply (run_keeps Q HQ events init w); [apply Inv5_init|exact Hinit|exact Hrun].
Qed.

(** X16.  In every world the event loop can reach, each connection is the
    [connection] of the Speech Session whose client opened it, and that
    session's connect attempt is over; so a Speech Session never has two
    connections. *)
Theorem one_connection_per_session
    (w : World) (c1 c2 : ConnId) (r : Ref) (o1 o2 : bool) :
  reachable w ->
  sockets w !! c1 = Some (r, o1) ->
  (exists a, heap w !! r = Some a /\ connection a = Some c1)
  /\ clients w !! r = Some (r, false)
  /\ (sockets w !! c2 = Some (r, o2) -> c2 = c1).
Proof.
  intros Hreach H1.
  assert (HQ : connections_owned w).
  { apply reachable_keeps; [|exact connections_owned_change|exact Hreach].
    intros c r0 o H. discriminate H. }
  destruct (HQ _ _ _ H1) as (Hcl & a & Ha & Hc). split; [eauto|]. split; [exact Hcl|].
  intros H2. destruct (HQ _ _ _ H2) as (_ & a2 & Ha2 & Hc2). congruence.
Qed.

(** X17.  A connect failure is final.  After the connect attempt of a
    Speech Session has failed, in a world the event loop can reach,
    whatever events follow: the session never gets a connection and is
    never started, [send] drops every payload, and [close()] sends
    nothing. *)
Theorem connect_failure_is_final
    (w w1 w' : World) (i : nat) (error : string) (res : Res unit) (events : list Event) :
  reachable w ->
  step (ConnectFailed i error) w = Some (res, w1) ->
  run events w1 = Some w' ->
  (forall c o, sockets w' !! c <> Some (i, o))
  /\ exists a,
       heap w' !! i = Some a
       /\ isStarted a = None
       /\ connection a = None
       /\ (forall payload, call (send payload) a = (Ret tt, (a, [])))
       /\ call close a = (Ret tt, (a, [])).
Proof.
  intros Hreach Hstep Hrun.
  pose proof (reachable_inv _ _ _ _ _ _ w Hreach) as HI.
  pose proof (reachable_step _ _ _ _ Hreach Hstep) as Hreach1.
  pose proof (reachable_inv _ _ _ _ _ _ w1 Hreach1) as HI1.
  pose proof (reachable_run _ _ _ Hreach1 Hrun) as Hreach'.
  pose proof (reachable_inv _ _ _ _ _ _ w' Hreach') as HI'.
  assert (Hfailed1 : connect_failed i w1).
  { revert Hstep. cbn. destruct (clients w !! i) as [[r [|]]|] eqn:Hi; try discriminate.
    assert (r = i) as -> by exact (inv_clients_owner _ _ _ _ _ _ HI _ _ _ Hi).
    intros [= H]. apply invoke_core in H as [[_ ->]|(a & a' & acts & Ha & Hcall & Hcore)].
    - split; [cbn; eapply mark_lookup_eq; exact Hi|].
      cbn. intros c o. exact (inv_pending_socket _ _ _ _ _ _ HI i c o Hi).
    - pose proof (on_connectFailed_quiet a error) as Hq. rewrite Hcall in Hq.
      destruct Hq as [Hq _].
      rewrite (quiet_no_connects a i acts (quiet_actions _ _ _ Hq)), app_nil_r in Hcore.
      unfold core in Hcore. cbn in Hcore. injection Hcore as _ _ Hc Hs _. split.
      + rewrite Hc. eapply mark_lookup_eq. exact Hi.
      + rewrite Hs. intros c o. exact (inv_pending_socket _ _ _ _ _ _ HI i c o Hi). }
  assert (Hfailed : connect_failed i w').
  { apply (run_keeps (connect_failed i) (connect_failed_change i) events w1 w' HI1 Hfailed1
             Hrun). }
  assert (HQ : unconnected_pristine w').
  { apply reachable_keeps; [|exact unconnected_pristine_change|exact Hreach'].
    intros r a H. discriminate H. }
  destruct Hfailed as [Hcl Hnone]. split; [exact Hnone|].
  destruct (lookup_lt_is_Some_2 (heap w') i) as [a Ha].
  { rewrite <- (inv_clients_len _ _ _ _ _ _ HI'). eapply lookup_lt_Some; eassumption. }
  destruct (HQ i a Ha Hnone) as [Hs Hc].
  exists a. split; [exact Ha|]. split; [exact Hs|]. split; [exact Hc|]. split.
  - intros payload. apply send_not_started. unfold Started. rewrite Hs. discriminate.
  - apply close_idle. rewrite Hs. reflexivity.
Qed.

(** X18.  A start event whose [start.callSid] can be read returns
    normally: it logs, stores the call identifier, creates one new Speech
    Session with the configured key (not ready, not started, without
    connection, with the transcription listener), makes it the session of
    the Call Session, leaves one connect attempt pending, and counts the
    message.  It writes nothing to any connection and leaves every
    Speech Session that existed as it was: on a second start event the
    old session is not closed. *)
Theorem start_event_replaces_session
    (w : World) (utf8Data : string) (data st sid : Value) :
  JSON_parse utf8Data = Some data ->
  get "event" data = Ret (VStr "start") ->
  get "start" data = Ret st ->
  get "callSid" st = Ret sid ->
  exists w',
    processMessage (Utf8 utf8Data) w = (Ret tt, w')
    /\ vs w' = mkVoiceStream (S (messageCount (vs w))) (Some (length (heap w))) sid
    /\ heap w'
       = heap w ++ [mkAmiVoice AMIVOICE_API_KEY false None None
                      [("transcription", OnTranscription)]]
    /\ clients w' = clients w ++ [(length (heap w), true)]
    /\ sockets w' = sockets w
    /\ wire w' = wire w
    /\ console w' = console w ++ [("Twilio WS: Start event received: ", [data])]
    /\ requests w' = requests w.
Proof.
  intros Hparse Hevent Hstart Hsid.
  destruct w as [v h cl so wi co rq su un].
  unfold processMessage, parse, new, on, new_AmiVoice, connect. run_server.
  rewrite Hparse. cbn. rewrite Hevent. cbn. rewrite Hstart. cbn. rewrite Hsid. cbn.
  run_method.
  cbv [set_vs set_heap set_clients add_console vs heap clients sockets wire console requests
       suspended unhandled messageCount amiVoiceConnection callSid].
  rewrite list_lookup_middle by reflexivity. cbn. rewrite insert_snoc.
  eexists. split; [reflexivity|]. cbn. auto 10.
Qed.

(** X19.  The end of a call.  When a closed event arrives while the
    Speech Session is started and ready, and the telephony connection
    then closes, [close()] runs twice and both events return: the close
    command [e] is written once, to the session's connection, the session
    is left not started, and only the closed event is counted. *)
Theorem closed_event_then_close_sends_end_once
    (w : World) (r : Ref) (a : AmiVoice) (c : ConnId) (utf8Data : string) (data : Value) :
  amiVoiceConnection (vs w) = Some r ->
  heap w !! r = Some a ->
  Started a ->
  isReady a = true ->
  connection a = Some c ->
  JSON_parse utf8Data = Some data ->
  get "event" data = Ret (VStr "closed") ->
  exists w1 w2,
    step (TwilioMessage (Utf8 utf8Data)) w = Some (Ret tt, w1)
    /\ step TwilioClose w1 = Some (Ret tt, w2)
    /\ wire w1 = wire w ++ [(c, TextFrame "e")]
    /\ wire w2 = wire w1
    /\ heap w2 !! r
       = Some (mkAmiVoice (apiKey a) (isReady a) (Some false) (connection a) (listeners a))
    /\ messageCount (vs w2) = S (messageCount (vs w)).
Proof.
  intros Href Ha Hs Hr Hc Hparse Hevent.
  destruct w as [v h cl so wi co rq su un]. cbn in Href, Ha.
  pose proof (lookup_lt_Some _ _ _ Ha) as Hlt.
  unfold step, processMessage, parse, VoiceStream_close.
  unfold mbind, M_bind, mret, M_ret, server_log, reads, modify, throw, lift.
  cbn -[invoke]. rewrite Hparse. cbn -[invoke]. rewrite Hevent. cbn -[invoke].
  rewrite Href. cbn -[invoke].
  erewrite invoke_eq; [|exact Ha|exact (close_started_ready a c Hs Hr Hc)].
  eexists. eexists. split; [reflexivity|].
  cbn -[invoke pretty]. rewrite Href.
  erewrite invoke_eq;
    [|cbn; apply list_lookup_insert_eq; exact Hlt|apply close_idle; reflexivity].
  cbn -[pretty].
  cbv [set_vs set_heap add_console add_wire vs heap clients sockets wire console requests
       suspended unhandled messageCount amiVoiceConnection callSid].
  split; [reflexivity|]. split; [reflexivity|]. split; [reflexivity|].
  split; [|reflexivity].
  rewrite list_insert_insert_eq. apply list_lookup_insert_eq. exact Hlt.
Qed.

(** ** A session that is not started stays so until the provider says [s] *)

Local Abbreviation closing := (closing JSON_parse).

Lemma keeps_bind {X Y} (P : World -> Prop) (m : M World X) (k : X -> M World Y) :
  keeps P m -> (forall x, keeps P (k x)) -> keeps P (m ≫= k).
Proof.
  intros Hm Hk w res w' HP. unfold mbind, M_bind.
  destruct (m w) as [[x|e] s] eqn:Hmw.
  - intros H. eapply Hk; [|exact H]. eapply Hm; eassumption.
  - intros [= _ <-]. eapply Hm; eassumption.
Qed.

Lemma keeps_heap {X} (r : Ref) (m : M World X) : leaves heap m -> keeps (stopped r) m.
Proof. intros Hm w res w' (a & Ha & Hs) H. exists a. rewrite (Hm _ _ _ H). auto. Qed.

Lemma keeps_invoke {X} (r r0 : Ref) (m : Method X) :
  (forall a res a' acts, call m a = (res, (a', acts)) -> ~ Started a -> ~ Started a') ->
  keeps (stopped r) (invoke r0 m).
Proof.
  intros Hm w res w' (a & Ha & Hs) H.
  apply invoke_core in H as [[_ ->]|(a0 & a' & acts & Ha0 & Hcall & Hcore)];
    [exists a; auto|].
  unfold core in Hcore. injection Hcore as _ Hh _ _ _.
  unfold stopped. rewrite Hh. destruct (decide (r0 = r)) as [->|Hne].
  - exists a'. split; [apply list_lookup_insert_eq; eapply lookup_lt_Some; eassumption|].
    rewrite Ha in Ha0. injection Ha0 as <-. eapply Hm; eassumption.
  - exists a. rewrite list_lookup_insert_ne by exact Hne. auto.
Qed.

Lemma send_stopped (payload : Value) (a : AmiVoice) (res : Res unit) (a' : AmiVoice)
    (acts : list Action) :
  call (send payload) a = (res, (a', acts)) -> ~ Started a -> ~ Started a'.
Proof.
  intros Hcall Hs. pose proof (send_quiet base64_decode Buffer_from_other a payload) as Hq.
  rewrite Hcall in Hq. destruct Hq as [-> _]. exact Hs.
Qed.

Lemma close_stopped (a : AmiVoice) (res : Res unit) (a' : AmiVoice) (acts : list Action) :
  call close a = (res, (a', acts)) -> ~ Started a -> ~ Started a'.
Proof.
  intros Hcall Hs. pose proof (close_quiet a) as Hq.
  rewrite Hcall in Hq. destruct Hq as (_ & Hq & _). auto.
Qed.

Lemma on_connect_stopped (c : ConnId) (a : AmiVoice) (res : Res unit) (a' : AmiVoice)
    (acts : list Action) :
  call (on_connect c) a = (res, (a', acts)) -> ~ Started a -> ~ Started a'.
Proof.
  unfold Started, on_connect, start, connect, connection_send, set_connection, set_isReady.
  run_method. destruct a as [k ready [[|]|] conn ls]; cbn; intros [= _ <- _] Hs; exact Hs.
Qed.

Lemma on_message_stopped (message : Message) (a : AmiVoice) (res : Res unit)
    (a' : AmiVoice) (acts : list Action) :
  (forall utf8Data, message = Utf8 utf8Data -> charAt0 utf8Data <> "s") ->
  call (on_message message) a = (res, (a', acts)) -> ~ Started a -> ~ Started a'.
Proof.
  intros Hnot. unfold on_message. destruct message as [utf8Data|b];
    [|intros [= _ <- _] Hs; exact Hs].
  destruct (String.eqb_spec (charAt0 utf8Data) "s") as [Heq|_];
    [destruct (Hnot utf8Data eq_refl Heq)|].
  destruct (String.eqb (charAt0 utf8Data) "A").
  { run_method. destruct (parse JSON_parse (substring2 utf8Data)) as [data|e]; cbn;
      [|intros [= _ <- _] Hs; exact Hs].
    destruct (get "text" data) as [text|e]; cbn; [|intros [= _ <- _] Hs; exact Hs].
    destruct (ToString Number_toString text) as [shown|e]; cbn;
      intros [= _ <- _] Hs; exact Hs. }
  destruct (String.eqb (charAt0 utf8Data) "e"); [|intros [= _ <- _] Hs; exact Hs].
  unfold set_isStarted, set_isReady, Started. run_method. intros [= _ <- _] _. discriminate.
Qed.

Lemma keeps_VoiceStream_close (r : Ref) : keeps (stopped r) VoiceStream_close.
Proof.
  unfold VoiceStream_close.
  apply keeps_bind; [apply keeps_heap, leaves_same; reflexivity|intros n].
  apply keeps_bind; [apply keeps_heap, leaves_same; reflexivity|intros _].
  apply keeps_bind; [apply keeps_heap, leaves_same; reflexivity|intros [r0|]].
  - apply keeps_invoke. exact close_stopped.
  - apply keeps_heap, leaves_same. reflexivity.
Qed.

Lemma keeps_start_objects (r : Ref) :
  keeps (stopped r)
    (r ← new AMIVOICE_API_KEY;
     modify (set_vs (fun v => mkVoiceStream (messageCount v) (Some r) (callSid v)));;
     on r "transcription" OnTranscription).
Proof.
  intros w res w' (a & Ha & Hs).
  rewrite (start_objects VoiceResponse_toString AMIVOICE_API_KEY Number_toString w).
  intros [= _ <-]. exists a. split; [|exact Hs]. cbn. apply lookup_app_l_Some. exact Ha.
Qed.

Lemma keeps_processMessage (r : Ref) (message : Message) :
  keeps (stopped r) (processMessage message).
Proof.
  unfold processMessage. destruct message as [utf8Data|b];
    [|apply keeps_heap, leaves_same; reflexivity].
  apply keeps_bind; [apply keeps_heap, leaves_same; reflexivity|intros data].
  apply keeps_bind; [apply keeps_heap, leaves_same; reflexivity|intros event].
  apply keeps_bind; [|intros _; apply keeps_heap, leaves_same; reflexivity].
  destruct event as [| | | |ev| |]; try (apply keeps_heap, leaves_same; reflexivity).
  destruct (String.eqb ev "connected"); [apply keeps_heap, leaves_same; reflexivity|].
  destruct (String.eqb ev "start").
  { apply keeps_bind; [apply keeps_heap, leaves_same; reflexivity|intros _].
    apply keeps_bind; [apply keeps_heap, leaves_same; reflexivity|intros st].
    apply keeps_bind; [apply keeps_heap, leaves_same; reflexivity|intros sid].
    apply keeps_bind; [apply keeps_heap, leaves_same; reflexivity|intros _].
    apply keeps_start_objects. }
  destruct (String.eqb ev "media").
  { apply keeps_bind; [apply keeps_heap, leaves_same; reflexivity|intros [r0|]];
      [|apply keeps_heap, leaves_same; reflexivity].
    apply keeps_bind; [apply keeps_heap, leaves_same; reflexivity|intros media].
    apply keeps_bind; [apply keeps_heap, leaves_same; reflexivity|intros payload].
    apply keeps_invoke. exact (send_stopped payload). }
  destruct (String.eqb ev "closed"); [|apply keeps_heap, leaves_same; reflexivity].
  apply keeps_bind; [apply keeps_heap, leaves_same; reflexivity|intros _].
  apply keeps_VoiceStream_close.
Qed.

(** One event leaves a session that is not started as such, unless it is
    a frame [s] on an open connection of the session. *)
Lemma step_stopped (e : Event) (w w' : World) (res : Res unit) (r : Ref) :
  step e w = Some (res, w') ->
  stopped r w ->
  (forall c, start_frame c e -> sockets w !! c <> Some (r, true)) ->
  stopped r w'.
Proof.
  destruct e as [message| |i error|i|c message|c error|c|i outcome]; cbn -[invoke];
    intros Hstep Hr Hnot.
  - injection Hstep as Hstep. eapply keeps_processMessage; eassumption.
  - injection Hstep as Hstep. revert Hstep. apply keeps_bind; [| |exact Hr].
    + apply keeps_heap, leaves_same. reflexivity.
    + intros _. apply keeps_VoiceStream_close.
  - destruct (clients w !! i) as [[r0 [|]]|]; try discriminate.
    injection Hstep as Hstep. revert Hstep. apply keeps_invoke; [|exact Hr].
    intros a res0 a' acts Hcall Hs. pose proof (on_connectFailed_quiet a error) as Hq.
    rewrite Hcall in Hq. destruct Hq as [_ Hq]. unfold Started in *. rewrite Hq. exact Hs.
  - destruct (clients w !! i) as [[r0 [|]]|]; try discriminate.
    injection Hstep as Hstep. revert Hstep. apply keeps_invoke; [|exact Hr].
    exact (on_connect_stopped _).
  - destruct (sockets w !! c) as [[r0 [|]]|] eqn:Hc; try discriminate.
    injection Hstep as Hstep. destruct (decide (r0 = r)) as [->|Hne].
    + revert Hstep. apply keeps_invoke; [|exact Hr].
      intros a res0 a' acts. apply on_message_stopped. intros utf8Data -> Hs.
      apply (Hnot c); [exists utf8Data; auto|exact Hc].
    + destruct Hr as (a & Ha & Hs).
      apply invoke_core in Hstep as [[_ ->]|(a0 & a' & acts & Ha0 & Hcall & Hcore)];
        [exists a; auto|].
      unfold core in Hcore. injection Hcore as _ Hh _ _ _.
      exists a. rewrite Hh, list_lookup_insert_ne by exact Hne. auto.
  - destruct (sockets w !! c) as [[r0 [|]]|]; try discriminate.
    injection Hstep as Hstep. revert Hstep. apply keeps_invoke; [|exact Hr].
    intros a res0 a' acts Hcall Hs. pose proof (on_error_quiet a error) as Hq.
    rewrite Hcall in Hq. destruct Hq as [-> _]. exact Hs.
  - destruct (sockets w !! c) as [[r0 [|]]|]; try discriminate.
    injection Hstep as Hstep. revert Hstep. apply keeps_invoke; [|exact Hr].
    intros a res0 a' acts Hcall _. pose proof (on_close_quiet a) as Hq.
    rewrite Hcall in Hq. destruct Hq as [_ Hq]. exact Hq.
  - destruct (suspended w !! i) as [[k|]|]; try discriminate.
    injection Hstep as _ <-. destruct Hr as (a & Ha & Hs). exists a. split; [|exact Hs].
    pose proof (run_task_core (k outcome) (set_suspended (fun l => <[i := None]> l) w)) as Hc.
    unfold core in Hc. injection Hc as _ -> _ _ _. exact Ha.
Qed.

Lemma change_socket (w w' : World) (c : ConnId) (r : Ref) (o : bool) :
  change w w' ->
  sockets w !! c = Some (r, o) ->
  exists o', sockets w' !! c = Some (r, o') /\ (o = false -> o' = false).
Proof.
  intros [Hh Hc Hs Hw|r0 a a' acts Ha Hq Hflag Hh Hc Hs Hw|i a Hi Ha Hh Hc Hs
         |a0 H1 H2 Hh Hc Hs] Hsock.
  - exact (settled_forth _ _ _ _ _ Hs Hsock).
  - exact (settled_forth _ _ _ _ _ Hs Hsock).
  - exists o. rewrite Hs. split; [apply lookup_app_l_Some; exact Hsock|auto].
  - exists o. rewrite Hs. auto.
Qed.

Lemma reachable_owned (w : World) : reachable w -> connections_owned w.
Proof.
  intros Hreach. apply reachable_keeps; [|exact connections_owned_change|exact Hreach].
  intros c r o H. discriminate H.
Qed.

(** A run of events leaves a session that is not started as such, when
    no frame [s] arrives on its connection; when the connection is
    closed, none can. *)
Lemma run_stopped (events : list Event) : forall (w w' : World) (r : Ref) (c : ConnId) (o : bool),
  reachable w ->
  sockets w !! c = Some (r, o) ->
  stopped r w ->
  (o = true -> Forall (fun e => ~ start_frame c e) events) ->
  run events w = Some w' ->
  stopped r w'.
Proof.
  induction events as [|e events IH]; intros w w' r c o Hreach Hsock Hr Hnone;
    cbn -[step].
  - intros [= <-]. exact Hr.
  - destruct (step e w) as [[res w1]|] eqn:Hstep; [|discriminate]. intros Hrun.
    pose proof (reachable_inv _ _ _ _ _ _ w Hreach) as HI.
    destruct (change_socket w w1 c r o (step_change e w w1 res HI Hstep) Hsock)
      as (o1 & Hsock1 & Ho1).
    apply (IH w1 w' r c o1); [eapply reachable_step; eassumption|exact Hsock1| |
                              |exact Hrun].
    + apply (step_stopped e w w1 res r Hstep Hr).
      intros c' Hstart Hc'.
      destruct (reachable_owned w Hreach c' r true Hc') as (_ & a1 & Ha1 & Hconn1).
      destruct (reachable_owned w Hreach c r o Hsock) as (_ & a2 & Ha2 & Hconn2).
      assert (c' = c) as -> by congruence.
      assert (o = true) as -> by congruence.
      pose proof (Hnone eq_refl) as Hall. apply Forall_cons in Hall as [Hhead _].
      exact (Hhead Hstart).
    + intros ->. destruct o; [|discriminate (Ho1 eq_refl)].
      pose proof (Hnone eq_refl) as Hall. apply Forall_cons in Hall as [_ Htail].
      exact Htail.
Qed.

Lemma invoke_close_stops (w w1 : World) (r : Ref) (a : AmiVoice) (c : ConnId) (res : Res unit) :
  heap w !! r = Some a ->
  isReady a = true ->
  connection a = Some c ->
  invoke r close w = (res, w1) ->
  res = Ret tt /\ stopped r w1.
Proof.
  intros Ha Hr Hc H.
  apply invoke_core in H as [[Hnone _]|(a0 & a' & acts & Ha0 & Hcall & Hcore)];
    [congruence|].
  rewrite Ha in Ha0. injection Ha0 as <-.
  unfold core in Hcore. injection Hcore as _ Hh _ _ _.
  assert (Hlookup : heap w1 !! r = Some a').
  { rewrite Hh. apply list_lookup_insert_eq. eapply lookup_lt_Some; eassumption. }
  destruct (truthy (isStarted a)) eqn:Hs.
  - rewrite (close_started_ready a c Hs Hr Hc) in Hcall. injection Hcall as <- <- _.
    split; [reflexivity|]. eexists. split; [exact Hlookup|]. discriminate.
  - rewrite close_idle in Hcall by (rewrite Hs; reflexivity). injection Hcall as <- <- _.
    split; [reflexivity|]. exists a. split; [exact Hlookup|].
    unfold Started. rewrite Hs. discriminate.
Qed.

Lemma closing_stops (e : Event) (w w1 : World) (r : Ref) (a : AmiVoice) (c : ConnId)
    (res : Res unit) :
  amiVoiceConnection (vs w) = Some r ->
  heap w !! r = Some a ->
  isReady a = true ->
  connection a = Some c ->
  closing e ->
  step e w = Some (res, w1) ->
  res = Ret tt /\ stopped r w1.
Proof.
  intros Href Ha Hr Hc [->|(utf8Data & data & -> & Hparse & Hevent)]; cbn -[invoke].
  - intros [= H]. revert H. unfold VoiceStream_close. run_server. rewrite Href.
    apply invoke_close_stops with (a := a) (c := c); assumption.
  - intros [= H]. revert H. unfold processMessage, parse, VoiceStream_close. run_server.
    rewrite Hparse. cbn -[invoke]. rewrite Hevent. cbn -[invoke]. rewrite Href.
    cbn -[invoke].
    match goal with
    | |- context [invoke r close ?w0] =>
        destruct (invoke r close w0) as [res0 w2] eqn:Hclose;
        destruct (invoke_close_stops w0 w2 r a c res0 Ha Hr Hc Hclose) as [-> Hstopped]
    end.
    intros [= <- <-]. split; [reflexivity|]. exact Hstopped.
Qed.

(** X9.  No audio after [close()].  In every world the event loop can
    reach, when the Call Session calls [close()] (on a closed event or
    when the telephony connection closes) and its Speech Session is
    ready, the call returns and the session is not started; and it stays
    not started through every run of events in which the provider sends
    no frame [s] on the session's connection: [send] then drops every
    payload, without error.  (A frame [s] sets the started flag again,
    whatever came before.) *)
Theorem no_audio_after_close
    (w w1 w' : World) (r : Ref) (a : AmiVoice) (c : ConnId) (o : bool) (e : Event)
    (res : Res unit) (events : list Event) :
  reachable w ->
  amiVoiceConnection (vs w) = Some r ->
  heap w !! r = Some a ->
  isReady a = true ->
  sockets w !! c = Some (r, o) ->
  closing e ->
  step e w = Some (res, w1) ->
  Forall (fun e => ~ start_frame c e) events ->
  run events w1 = Some w' ->
  res = Ret tt
  /\ exists a',
       heap w' !! r = Some a'
       /\ ~ Started a'
       /\ forall payload, call (send payload) a' = (Ret tt, (a', [])).
Proof.
  intros Hreach Href Ha Hr Hsock Hclosing Hstep Hnone Hrun.
  destruct (reachable_owned w Hreach c r o Hsock) as (_ & a0 & Ha0 & Hc).
  rewrite Ha in Ha0. injection Ha0 as <-.
  destruct (closing_stops e w w1 r a c res Href Ha Hr Hc Hclosing Hstep) as [-> Hstopped].
  split; [reflexivity|].
  pose proof (reachable_inv _ _ _ _ _ _ w Hreach) as HI.
  destruct (change_socket w w1 c r o (step_change e w w1 (Ret tt) HI Hstep) Hsock)
    as (o1 & Hsock1 & _).
  destruct (run_stopped events w1 w' r c o1 (reachable_step e w w1 (Ret tt) Hreach Hstep)
              Hsock1 Hstopped (fun _ => Hnone) Hrun) as (a' & Ha' & Hs').
  exists a'. split; [exact Ha'|]. split; [exact Hs'|].
  intros payload. apply send_not_started. exact Hs'.
Qed.

Lemma on_message_e (a : AmiVoice) (utf8Data : string) :
  charAt0 utf8Data = "e" ->
  call (on_message (Utf8 utf8Data)) a
  = (Ret tt,
     (mkAmiVoice (apiKey a) false (Some false) (connection a) (listeners a),
      [Log "AmiVoice: [e] Connection closed" []])).
Proof.
  intros He. unfold on_message. rewrite He. cbn [String.eqb Ascii.eqb Bool.eqb].
  unfold set_isStarted, set_isReady. run_method. reflexivity.
Qed.

Lemma on_close_call (a : AmiVoice) :
  call on_close a
  = (Ret tt,
     (mkAmiVoice (apiKey a) (isReady a) (Some false) (connection a) (listeners a),
      [Log "AmiVoice: connection closed" []])).
Proof. unfold on_close, set_isStarted. run_method. reflexivity. Qed.

(** X10.  When the provider ends the session, in a world the event loop
    can reach.  On a text frame that begins with [e] (whatever follows
    the letter) the handler returns, writes nothing, and clears the
    started flag and the ready flag; the session then stays not started
    through every run of events in which the provider sends no frame [s]
    on that connection.  On the close of the connection the handler
    returns, writes nothing, clears the started flag and leaves the ready
    flag; the session then stays not started whatever events follow.  As
    long as it is not started, [send] drops every payload and [close()]
    sends nothing. *)
Theorem provider_end_stops_session (w : World) (r : Ref) (c : ConnId) (a : AmiVoice) :
  reachable w ->
  sockets w !! c = Some (r, true) ->
  heap w !! r = Some a ->
  let silent (w' : World) :=
    exists a',
      heap w' !! r = Some a'
      /\ ~ Started a'
      /\ (forall payload, call (send payload) a' = (Ret tt, (a', [])))
      /\ call close a' = (Ret tt, (a', [])) in
  (forall utf8Data res w1 events w',
     charAt0 utf8Data = "e" ->
     step (ProviderMessage c (Utf8 utf8Data)) w = Some (res, w1) ->
     Forall (fun e => ~ start_frame c e) events ->
     run events w1 = Some w' ->
     res = Ret tt
     /\ wire w1 = wire w
     /\ heap w1 !! r
        = Some (mkAmiVoice (apiKey a) false (Some false) (connection a) (listeners a))
     /\ silent w')
  /\ (forall res w1 events w',
        step (ProviderClose c) w = Some (res, w1) ->
        run events w1 = Some w' ->
        res = Ret tt
        /\ wire w1 = wire w
        /\ heap w1 !! r
           = Some (mkAmiVoice (apiKey a) (isReady a) (Some false) (connection a)
                     (listeners a))
        /\ silent w').
Proof.
  intros Hreach Hsock Ha silent.
  pose proof (lookup_lt_Some _ _ _ Ha) as Hlt.
  assert (Hsilent : forall w', stopped r w' -> silent w').
  { intros w' (a' & Ha' & Hs'). exists a'. split; [exact Ha'|]. split; [exact Hs'|]. split.
    - intros payload. apply send_not_started. exact Hs'.
    - apply close_idle. unfold Started in Hs'.
      destruct (truthy (isStarted a')); [contradiction|reflexivity]. }
  split.
  - intros utf8Data res w1 events w' He Hstep Hnone Hrun.
    pose proof (reachable_step _ _ _ _ Hreach Hstep) as Hreach1.
    revert Hstep. cbn -[invoke on_message on_close]. rewrite Hsock. intros Hstep.
    apply (inj Some) in Hstep.
    apply invoke_core in Hstep as [[Hnone' _]|(a0 & a' & acts & Ha0 & Hcall & Hcore)];
      [congruence|].
    rewrite Ha in Ha0. injection Ha0 as <-.
    rewrite (on_message_e a utf8Data He) in Hcall. injection Hcall as <- <- <-.
    unfold core in Hcore. cbn in Hcore. injection Hcore as _ Hh _ Hs Hw.
    assert (Hlookup : heap w1 !! r
                      = Some (mkAmiVoice (apiKey a) false (Some false) (connection a)
                                (listeners a))).
    { rewrite Hh. apply list_lookup_insert_eq. exact Hlt. }
    split; [reflexivity|]. split; [rewrite Hw; apply app_nil_r|]. split; [exact Hlookup|].
    apply Hsilent.
    apply (run_stopped events w1 w' r c true Hreach1);
      [rewrite Hs; exact Hsock| |intros _; exact Hnone|exact Hrun].
    eexists. split; [exact Hlookup|]. discriminate.
  - intros res w1 events w' Hstep Hrun.
    pose proof (reachable_step _ _ _ _ Hreach Hstep) as Hreach1.
    revert Hstep. cbn -[invoke on_message on_close]. rewrite Hsock. intros Hstep.
    apply (inj Some) in Hstep.
    apply invoke_core in Hstep as [[Hnone' _]|(a0 & a' & acts & Ha0 & Hcall & Hcore)];
      [cbn in Hnone'; congruence|].
    cbn in Ha0. rewrite Ha in Ha0. injection Ha0 as <-.
    rewrite (on_close_call a) in Hcall. injection Hcall as <- <- <-.
    unfold core in Hcore. cbn in Hcore. injection Hcore as _ Hh _ Hs Hw.
    assert (Hlookup : heap w1 !! r
                      = Some (mkAmiVoice (apiKey a) (isReady a) (Some false) (connection a)
                                (listeners a))).
    { rewrite Hh. apply list_lookup_insert_eq. exact Hlt. }
    split; [reflexivity|]. split; [rewrite Hw; apply app_nil_r|]. split; [exact Hlookup|].
    apply Hsilent.
    apply (run_stopped events w1 w' r c false Hreach1);
      [rewrite Hs; eapply mark_lookup_eq; exact Hsock| |discriminate|exact Hrun].
    eexists. split; [exact Hlookup|]. discriminate.
Qed.

End Further.

Lemma malformed_frame_throws_witness :
  Reference.JSON_parse "{" = None
  /\ ref_processMessage (Utf8 "{") started_world = (Throw SyntaxError, started_world)
  /\ Reference.JSON_parse "null" = Some VNull
  /\ ref_processMessage (Utf8 "null") started_world = (Throw TypeError, started_world).
Proof.
  assert (H1 : Reference.JSON_parse "{" = None) by (vm_compute; reflexivity).
  assert (H2 : Reference.JSON_parse "null" = Some VNull) by (vm_compute; reflexivity).
  split; [exact H1|].
  split; [exact (proj1 (malformed_frame_throws Reference.JSON_parse Reference.base64_decode
                          ref_Buffer_from_other xml_response ref_key Reference.Number_toString
                          started_world "{") H1)|].
  split; [exact H2|].
  exact (proj2 (malformed_frame_throws Reference.JSON_parse Reference.base64_decode
                  ref_Buffer_from_other xml_response ref_key Reference.Number_toString
                  started_world "null") H2).
Defined.

Lemma missing_member_throws_witness :
  Reference.JSON_parse (Reference.json (VObj [("event", VStr "start")]))
  = Some (VObj [("event", VStr "start")])
  /\ get "event" (VObj [("event", VStr "start")]) = Ret (VStr "start")
  /\ get "start" (VObj [("event", VStr "start")]) = Ret VUndefined
  /\ ref_processMessage (Utf8 (Reference.json (VObj [("event", VStr "start")]))) init
     = (Throw TypeError,
        add_console "Twilio WS: Start event received: " [VObj [("event", VStr "start")]] init)
  /\ Reference.JSON_parse (Reference.json (VObj [("event", VStr "media")]))
     = Some (VObj [("event", VStr "media")])
  /\ get "event" (VObj [("event", VStr "media")]) = Ret (VStr "media")
  /\ get "media" (VObj [("event", VStr "media")]) = Ret VUndefined
  /\ amiVoiceConnection (vs started_world) = Some 0
  /\ ref_processMessage (Utf8 (Reference.json (VObj [("event", VStr "media")]))) started_world
     = (Throw TypeError, started_world).
Proof.
  assert (H1 : Reference.JSON_parse (Reference.json (VObj [("event", VStr "start")]))
               = Some (VObj [("event", VStr "start")])) by (vm_compute; reflexivity).
  assert (H2 : get "event" (VObj [("event", VStr "start")]) = Ret (VStr "start"))
    by reflexivity.
  assert (H3 : get "start" (VObj [("event", VStr "start")]) = Ret VUndefined) by reflexivity.
  assert (H4 : Reference.JSON_parse (Reference.json (VObj [("event", VStr "media")]))
               = Some (VObj [("event", VStr "media")])) by (vm_compute; reflexivity).
  assert (H5 : get "event" (VObj [("event", VStr "media")]) = Ret (VStr "media"))
    by reflexivity.
  assert (H6 : get "media" (VObj [("event", VStr "media")]) = Ret VUndefined) by reflexivity.
  assert (H7 : amiVoiceConnection (vs started_world) = Some 0) by (vm_compute; reflexivity).
  split; [exact H1|]. split; [exact H2|]. split; [exact H3|].
  split; [exact (proj1 (missing_member_throws Reference.JSON_parse Reference.base64_decode
                          ref_Buffer_from_other xml_response ref_key Reference.Number_toString
                          init _ _ 0 H1) H2 H3)|].
  split; [exact H4|]. split; [exact H5|]. split; [exact H6|]. split; [exact H7|].
  exact (proj2 (missing_member_throws Reference.JSON_parse Reference.base64_decode
                  ref_Buffer_from_other xml_response ref_key Reference.Number_toString
                  started_world _ _ 0 H4)
           H5 H6 H7).
Defined.

Lemma unrecognized_event_is_only_counted_witness :
  Reference.JSON_parse (Reference.json (VObj [("event", VStr "mark")]))
  = Some (VObj [("event", VStr "mark")])
  /\ get "event" (VObj [("event", VStr "mark")]) = Ret (VStr "mark")
  /\ (forall name, In name handled_events -> VStr "mark" <> VStr name)
  /\ ref_processMessage (Utf8 (Reference.json (VObj [("event", VStr "mark")]))) started_world
     = (Ret tt, count_message started_world).
Proof.
  assert (H1 : Reference.JSON_parse (Reference.json (VObj [("event", VStr "mark")]))
               = Some (VObj [("event", VStr "mark")])) by (vm_compute; reflexivity).
  assert (H2 : get "event" (VObj [("event", VStr "mark")]) = Ret (VStr "mark"))
    by reflexivity.
  assert (H3 : forall name, In name handled_events -> VStr "mark" <> VStr name).
  { intros name [<-|[<-|[<-|[<-|[]]]]]; discriminate. }
  split; [exact H1|]. split; [exact H2|]. split; [exact H3|].
  exact (unrecognized_event_is_only_counted Reference.JSON_parse Reference.base64_decode
           ref_Buffer_from_other xml_response ref_key Reference.Number_toString
           started_world _ _ _ H1 H2 H3).
Defined.

Lemma messageCount_counts_processed_text_frames_witness :
  ref_step (twilio (media_event "/w==")) started_world = Some (Ret tt, media_world)
  /\ messageCount (vs media_world)
     = messageCount (vs started_world) + counted (twilio (media_event "/w==")) (Ret tt).
Proof.
  assert (H : ref_step (twilio (media_event "/w==")) started_world
              = Some (Ret tt, media_world)) by (vm_compute; reflexivity).
  split; [exact H|].
  exact (messageCount_counts_processed_text_frames Reference.JSON_parse
           Reference.base64_decode ref_Buffer_from_other xml_response ref_key Reference.Number_toString
           (twilio (media_event "/w==")) started_world media_world (Ret tt) H).
Defined.

Lemma media_event_forwards_or_drops_witness :
  ref_reachable started_world
  /\ amiVoiceConnection (vs started_world) = Some 0
  /\ heap started_world !! 0 = Some started_session
  /\ media_frame Reference.JSON_parse (Reference.json (media_event "/w==")) "/w=="
  /\ Started started_session
  /\ exists c,
       connection started_session = Some c
       /\ ref_processMessage (Utf8 (Reference.json (media_event "/w=="))) started_world
          = (Ret tt,
             count_message
               (add_wire c (BinaryFrame (x70 :: Reference.base64_decode "/w=="))
                  started_world)).
Proof.
  assert (H1 : amiVoiceConnection (vs started_world) = Some 0) by (vm_compute; reflexivity).
  assert (H2 : heap started_world !! 0 = Some started_session) by (vm_compute; reflexivity).
  assert (H3 : media_frame Reference.JSON_parse (Reference.json (media_event "/w=="))
                 "/w==").
  { exists (media_event "/w=="), (VObj [("payload", VStr "/w==")]).
    split; [vm_compute; reflexivity|]. split; [reflexivity|]. split; reflexivity. }
  assert (Hs : Started started_session) by reflexivity.
  split; [exact started_world_reachable|]. split; [exact H1|]. split; [exact H2|].
  split; [exact H3|]. split; [exact Hs|].
  exact (proj1 (media_event_forwards_or_drops Reference.JSON_parse Reference.base64_decode
                  ref_Buffer_from_other xml_response ref_key Reference.Number_toString
                  started_world 0 started_session
                  _ _ started_world_reachable H1 H2 H3) Hs).
Defined.

Lemma media_frames_forwarded_in_order_witness :
  ref_reachable started_world
  /\ amiVoiceConnection (vs started_world) = Some 0
  /\ heap started_world !! 0 = Some started_session
  /\ Started started_session
  /\ connection started_session = Some 0
  /\ Forall (fun f => media_frame Reference.JSON_parse (fst f) (snd f)) two_frames
  /\ exists w',
       ref_run (map (fun f => TwilioMessage (Utf8 (fst f))) two_frames) started_world
       = Some w'
       /\ wire w'
          = wire started_world
            ++ map (fun f => (0, BinaryFrame (x70 :: Reference.base64_decode (snd f))))
                 two_frames
       /\ messageCount (vs w') = messageCount (vs started_world) + length two_frames
       /\ heap w' = heap started_world.
Proof.
  assert (H1 : amiVoiceConnection (vs started_world) = Some 0) by (vm_compute; reflexivity).
  assert (H2 : heap started_world !! 0 = Some started_session) by (vm_compute; reflexivity).
  assert (Hs : Started started_session) by reflexivity.
  assert (Hc : connection started_session = Some 0) by reflexivity.
  assert (H3 : Forall (fun f => media_frame Reference.JSON_parse (fst f) (snd f)) two_frames).
  { apply Forall_cons. split.
    - exists (media_event "/w=="), (VObj [("payload", VStr "/w==")]).
      split; [vm_compute; reflexivity|]. split; [reflexivity|]. split; reflexivity.
    - apply Forall_cons. split; [|apply Forall_nil_2].
      exists (media_event "AAA="), (VObj [("payload", VStr "AAA=")]).
      split; [vm_compute; reflexivity|]. split; [reflexivity|]. split; reflexivity. }
  split; [exact started_world_reachable|]. split; [exact H1|]. split; [exact H2|].
  split; [exact Hs|]. split; [exact Hc|]. split; [exact H3|].
  exact (media_frames_forwarded_in_order Reference.JSON_parse Reference.base64_decode
           ref_Buffer_from_other xml_response ref_key Reference.Number_toString
           two_frames started_world 0
           started_session 0 started_world_reachable H1 H2 Hs Hc H3).
Defined.

Lemma close_with_session_returns_witness :
  ref_reachable started_world
  /\ amiVoiceConnection (vs started_world) = Some 0
  /\ heap started_world !! 0 = Some started_session
  /\ Started started_session
  /\ isReady started_session = true
  /\ exists c,
       connection started_session = Some c
       /\ VoiceStream_close xml_response Reference.Number_toString started_world
          = (Ret tt,
             add_wire c (TextFrame "e")
               (add_console "AmiVoice: send close command" []
                  (set_heap
                     (fun h => <[0 := mkAmiVoice (apiKey started_session)
                                        (isReady started_session) (Some false)
                                        (connection started_session)
                                        (listeners started_session)]> h)
                     (add_console (closed_line (messageCount (vs started_world))) []
                        started_world)))).
Proof.
  assert (H1 : amiVoiceConnection (vs started_world) = Some 0) by (vm_compute; reflexivity).
  assert (H2 : heap started_world !! 0 = Some started_session) by (vm_compute; reflexivity).
  assert (Hs : Started started_session) by reflexivity.
  assert (Hr : isReady started_session = true) by reflexivity.
  split; [exact started_world_reachable|]. split; [exact H1|]. split; [exact H2|].
  split; [exact Hs|]. split; [exact Hr|].
  exact (proj1 (close_with_session_returns Reference.JSON_parse Reference.base64_decode
                  ref_Buffer_from_other xml_response ref_key Reference.Number_toString
                  started_world 0 started_session
                  started_world_reachable H1 H2) Hs Hr).
Defined.

Lemma start_cases_witness :
  isReady failed_session = false
  /\ call start failed_session
     = (Ret tt, (failed_session, [ClientConnect AMIVOICE_WEBSOCKET_URL]))
  /\ isReady started_session = true
  /\ Started started_session
  /\ call start started_session = (Ret tt, (started_session, []))
  /\ isReady ended_session = true
  /\ ~ Started ended_session
  /\ connection ended_session = Some 0
  /\ call start ended_session
     = (Ret tt,
        (ended_session, [Send 0 (TextFrame "s mulaw -a-general authorization=API-KEY")])).
Proof.
  assert (H1 : isReady failed_session = false) by reflexivity.
  assert (H2 : isReady started_session = true) by reflexivity.
  assert (Hs : Started started_session) by reflexivity.
  assert (H3 : isReady ended_session = true) by reflexivity.
  assert (Hn : ~ Started ended_session) by discriminate.
  assert (Hc : connection ended_session = Some 0) by reflexivity.
  split; [exact H1|]. split; [exact (proj1 (start_cases failed_session) H1)|].
  split; [exact H2|]. split; [exact Hs|].
  split; [exact (proj1 (proj2 (start_cases started_session)) H2 Hs)|].
  split; [exact H3|]. split; [exact Hn|]. split; [exact Hc|].
  exact (proj1 (proj2 (proj2 (start_cases ended_session))) H3 Hn 0 Hc).
Defined.


Lemma provider_frame_is_local_witness :
  ref_step (ProviderMessage 0 (Utf8 "e")) started_world = Some (Ret tt, ended_world)
  /\ vs ended_world = vs started_world
  /\ wire ended_world = wire started_world
  /\ clients ended_world = clients started_world
  /\ sockets ended_world = sockets started_world
  /\ exists r,
       sockets started_world !! 0 = Some (r, true)
       /\ forall r', r' <> r -> heap ended_world !! r' = heap started_world !! r'.
Proof.
  assert (H : ref_step (ProviderMessage 0 (Utf8 "e")) started_world
              = Some (Ret tt, ended_world)) by (vm_compute; reflexivity).
  split; [exact H|].
  exact (provider_frame_is_local Reference.JSON_parse Reference.base64_decode
           ref_Buffer_from_other xml_response ref_key Reference.Number_toString
           started_world ended_world 0
           (Utf8 "e") (Ret tt) H).
Defined.

Lemma one_connection_per_session_witness :
  ref_reachable started_world
  /\ sockets started_world !! 0 = Some (0, true)
  /\ (exists a, heap started_world !! 0 = Some a /\ connection a = Some 0)
  /\ clients started_world !! 0 = Some (0, false)
  /\ (sockets started_world !! 0 = Some (0, true) -> 0 = 0).
Proof.
  assert (H1 : sockets started_world !! 0 = Some (0, true)) by (vm_compute; reflexivity).
  split; [exact started_world_reachable|]. split; [exact H1|].
  exact (one_connection_per_session Reference.JSON_parse Reference.base64_decode
           ref_Buffer_from_other xml_response ref_key Reference.Number_toString
           started_world 0 0 0 true true
           started_world_reachable H1).
Defined.

Lemma connect_failure_is_final_witness :
  ref_reachable pending_world
  /\ ref_step (ConnectFailed 0 "Error: connect ECONNREFUSED") pending_world
     = Some (Ret tt, failed_world)
  /\ ref_run [twilio (media_event "/w=="); twilio closed_event] failed_world
     = Some failed_closed_world
  /\ (forall c o, sockets failed_closed_world !! c <> Some (0, o))
  /\ exists a,
       heap failed_closed_world !! 0 = Some a
       /\ isStarted a = None
       /\ connection a = None
       /\ (forall payload, call (ref_send payload) a = (Ret tt, (a, [])))
       /\ call close a = (Ret tt, (a, [])).
Proof.
  assert (H1 : ref_step (ConnectFailed 0 "Error: connect ECONNREFUSED") pending_world
               = Some (Ret tt, failed_world)) by (vm_compute; reflexivity).
  assert (H2 : ref_run [twilio (media_event "/w=="); twilio closed_event] failed_world
               = Some failed_closed_world) by (vm_compute; reflexivity).
  split; [exact pending_world_reachable|]. split; [exact H1|]. split; [exact H2|].
  exact (connect_failure_is_final Reference.JSON_parse Reference.base64_decode
           ref_Buffer_from_other xml_response ref_key Reference.Number_toString
           pending_world failed_world
           failed_closed_world 0 _ (Ret tt) _ pending_world_reachable H1 H2).
Defined.

Lemma start_event_replaces_session_witness :
  Reference.JSON_parse (Reference.json (start_event "CA456")) = Some (start_event "CA456")
  /\ get "event" (start_event "CA456") = Ret (VStr "start")
  /\ get "start" (start_event "CA456") = Ret (VObj [("callSid", VStr "CA456")])
  /\ get "callSid" (VObj [("callSid", VStr "CA456")]) = Ret (VStr "CA456")
  /\ exists w',
       ref_processMessage (Utf8 (Reference.json (start_event "CA456"))) started_world
       = (Ret tt, w')
       /\ vs w'
          = mkVoiceStream (S (messageCount (vs started_world)))
              (Some (length (heap started_world))) (VStr "CA456")
       /\ heap w'
          = heap started_world
            ++ [mkAmiVoice ref_key false None None [("transcription", OnTranscription)]]
       /\ clients w' = clients started_world ++ [(length (heap started_world), true)]
       /\ sockets w' = sockets started_world
       /\ wire w' = wire started_world
       /\ console w'
          = console started_world
            ++ [("Twilio WS: Start event received: ", [start_event "CA456"])]
       /\ requests w' = requests started_world.
Proof.
  assert (H1 : Reference.JSON_parse (Reference.json (start_event "CA456"))
               = Some (start_event "CA456")) by (vm_compute; reflexivity).
  assert (H2 : get "event" (start_event "CA456") = Ret (VStr "start")) by reflexivity.
  assert (H3 : get "start" (start_event "CA456") = Ret (VObj [("callSid", VStr "CA456")]))
    by reflexivity.
  assert (H4 : get "callSid" (VObj [("callSid", VStr "CA456")]) = Ret (VStr "CA456"))
    by reflexivity.
  split; [exact H1|]. split; [exact H2|]. split; [exact H3|]. split; [exact H4|].
  exact (start_event_replaces_session Reference.JSON_parse Reference.base64_decode
           ref_Buffer_from_other xml_response ref_key Reference.Number_toString
           started_world _ _ _ _ H1 H2 H3 H4).
Defined.

Lemma closed_event_then_close_sends_end_once_witness :
  amiVoiceConnection (vs started_world) = Some 0
  /\ heap started_world !! 0 = Some started_session
  /\ Started started_session
  /\ isReady started_session = true
  /\ connection started_session = Some 0
  /\ Reference.JSON_parse (Reference.json closed_event) = Some closed_event
  /\ get "event" closed_event = Ret (VStr "closed")
  /\ exists w1 w2,
       ref_step (TwilioMessage (Utf8 (Reference.json closed_event))) started_world
       = Some (Ret tt, w1)
       /\ ref_step TwilioClose w1 = Some (Ret tt, w2)
       /\ wire w1 = wire started_world ++ [(0, TextFrame "e")]
       /\ wire w2 = wire w1
       /\ heap w2 !! 0
          = Some (mkAmiVoice (apiKey started_session) (isReady started_session) (Some false)
                    (connection started_session) (listeners started_session))
       /\ messageCount (vs w2) = S (messageCount (vs started_world)).
Proof.
  assert (H1 : amiVoiceConnection (vs started_world) = Some 0) by (vm_compute; reflexivity).
  assert (H2 : heap started_world !! 0 = Some started_session) by (vm_compute; reflexivity).
  assert (Hs : Started started_session) by reflexivity.
  assert (Hr : isReady started_session = true) by reflexivity.
  assert (Hc : connection started_session = Some 0) by reflexivity.
  assert (H3 : Reference.JSON_parse (Reference.json closed_event) = Some closed_event)
    by (vm_compute; reflexivity).
  assert (H4 : get "event" closed_event = Ret (VStr "closed")) by reflexivity.
  split; [exact H1|]. split; [exact H2|]. split; [exact Hs|]. split; [exact Hr|].
  split; [exact Hc|]. split; [exact H3|]. split; [exact H4|].
  exact (closed_event_then_close_sends_end_once Reference.JSON_parse Reference.base64_decode
           ref_Buffer_from_other xml_response ref_key Reference.Number_toString
           started_world 0 started_session 0 _ _
           H1 H2 Hs Hr Hc H3 H4).
Defined.

Lemma no_audio_after_close_witness :
  ref_reachable started_world
  /\ amiVoiceConnection (vs started_world) = Some 0
  /\ heap started_world !! 0 = Some started_session
  /\ isReady started_session = true
  /\ sockets started_world !! 0 = Some (0, true)
  /\ closing Reference.JSON_parse TwilioClose
  /\ ref_step TwilioClose started_world = Some (Ret tt, hung_up_world)
  /\ Forall (fun e => ~ start_frame 0 e) [twilio (media_event "/w==")]
  /\ ref_run [twilio (media_event "/w==")] hung_up_world = Some hung_up_media_world
  /\ Ret tt = Ret tt
  /\ exists a',
       heap hung_up_media_world !! 0 = Some a'
       /\ ~ Started a'
       /\ forall payload, call (ref_send payload) a' = (Ret tt, (a', [])).
Proof.
  assert (H1 : amiVoiceConnection (vs started_world) = Some 0) by (vm_compute; reflexivity).
  assert (H2 : heap started_world !! 0 = Some started_session) by (vm_compute; reflexivity).
  assert (Hr : isReady started_session = true) by reflexivity.
  assert (H3 : sockets started_world !! 0 = Some (0, true)) by (vm_compute; reflexivity).
  assert (H4 : closing Reference.JSON_parse TwilioClose) by (left; reflexivity).
  assert (H5 : ref_step TwilioClose started_world = Some (Ret tt, hung_up_world))
    by (vm_compute; reflexivity).
  assert (H6 : Forall (fun e => ~ start_frame 0 e) [twilio (media_event "/w==")]).
  { apply Forall_cons. split; [|apply Forall_nil_2]. intros (utf8Data & Heq & _).
    discriminate Heq. }
  assert (H7 : ref_run [twilio (media_event "/w==")] hung_up_world
               = Some hung_up_media_world) by (vm_compute; reflexivity).
  split; [exact started_world_reachable|]. split; [exact H1|]. split; [exact H2|].
  split; [exact Hr|]. split; [exact H3|]. split; [exact H4|]. split; [exact H5|].
  split; [exact H6|]. split; [exact H7|].
  exact (no_audio_after_close Reference.JSON_parse Reference.base64_decode
           ref_Buffer_from_other xml_response ref_key Reference.Number_toString
           started_world hung_up_world hung_up_media_world 0 started_session 0 true
           TwilioClose (Ret tt) [twilio (media_event "/w==")] started_world_reachable H1 H2
           Hr H3 H4 H5 H6 H7).
Defined.

Lemma provider_end_stops_session_witness :
  ref_reachable started_world
  /\ sockets started_world !! 0 = Some (0, true)
  /\ heap started_world !! 0 = Some started_session
  /\ charAt0 "e" = "e"
  /\ ref_step (ProviderMessage 0 (Utf8 "e")) started_world = Some (Ret tt, ended_world)
  /\ Forall (fun e => ~ start_frame 0 e) [twilio (media_event "/w==")]
  /\ ref_run [twilio (media_event "/w==")] ended_world = Some ended_media_world
  /\ (Ret tt = Ret tt
      /\ wire ended_world = wire started_world
      /\ heap ended_world !! 0
         = Some (mkAmiVoice (apiKey started_session) false (Some false)
                   (connection started_session) (listeners started_session))
      /\ exists a',
           heap ended_media_world !! 0 = Some a'
           /\ ~ Started a'
           /\ (forall payload, call (ref_send payload) a' = (Ret tt, (a', [])))
           /\ call close a' = (Ret tt, (a', [])))
  /\ ref_step (ProviderClose 0) started_world = Some (Ret tt, dropped_world)
  /\ ref_run [twilio (media_event "/w=="); twilio closed_event] dropped_world
     = Some dropped_media_world
  /\ (Ret tt = Ret tt
      /\ wire dropped_world = wire started_world
      /\ heap dropped_world !! 0
         = Some (mkAmiVoice (apiKey started_session) (isReady started_session) (Some false)
                   (connection started_session) (listeners started_session))
      /\ exists a',
           heap dropped_media_world !! 0 = Some a'
           /\ ~ Started a'
           /\ (forall payload, call (ref_send payload) a' = (Ret tt, (a', [])))
           /\ call close a' = (Ret tt, (a', []))).
Proof.
  assert (H1 : sockets started_world !! 0 = Some (0, true)) by (vm_compute; reflexivity).
  assert (H2 : heap started_world !! 0 = Some started_session) by (vm_compute; reflexivity).
  assert (He : charAt0 "e" = "e") by reflexivity.
  assert (H3 : ref_step (ProviderMessage 0 (Utf8 "e")) started_world
               = Some (Ret tt, ended_world)) by (vm_compute; reflexivity).
  assert (H4 : Forall (fun e => ~ start_frame 0 e) [twilio (media_event "/w==")]).
  { apply Forall_cons. split; [|apply Forall_nil_2]. intros (utf8Data & Heq & _).
    discriminate Heq. }
  assert (H5 : ref_run [twilio (media_event "/w==")] ended_world = Some ended_media_world)
    by (vm_compute; reflexivity).
  assert (H6 : ref_step (ProviderClose 0) started_world = Some (Ret tt, dropped_world))
    by (vm_compute; reflexivity).
  assert (H7 : ref_run [twilio (media_event "/w=="); twilio closed_event] dropped_world
               = Some dropped_media_world) by (vm_compute; reflexivity).
  split; [exact started_world_reachable|]. split; [exact H1|]. split; [exact H2|].
  split; [exact He|]. split; [exact H3|]. split; [exact H4|]. split; [exact H5|].
  split; [exact (proj1 (provider_end_stops_session Reference.JSON_parse
                          Reference.base64_decode ref_Buffer_from_other xml_response ref_key
                          Reference.Number_toString started_world 0 0 started_session
                          started_world_reachable H1 H2) "e" (Ret tt) ended_world
                   [twilio (media_event "/w==")] ended_media_world He H3 H4 H5)|].
  split; [exact H6|]. split; [exact H7|].
  exact (proj2 (provider_end_stops_session Reference.JSON_parse Reference.base64_decode
                  ref_Buffer_from_other xml_response ref_key Reference.Number_toString
                  started_world 0 0 started_session started_world_reachable H1 H2)
           (Ret tt) dropped_world [twilio (media_event "/w=="); twilio closed_event]
           dropped_media_world H6 H7).
Defined.
